(** * Orchestration and integrity subsystem of the multi-agent simulation

    A shallow embedding of the Python sources under [backend/]:
    - [simulation/comm_buffer.py]             module [CommBuffer]
    - [simulation/metrics/inquiry_metrics.py] module [InquiryMetrics]
    - [simulation/training/reward.py]         module [Reward]
    - [simulation/protocols.py]               modules [Protocols], [Engine]
    - [simulation/training/temperature.py]    module [Temperature]
    - [simulation/engine.py]                  module [Engine]
    - [app/services/hash_chain.py]            module [HashChain]
    - [app/services/run_manager.py]           modules [DeliveryQueue], [RunManager]
    and of the library functions they call: [json.dumps] and [json.loads]
    (module [Json]) and [hashlib.sha256] (module [Sha256]).

    Conventions.  A Python [dict] is an insertion-ordered association list
    with unique keys (module [PyDict]).  Python [int] is [Z].  Where the
    code computes with floats (rewards, temperature) the arithmetic is that
    of the real numbers, rounding being outside the model; where it only
    stores and prints them (metrics) a float is the text of its [repr].
    A raised exception is [None] in the result.

    Part I holds the model, Part II the properties; the theorems whose
    names start with [C1] to [C10] are the claims of the specification. *)

From Stdlib Require Import String Ascii.
From Stdlib Require Import List ZArith Bool Arith Lia.
From Stdlib Require Import QArith Reals Lra.
From Stdlib Require Decimal DecimalString DecimalPos DecimalZ DecimalFacts.
From Stdlib Require Qround.
From Stdlib Require Import Permutation Sorted.
Import ListNotations.

Local Open Scope Z_scope.

(* ================================================================== *)
(** * Part I: the model *)
(* ================================================================== *)

(** ** Python dictionaries: insertion-ordered, unique keys *)

Module PyDict.
Section Ops.
Context {K V : Type}.
Variable keq : K -> K -> bool.

(** [d.get(k)] *)
Fixpoint get (d : list (K * V)) (k : K) : option V :=
  match d with
  | [] => None
  | (k', v) :: r => if keq k' k then Some v else get r k
  end.

(** [k in d] *)
Definition mem (d : list (K * V)) (k : K) : bool :=
  match get d k with Some _ => true | None => false end.

(** [d[k] = v]: an existing key keeps its position, a new key goes last. *)
Fixpoint set (d : list (K * V)) (k : K) (v : V) : list (K * V) :=
  match d with
  | [] => [(k, v)]
  | (k', v') :: r => if keq k' k then (k', v) :: r else (k', v') :: set r k v
  end.

(** [d.setdefault(k, v)] (the returned value is not used by the callers). *)
Definition setdefault (d : list (K * V)) (k : K) (v : V) : list (K * V) :=
  match get d k with Some _ => d | None => set d k v end.

(** [d.update(e)] and [dict(pairs)] *)
Definition update (d e : list (K * V)) : list (K * V) :=
  fold_left (fun acc kv => set acc (fst kv) (snd kv)) e d.

Definition of_pairs (e : list (K * V)) : list (K * V) := update [] e.

Definition keys (d : list (K * V)) : list K := map fst d.
Definition values (d : list (K * V)) : list V := map snd d.
End Ops.
End PyDict.

(** ** [queue.Queue(maxsize)] as used by the run manager *)

Module DeliveryQueue.
Section Q.
Context {A : Type}.

Record Queue := mkQueue { maxsize : Z; items : list A }.

Definition new (n : Z) : Queue := mkQueue n [].

Definition qsize (q : Queue) : Z := Z.of_nat (length (items q)).

(** [q.put_nowait(x)]: raises [Full] ([None]) when [maxsize > 0] and the
    queue already holds [maxsize] items. *)
Definition put_nowait (q : Queue) (x : A) : option Queue :=
  if (0 <? maxsize q) && (maxsize q <=? qsize q)
  then None
  else Some (mkQueue (maxsize q) (items q ++ [x])).

(** [q.get_nowait()]: raises [Empty] ([None]) on the empty queue. *)
Definition get_nowait (q : Queue) : option (A * Queue) :=
  match items q with
  | [] => None
  | x :: r => Some (x, mkQueue (maxsize q) r)
  end.

(** The tail of [epoch_callback]:
<<
    try: q.put_nowait(metrics)
    except Full:
        try: q.get_nowait()
        except Empty: pass
        q.put_nowait(metrics)
>>
    [None] is a [Full] that escapes the handler. *)
Definition push (q : Queue) (x : A) : option Queue :=
  match put_nowait q x with
  | Some q' => Some q'
  | None =>
      let q1 := match get_nowait q with
                | Some (_, q1) => q1
                | None => q
                end in
      put_nowait q1 x
  end.

(** Successive pushes with no consumer in between. *)
Fixpoint push_all (q : Queue) (xs : list A) : option Queue :=
  match xs with
  | [] => Some q
  | x :: r => match push q x with
              | Some q' => push_all q' r
              | None => None
              end
  end.
End Q.
Arguments Queue : clear implicits.

(** [thread_queue.Queue(maxsize=200)] in [RunManager.start_run]. *)
Definition run_manager_maxsize : Z := 200.
End DeliveryQueue.

(** ** Inquiry metrics: query/response coupling *)

Module InquiryMetrics.

Definition DECLARATIVE : Z := 0.
Definition INTERROGATIVE : Z := 1.
Definition RESPONSE : Z := 2.

(** One step of the type history: agent name -> signal type. *)
Definition step := list (string * Z).

(** [any(t == ty for t in step.values())] *)
Definition any_type (ty : Z) (s : step) : bool :=
  existsb (fun t => t =? ty) (PyDict.values s).

(** [enumerate(l)] from a start index. *)
Fixpoint enumerate_from {A} (i : nat) (l : list A) : list (nat * A) :=
  match l with
  | [] => []
  | x :: r => (i, x) :: enumerate_from (S i) r
  end.

(** [[i for i, step in enumerate(type_history) if any(t == INTERROGATIVE ...)]] *)
Definition query_steps (type_history : list step) : list nat :=
  map fst (filter (fun p => any_type INTERROGATIVE (snd p))
                  (enumerate_from 0 type_history)).

(** [i + 1 < len(type_history) and any(t == RESPONSE for t in type_history[i + 1].values())] *)
Definition followed (type_history : list step) (i : nat) : bool :=
  (S i <? length type_history)%nat
  && match nth_error type_history (S i) with
     | Some s => any_type RESPONSE s
     | None => false
     end.

Definition count_true {A} (f : A -> bool) (l : list A) : nat :=
  length (filter f l).

(** [_compute_qr_coupling]; the quotient of the two counts is kept exact. *)
Definition _compute_qr_coupling (type_history : list step) : Q :=
  let qs := query_steps type_history in
  match qs with
  | [] => 0%Q
  | _ :: _ =>
      let followed_by_response := count_true (followed type_history) qs in
      (Z.of_nat followed_by_response # Pos.of_nat (length qs))%Q
  end.

(** The metric in the words of the specification: walk the history once;
    a step counts as a query step when some agent emits a query in it, and
    as answered when the step right after it exists and has a response. *)
Fixpoint coupling_counts (h : list step) : nat * nat :=
  match h with
  | [] => (0, 0)%nat
  | s :: rest =>
      let '(q, a) := coupling_counts rest in
      if any_type INTERROGATIVE s
      then (S q,
            match rest with
            | s' :: _ => if any_type RESPONSE s' then S a else a
            | [] => a
            end)
      else (q, a)
  end.

Definition coupling_spec (h : list step) : Q :=
  let '(q, a) := coupling_counts h in
  match q with
  | O => 0%Q
  | S _ => (Z.of_nat a # Pos.of_nat q)%Q
  end.

End InquiryMetrics.

(** ** Rewards *)

Module Reward.
Local Open Scope R_scope.

(** [signal_sent.abs().sum().item()] for a one-dimensional tensor. *)
Definition abs_sum (signal : list R) : R :=
  fold_right (fun x acc => Rabs x + acc) 0 signal.

(** [type_costs.get(signal_type, 1.0)] *)
Definition type_multiplier (declare_cost query_cost respond_cost : R)
           (signal_type : Z) : R :=
  if (signal_type =? 0)%Z then declare_cost
  else if (signal_type =? 1)%Z then query_cost
  else if (signal_type =? 2)%Z then respond_cost
  else 1.

(** The survival term [survival_bonus * max(energy_remaining / energy_budget, 0.0)];
    the division raises [ZeroDivisionError] on a zero budget. *)
Definition energy_fraction (energy_remaining energy_budget : R) : option R :=
  if Req_dec_T energy_budget 0 then None
  else Some (Rmax (energy_remaining / energy_budget) 0).

Definition survival_term (survival_bonus energy_remaining energy_budget : R)
  : option R :=
  option_map (fun f => survival_bonus * f)
             (energy_fraction energy_remaining energy_budget).

(** [reward.compute_reward] (the agent name and [reached_target] are unused
    by the body). *)
Definition compute_reward (env_reward : R) (signal_sent : list R)
           (energy_remaining energy_budget communication_tax_rate : R)
           (survival_bonus : R) (signal_type : Z)
           (declare_cost query_cost respond_cost : R) : option R :=
  let reward := env_reward in
  let signal_cost :=
    communication_tax_rate
    * type_multiplier declare_cost query_cost respond_cost signal_type
    * abs_sum signal_sent in
  let reward := reward - signal_cost in
  match energy_fraction energy_remaining energy_budget with
  | None => None
  | Some f => Some (reward + survival_bonus * f)
  end.

(** The communication tax charged by [compute_reward]. *)
Definition signal_cost (communication_tax_rate : R) (signal_type : Z)
           (declare_cost query_cost respond_cost : R) (signal_sent : list R) : R :=
  communication_tax_rate
  * type_multiplier declare_cost query_cost respond_cost signal_type
  * abs_sum signal_sent.
End Reward.

Module Protocols.
Local Open Scope R_scope.

(** [Protocol0.compute_reward]: flat tax, no type multiplier. *)
Definition Protocol0_compute_reward (env_reward : R) (signal_sent : list R)
           (energy_remaining energy_budget communication_tax_rate : R)
           (survival_bonus : R) (signal_type : Z) : option R :=
  let signal_cost := communication_tax_rate * Reward.abs_sum signal_sent in
  match Reward.energy_fraction energy_remaining energy_budget with
  | None => None
  | Some f => Some (env_reward - signal_cost + survival_bonus * f)
  end.

(** [Protocol1.compute_reward] forwards to [reward.compute_reward] with the
    protocol's three cost multipliers. *)
Definition Protocol1_compute_reward (declare_cost query_cost respond_cost : R)
           (env_reward : R) (signal_sent : list R)
           (energy_remaining energy_budget communication_tax_rate : R)
           (survival_bonus : R) (signal_type : Z) : option R :=
  Reward.compute_reward env_reward signal_sent energy_remaining energy_budget
    communication_tax_rate survival_bonus signal_type
    declare_cost query_cost respond_cost.
End Protocols.

(** ** Temperature schedule *)

Module Temperature.
Local Open Scope R_scope.

(** [get_tau(epoch, tau_max, tau_min, warmup_epochs, decay_epochs)].
    [None] is the [ZeroDivisionError] of [(epoch - warmup_epochs) / decay_epochs]. *)
Definition get_tau (epoch : Z) (tau_max tau_min : R)
           (warmup_epochs decay_epochs : Z) : option R :=
  if (epoch <? warmup_epochs)%Z then Some tau_max
  else if (decay_epochs =? 0)%Z then None
  else
    let progress := Rmin (IZR (epoch - warmup_epochs) / IZR decay_epochs) 1 in
    let tau := tau_min + (tau_max - tau_min) * exp (-3 * progress) in
    Some (Rmax tau tau_min).

(** The defaults of the signature: [tau_max=1.0, tau_min=0.1,
    warmup_epochs=20, decay_epochs=60]. *)
Definition get_tau_default (epoch : Z) : option R :=
  get_tau epoch 1 (1/10) 20 60.
End Temperature.

(** ** Communication buffer *)

Module CommBuffer.

Record CommBufferConfig := mkConfig { signal_dim : Z; num_agents : Z }.

(** The dataclass defaults: [signal_dim = 8], [num_agents = 3]. *)
Definition default_config : CommBufferConfig := mkConfig 8 3.

Section Tensor.
(** Signals are one-dimensional tensors over a scalar type with a zero. *)
Variable T : Type.
Variable zero : T.

Definition tensor := list T.

(** [torch.zeros_like(sig)] *)
Definition zeros_like (sig : tensor) : tensor := map (fun _ => zero) sig.

(** [torch.zeros(n)]: a negative size raises. *)
Definition zeros (n : Z) : option tensor :=
  if n <? 0 then None else Some (repeat zero (Z.to_nat n)).

(** [torch.cat(list_of_tensors)] *)
Definition cat (l : list tensor) : tensor := concat l.

Record CommBuffer := mkBuffer {
  config : CommBufferConfig;
  _buffer : list (string * tensor);
  _history : list (list (string * tensor));
  _killed : bool;
  _type_buffer : list (string * Z);
  _type_history : list (list (string * Z))
}.

(** [CommBuffer(config)] *)
Definition new (cfg : CommBufferConfig) : CommBuffer :=
  mkBuffer cfg [] [] false [] [].

(** [send]: the stored tensor is a detached copy, a value here. *)
Definition send (b : CommBuffer) (agent_name : string) (signal : tensor)
           (signal_type : Z) : CommBuffer :=
  mkBuffer (config b)
           (PyDict.set String.eqb (_buffer b) agent_name signal)
           (_history b) (_killed b)
           (PyDict.set String.eqb (_type_buffer b) agent_name signal_type)
           (_type_history b).

(** [receive]: a fresh dict filled while iterating [self._buffer.items()]. *)
Definition receive (b : CommBuffer) (agent_name : string)
  : list (string * tensor) :=
  fold_left
    (fun signals (item : string * tensor) =>
       let (name, sig) := item in
       if negb (String.eqb name agent_name)
       then PyDict.set String.eqb signals name
              (if _killed b then zeros_like sig else sig)
       else signals)
    (_buffer b) [].

(** [receive_all] *)
Definition receive_all (b : CommBuffer) (agent_name : string) : option tensor :=
  let signals := receive b agent_name in
  match signals with
  | [] => zeros (signal_dim (config b) * (num_agents (config b) - 1))
  | _ :: _ => Some (cat (PyDict.values signals))
  end.

(** [snapshot] and [record_history] *)
Definition snapshot (b : CommBuffer) : list (string * tensor) := _buffer b.

Definition record_history (b : CommBuffer) : CommBuffer :=
  mkBuffer (config b) (_buffer b) (_history b ++ [snapshot b]) (_killed b)
           (_type_buffer b) (_type_history b ++ [_type_buffer b]).

Definition kill (b : CommBuffer) : CommBuffer :=
  mkBuffer (config b) (_buffer b) (_history b) true
           (_type_buffer b) (_type_history b).

Definition restore (b : CommBuffer) : CommBuffer :=
  mkBuffer (config b) (_buffer b) (_history b) false
           (_type_buffer b) (_type_history b).

Definition is_killed (b : CommBuffer) : bool := _killed b.

(** [clear] empties the signal buffer only (the type buffer is kept). *)
Definition clear (b : CommBuffer) : CommBuffer :=
  mkBuffer (config b) [] (_history b) (_killed b)
           (_type_buffer b) (_type_history b).

Definition reset (b : CommBuffer) : CommBuffer :=
  mkBuffer (config b) [] [] false [] [].

(** The calls a client can make, and a run of them from a fresh buffer. *)
Inductive call :=
| Send (agent_name : string) (signal : tensor) (signal_type : Z)
| RecordHistory
| Kill
| Restore
| Clear
| Reset.

Definition do_call (b : CommBuffer) (c : call) : CommBuffer :=
  match c with
  | Send a s ty => send b a s ty
  | RecordHistory => record_history b
  | Kill => kill b
  | Restore => restore b
  | Clear => clear b
  | Reset => reset b
  end.

Definition run (cfg : CommBufferConfig) (cs : list call) : CommBuffer :=
  fold_left do_call cs (new cfg).

(** What the code returns, read off the buffer: the stored signals of the
    other agents in the order in which they entered the buffer, zeroed
    when killed. *)
Definition others (b : CommBuffer) (agent_name : string)
  : list (string * tensor) :=
  filter (fun item => negb (String.eqb (fst item) agent_name)) (_buffer b).

Definition masked (b : CommBuffer) (sig : tensor) : tensor :=
  if _killed b then zeros_like sig else sig.

(** [receiveAll] in the words of the specification, for a fixed canonical
    list of agents: every other agent contributes its last-sent signal, or
    a zero vector of [signal_dim] entries when it has not sent, and a
    zero vector of the signal's shape when the channel is killed. *)
Definition receiveAll_spec (agents : list string) (b : CommBuffer)
           (agent_name : string) : tensor :=
  concat
    (map (fun a =>
            match PyDict.get String.eqb (_buffer b) a with
            | Some sig => masked b sig
            | None => repeat zero (Z.to_nat (signal_dim (config b)))
            end)
         (filter (fun a => negb (String.eqb a agent_name)) agents)).

(** The last signal an agent sent since the buffer was last emptied, and
    the agents in the order of their first send since then, read off the
    sequence of calls. *)
Fixpoint last_sent (cs : list call) (a : string) (acc : option tensor)
  : option tensor :=
  match cs with
  | [] => acc
  | Send a' s _ :: r =>
      last_sent r a (if String.eqb a' a then Some s else acc)
  | (Clear | Reset) :: r => last_sent r a None
  | _ :: r => last_sent r a acc
  end.

Fixpoint send_order (cs : list call) (acc : list string) : list string :=
  match cs with
  | [] => acc
  | Send a _ _ :: r =>
      send_order r (if existsb (String.eqb a) acc then acc else acc ++ [a])
  | (Clear | Reset) :: r => send_order r []
  | _ :: r => send_order r acc
  end.

(** Whether the last of the kill, restore and reset calls was a kill. *)
Fixpoint killed_after (cs : list call) (acc : bool) : bool :=
  match cs with
  | [] => acc
  | Kill :: r => killed_after r true
  | (Restore | Reset) :: r => killed_after r false
  | _ :: r => killed_after r acc
  end.
End Tensor.

Arguments Send {T}.
Arguments RecordHistory {T}.
Arguments Kill {T}.
Arguments Restore {T}.
Arguments Clear {T}.
Arguments Reset {T}.
End CommBuffer.

(** ** SHA-256 ([hashlib.sha256], FIPS 180-4) on 32-bit words held in [Z] *)

Module Sha256.

Definition mask32 : Z := 4294967295.

Definition add32 (x y : Z) : Z := Z.land (x + y) mask32.

(** Rotation and shift to the right of a 32-bit word. *)
Definition rotr (n x : Z) : Z :=
  Z.lor (Z.shiftr x n) (Z.land (Z.shiftl x (32 - n)) mask32).

Definition shr (n x : Z) : Z := Z.shiftr x n.

Definition not32 (x : Z) : Z := Z.lxor x mask32.

Definition Ch (x y z : Z) : Z := Z.lxor (Z.land x y) (Z.land (not32 x) z).
Definition Maj (x y z : Z) : Z :=
  Z.lxor (Z.lxor (Z.land x y) (Z.land x z)) (Z.land y z).
Definition Sigma0 (x : Z) : Z := Z.lxor (Z.lxor (rotr 2 x) (rotr 13 x)) (rotr 22 x).
Definition Sigma1 (x : Z) : Z := Z.lxor (Z.lxor (rotr 6 x) (rotr 11 x)) (rotr 25 x).
Definition sigma0 (x : Z) : Z := Z.lxor (Z.lxor (rotr 7 x) (rotr 18 x)) (shr 3 x).
Definition sigma1 (x : Z) : Z := Z.lxor (Z.lxor (rotr 17 x) (rotr 19 x)) (shr 10 x).

(** The round constants: the first 32 bits of the fractional parts of the
    cube roots of the first 64 primes, in decimal. *)
Definition K : list Z :=
  [ 1116352408; 1899447441; 3049323471; 3921009573;
    961987163; 1508970993; 2453635748; 2870763221;
    3624381080; 310598401; 607225278; 1426881987;
    1925078388; 2162078206; 2614888103; 3248222580;
    3835390401; 4022224774; 264347078; 604807628;
    770255983; 1249150122; 1555081692; 1996064986;
    2554220882; 2821834349; 2952996808; 3210313671;
    3336571891; 3584528711; 113926993; 338241895;
    666307205; 773529912; 1294757372; 1396182291;
    1695183700; 1986661051; 2177026350; 2456956037;
    2730485921; 2820302411; 3259730800; 3345764771;
    3516065817; 3600352804; 4094571909; 275423344;
    430227734; 506948616; 659060556; 883997877;
    958139571; 1322822218; 1537002063; 1747873779;
    1955562222; 2024104815; 2227730452; 2361852424;
    2428436474; 2756734187; 3204031479; 3329325298 ].

(** Padding: a 1 bit, zeros up to 56 modulo 64 bytes, the bit length on
    8 bytes, big-endian. *)
Definition be_bytes (n : nat) (x : Z) : list Z :=
  map (fun i => Z.land (Z.shiftr x (8 * Z.of_nat i)) 255) (rev (seq 0 n)).

Definition pad (msg : list Z) : list Z :=
  let len := Z.of_nat (length msg) in
  let zeros := Z.to_nat ((55 - len) mod 64) in
  msg ++ [128] ++ repeat 0 zeros ++ be_bytes 8 (8 * len).

Fixpoint words_of_bytes (bs : list Z) : list Z :=
  match bs with
  | b0 :: b1 :: b2 :: b3 :: r =>
      Z.lor (Z.shiftl b0 24) (Z.lor (Z.shiftl b1 16) (Z.lor (Z.shiftl b2 8) b3))
      :: words_of_bytes r
  | _ => []
  end.

Fixpoint blocks_of_words (fuel : nat) (ws : list Z) : list (list Z) :=
  match fuel, ws with
  | S f, _ :: _ => firstn 16 ws :: blocks_of_words f (skipn 16 ws)
  | _, _ => []
  end.

(** Message schedule, most recent word first:
    [W_t = sigma1(W_(t-2)) + W_(t-7) + sigma0(W_(t-15)) + W_(t-16)]. *)
Fixpoint extend (n : nat) (rev_w : list Z) : list Z :=
  match n with
  | O => rev_w
  | S n' =>
      let w := add32 (add32 (sigma1 (nth 1 rev_w 0)) (nth 6 rev_w 0))
                     (add32 (sigma0 (nth 14 rev_w 0)) (nth 15 rev_w 0)) in
      extend n' (w :: rev_w)
  end.

Definition schedule (block : list Z) : list Z := rev (extend 48 (rev block)).

Record regs := mkRegs { ra : Z; rb : Z; rc : Z; rd : Z; re : Z; rf : Z; rg : Z; rh : Z }.

Definition round (s : regs) (kw : Z * Z) : regs :=
  let (k, w) := kw in
  let t1 := add32 (add32 (add32 (rh s) (Sigma1 (re s)))
                         (add32 (Ch (re s) (rf s) (rg s)) k)) w in
  let t2 := add32 (Sigma0 (ra s)) (Maj (ra s) (rb s) (rc s)) in
  mkRegs (add32 t1 t2) (ra s) (rb s) (rc s) (add32 (rd s) t1) (re s) (rf s) (rg s).

Definition compress (h : regs) (block : list Z) : regs :=
  let s := fold_left round (combine K (schedule block)) h in
  mkRegs (add32 (ra h) (ra s)) (add32 (rb h) (rb s)) (add32 (rc h) (rc s))
         (add32 (rd h) (rd s)) (add32 (re h) (re s)) (add32 (rf h) (rf s))
         (add32 (rg h) (rg s)) (add32 (rh h) (rh s)).

(** The initial hash value: the first 32 bits of the fractional parts of
    the square roots of the first 8 primes. *)
Definition init : regs :=
  mkRegs 1779033703 3144134277 1013904242 2773480762
         1359893119 2600822924 528734635 1541459225.

Definition digest_words (msg : list Z) : list Z :=
  let ws := words_of_bytes (pad msg) in
  let s := fold_left compress (blocks_of_words (length ws) ws) init in
  [ra s; rb s; rc s; rd s; re s; rf s; rg s; rh s].

(** Lower-case hexadecimal, as [hexdigest()] prints it. *)
Definition hex_digit (x : Z) : ascii :=
  if x <? 10 then ascii_of_N (Z.to_N (48 + x)) else ascii_of_N (Z.to_N (87 + x)).

Definition hex_of_word (w : Z) : string :=
  string_of_list_ascii
    (map (fun i => hex_digit (Z.land (Z.shiftr w (4 * Z.of_nat i)) 15))
         (rev (seq 0 8))).

(** [s.encode("utf-8")] for code points below 256. *)
Definition utf8_of_char (c : ascii) : list Z :=
  let n := Z.of_N (N_of_ascii c) in
  if n <? 128 then [n]
  else [Z.lor 192 (Z.shiftr n 6); Z.lor 128 (Z.land n 63)].

Definition utf8 (s : string) : list Z :=
  flat_map utf8_of_char (list_ascii_of_string s).

(** [hashlib.sha256(s.encode("utf-8")).hexdigest()] *)
Definition sha256_hex (s : string) : string :=
  String.concat "" (map hex_of_word (digest_words (utf8 s))).

End Sha256.

(** ** Python values and [json.dumps] / [json.loads]

    Scope of the model.  A [str] is a Rocq string: code points below 256.
    A finite [float] is identified with the text [float.__repr__] prints
    for it, which is what [json.dumps] writes and what [json.loads] reads
    back to the same float; [float_repr_ok] says that the text is a JSON
    number with a fraction or an exponent.  [PObj s] is any object that
    [json] cannot serialise itself and whose [str()] is [s]; tuples are
    lists.  Dictionary keys are strings or integers. *)

Module Json.
Local Open Scope string_scope.

Inductive pyfloat :=
| FNan
| FInf (negative : bool)
| FFin (repr : string).

Inductive pykey :=
| KStr (s : string)
| KInt (z : Z).

Unset Elimination Schemes.
Inductive pyval :=
| PNone
| PBool (b : bool)
| PInt (z : Z)
| PFloat (f : pyfloat)
| PStr (s : string)
| PList (l : list pyval)
| PDict (d : list (pykey * pyval))
| PObj (str : string).
Set Elimination Schemes.

Definition pykey_eqb (a b : pykey) : bool :=
  match a, b with
  | KStr x, KStr y => String.eqb x y
  | KInt x, KInt y => Z.eqb x y
  | _, _ => false
  end.

Definition is_KStr (k : pykey) : bool :=
  match k with KStr _ => true | KInt _ => false end.

Definition is_KInt (k : pykey) : bool :=
  match k with KStr _ => false | KInt _ => true end.

Definition dquote : ascii := ascii_of_N 34.

(** Reading aid for JSON text in statements: every apostrophe stands for a
    double quote. *)
Fixpoint dq (s : string) : string :=
  match s with
  | "" => ""
  | String c r => String (if Ascii.eqb c "'" then dquote else c) (dq r)
  end.

(** *** Encoder: [json.dumps(v, sort_keys=True, separators=(",", ":"), default=str)] *)

Definition hex_char (n : N) : ascii :=
  if (n <? 10)%N then ascii_of_N (48 + n) else ascii_of_N (87 + n).

(** [py_encode_basestring_ascii], one character. *)
Definition escape_char (c : ascii) : string :=
  let n := N_of_ascii c in
  if (n =? 34)%N then String "\" (String dquote "")
  else if (n =? 92)%N then "\\"
  else if (n =? 10)%N then "\n"
  else if (n =? 13)%N then "\r"
  else if (n =? 9)%N then "\t"
  else if (n =? 8)%N then "\b"
  else if (n =? 12)%N then "\f"
  else if ((32 <=? n) && (n <=? 126))%N then String c ""
  else "\u00" ++ String (hex_char (n / 16)) (String (hex_char (n mod 16)) "").

Fixpoint escape (s : string) : string :=
  match s with
  | "" => ""
  | String c r => escape_char c ++ escape r
  end.

Definition encode_str (s : string) : string :=
  String dquote (escape s ++ String dquote "").

(** [int.__repr__] *)
Definition int_text (z : Z) : string :=
  DecimalString.NilZero.string_of_int (Z.to_int z).

Definition float_text (f : pyfloat) : string :=
  match f with
  | FNan => "NaN"
  | FInf false => "Infinity"
  | FInf true => "-Infinity"
  | FFin r => r
  end.

(** A key is written as the string [str(key)]. *)
Definition key_str (k : pykey) : string :=
  match k with
  | KStr s => s
  | KInt z => int_text z
  end.

(** [sorted(dct.items())]: keys are unique, so items compare by key;
    comparing a [str] with an [int] raises [TypeError] ([None]). *)
Definition key_leb (a b : pykey) : option bool :=
  match a, b with
  | KStr x, KStr y => Some (String.leb x y)
  | KInt x, KInt y => Some (x <=? y)%Z
  | _, _ => None
  end.

Fixpoint insert_item {A} (x : pykey * A) (l : list (pykey * A))
  : option (list (pykey * A)) :=
  match l with
  | [] => Some [x]
  | y :: r =>
      match key_leb (fst x) (fst y) with
      | None => None
      | Some true => Some (x :: l)
      | Some false => option_map (cons y) (insert_item x r)
      end
  end.

Fixpoint sort_items {A} (l : list (pykey * A)) : option (list (pykey * A)) :=
  match l with
  | [] => Some []
  | x :: r =>
      match sort_items r with
      | None => None
      | Some r' => insert_item x r'
      end
  end.

Definition member_text (item : pykey * string) : string :=
  encode_str (key_str (fst item)) ++ ":" ++ snd item.

(** The encoder.  The values of a dictionary are encoded item by item and
    the encoded items are then put in key order. *)
Fixpoint dumps (v : pyval) : option string :=
  match v with
  | PNone => Some "null"
  | PBool true => Some "true"
  | PBool false => Some "false"
  | PInt z => Some (int_text z)
  | PFloat f => Some (float_text f)
  | PStr s => Some (encode_str s)
  | PObj s => Some (encode_str s)
  | PList l =>
      let fix elements (l : list pyval) : option (list string) :=
        match l with
        | [] => Some []
        | x :: r =>
            match dumps x, elements r with
            | Some sx, Some sr => Some (sx :: sr)
            | _, _ => None
            end
        end in
      match elements l with
      | Some parts => Some ("[" ++ String.concat "," parts ++ "]")
      | None => None
      end
  | PDict d =>
      let fix members (d : list (pykey * pyval)) : option (list (pykey * string)) :=
        match d with
        | [] => Some []
        | (k, x) :: r =>
            match dumps x, members r with
            | Some sx, Some sr => Some ((k, sx) :: sr)
            | _, _ => None
            end
        end in
      match members d with
      | Some kvs =>
          match sort_items kvs with
          | Some items =>
              Some ("{" ++ String.concat "," (map member_text items) ++ "}")
          | None => None
          end
      | None => None
      end
  end.

(** The two inner loops of [dumps] under their own names. *)
Fixpoint dumps_elements (l : list pyval) : option (list string) :=
  match l with
  | [] => Some []
  | x :: r =>
      match dumps x, dumps_elements r with
      | Some sx, Some sr => Some (sx :: sr)
      | _, _ => None
      end
  end.

Fixpoint dumps_members (d : list (pykey * pyval)) : option (list (pykey * string)) :=
  match d with
  | [] => Some []
  | (k, x) :: r =>
      match dumps x, dumps_members r with
      | Some sx, Some sr => Some ((k, sx) :: sr)
      | _, _ => None
      end
  end.

(** *** Decoder: [json.loads] *)

Definition is_ws (c : ascii) : bool :=
  let n := N_of_ascii c in
  ((n =? 32) || (n =? 9) || (n =? 10) || (n =? 13))%N.

Fixpoint skip_ws (s : string) : string :=
  match s with
  | "" => ""
  | String c r => if is_ws c then skip_ws r else s
  end.

Definition is_digit (c : ascii) : bool :=
  let n := N_of_ascii c in ((48 <=? n) && (n <=? 57))%N.

Fixpoint span_digits (s : string) : string * string :=
  match s with
  | "" => ("", "")
  | String c r =>
      if is_digit c
      then let (d, t) := span_digits r in (String c d, t)
      else ("", s)
  end.

(** The optional fraction [\.\d+] and exponent [[eE][-+]?\d+] of a number.
    A ['.'] or an exponent mark that is not followed by its digits ends
    the match of the number before it; what is then left can start no
    continuation of a JSON text, so the scan fails at once. *)
Definition scan_fraction (s : string) : option (string * string) :=
  match s with
  | String c r =>
      if Ascii.eqb c "." then
        let (d, t) := span_digits r in
        match d with
        | "" => None
        | _ => Some (String c d, t)
        end
      else Some ("", s)
  | "" => Some ("", s)
  end.

Definition scan_sign (s : string) : string * string :=
  match s with
  | String c r =>
      if Ascii.eqb c "+" || Ascii.eqb c "-" then (String c "", r) else ("", s)
  | "" => ("", s)
  end.

Definition scan_exponent (s : string) : option (string * string) :=
  match s with
  | String c r =>
      if Ascii.eqb c "e" || Ascii.eqb c "E" then
        let (sg, r1) := scan_sign r in
        let (d, t) := span_digits r1 in
        match d with
        | "" => None
        | _ => Some (String c (sg ++ d), t)
        end
      else Some ("", s)
  | "" => Some ("", s)
  end.

Definition scan_minus (s : string) : string * string :=
  match s with
  | String c r => if Ascii.eqb c "-" then (String c "", r) else ("", s)
  | "" => ("", s)
  end.

(** A number at the start of [s]: its sign, integer digits, fraction,
    exponent, and the text after it.  Integer digits with a leading zero
    are refused for the reason given above. *)
Definition scan_number (s : string)
  : option (string * string * string * string * string) :=
  let (sg, s1) := scan_minus s in
  let (ip, s2) := span_digits s1 in
  match ip with
  | "" => None
  | String c ip' =>
      if Ascii.eqb c "0" && negb (String.eqb ip' "") then None
      else
        match scan_fraction s2 with
        | None => None
        | Some (fr, s3) =>
            match scan_exponent s3 with
            | None => None
            | Some (ex, s4) => Some (sg, ip, fr, ex, s4)
            end
        end
  end.

(** [int(digits)] *)
Definition int_of_digits (sg ip : string) : option Z :=
  match DecimalString.NilEmpty.uint_of_string ip with
  | Some d => Some (if String.eqb sg "-" then Z.opp (Z.of_uint d) else Z.of_uint d)
  | None => None
  end.

(** The number as a value: an [int] when it has neither fraction nor
    exponent, a [float] otherwise. *)
Definition parse_number (s : string) : option (pyval * string) :=
  match scan_number s with
  | None => None
  | Some (sg, ip, fr, ex, rest) =>
      if String.eqb fr "" && String.eqb ex ""
      then match int_of_digits sg ip with
           | Some z => Some (PInt z, rest)
           | None => None
           end
      else Some (PFloat (FFin (sg ++ ip ++ fr ++ ex)), rest)
  end.

Definition float_repr_ok (r : string) : bool :=
  match scan_number r with
  | Some (sg, ip, fr, ex, "") =>
      negb (String.eqb fr "" && String.eqb ex "")
      && String.eqb (sg ++ ip ++ fr ++ ex) r
  | _ => false
  end.

Definition hex_value (c : ascii) : option N :=
  let n := N_of_ascii c in
  if ((48 <=? n) && (n <=? 57))%N then Some (n - 48)%N
  else if ((97 <=? n) && (n <=? 102))%N then Some (n - 87)%N
  else if ((65 <=? n) && (n <=? 70))%N then Some (n - 55)%N
  else None.

Definition hex4 (a b c d : ascii) : option N :=
  match hex_value a, hex_value b, hex_value c, hex_value d with
  | Some x, Some y, Some z, Some w => Some (((x * 16 + y) * 16 + z) * 16 + w)%N
  | _, _, _, _ => None
  end.

(** The single-character escapes of [BACKSLASH]. *)
Definition unescape (e : ascii) : option ascii :=
  let n := N_of_ascii e in
  if (n =? 34)%N then Some dquote
  else if (n =? 92)%N then Some "\"%char
  else if (n =? 47)%N then Some "/"%char
  else if (n =? 98)%N then Some (ascii_of_N 8)
  else if (n =? 102)%N then Some (ascii_of_N 12)
  else if (n =? 110)%N then Some (ascii_of_N 10)
  else if (n =? 114)%N then Some (ascii_of_N 13)
  else if (n =? 116)%N then Some (ascii_of_N 9)
  else None.

Definition cons_char (c : ascii) (r : option (string * string))
  : option (string * string) :=
  match r with
  | Some (s, rest) => Some (String c s, rest)
  | None => None
  end.

(** [scanstring] in strict mode, from the character after the opening
    quote.  An escape [\uXXXX] of a code point from 256 on is outside the
    model and refused. *)
Fixpoint scan_string (s : string) : option (string * string) :=
  match s with
  | "" => None
  | String c r =>
      if Ascii.eqb c dquote then Some ("", r)
      else if Ascii.eqb c "\" then
        match r with
        | "" => None
        | String e r1 =>
            if Ascii.eqb e "u" then
              match r1 with
              | String h1 (String h2 (String h3 (String h4 r2))) =>
                  match hex4 h1 h2 h3 h4 with
                  | Some n =>
                      if (n <? 256)%N
                      then cons_char (ascii_of_N n) (scan_string r2)
                      else None
                  | None => None
                  end
              | _ => None
              end
            else
              match unescape e with
              | Some ch => cons_char ch (scan_string r1)
              | None => None
              end
        end
      else if (N_of_ascii c <? 32)%N then None
      else cons_char c (scan_string r)
  end.

(** [s.startswith(p)], with what comes after [p]. *)
Fixpoint starts_with (p s : string) : option string :=
  match p with
  | "" => Some s
  | String a p' =>
      match s with
      | String b s' => if Ascii.eqb a b then starts_with p' s' else None
      | "" => None
      end
  end.

(** [scan_once] and the array and object loops, with a bound on the
    number of nested calls. *)
Fixpoint parse_value (fuel : nat) (s : string) {struct fuel}
  : option (pyval * string) :=
  match fuel with
  | O => None
  | S f =>
      match s with
      | "" => None
      | String c r =>
          if Ascii.eqb c dquote then
            match scan_string r with
            | Some (str, rest) => Some (PStr str, rest)
            | None => None
            end
          else if Ascii.eqb c "{" then
            let r1 := skip_ws r in
            match r1 with
            | String c1 r2 =>
                if Ascii.eqb c1 "}" then Some (PDict [], r2)
                else
                  match parse_members f r1 with
                  | Some (pairs, rest) =>
                      Some (PDict (PyDict.of_pairs pykey_eqb pairs), rest)
                  | None => None
                  end
            | "" => None
            end
          else if Ascii.eqb c "[" then
            let r1 := skip_ws r in
            match r1 with
            | String c1 r2 =>
                if Ascii.eqb c1 "]" then Some (PList [], r2)
                else
                  match parse_elements f r1 with
                  | Some (vs, rest) => Some (PList vs, rest)
                  | None => None
                  end
            | "" => None
            end
          else
            match starts_with "null" s, starts_with "true" s, starts_with "false" s with
            | Some rest, _, _ => Some (PNone, rest)
            | _, Some rest, _ => Some (PBool true, rest)
            | _, _, Some rest => Some (PBool false, rest)
            | None, None, None =>
                match parse_number s with
                | Some res => Some res
                | None =>
                    match starts_with "NaN" s, starts_with "Infinity" s,
                          starts_with "-Infinity" s with
                    | Some rest, _, _ => Some (PFloat FNan, rest)
                    | _, Some rest, _ => Some (PFloat (FInf false), rest)
                    | _, _, Some rest => Some (PFloat (FInf true), rest)
                    | None, None, None => None
                    end
                end
            end
      end
  end

with parse_elements (fuel : nat) (s : string) {struct fuel}
  : option (list pyval * string) :=
  match fuel with
  | O => None
  | S f =>
      match parse_value f s with
      | None => None
      | Some (v, r) =>
          match skip_ws r with
          | String c r1 =>
              if Ascii.eqb c "]" then Some ([v], r1)
              else if Ascii.eqb c "," then
                match parse_elements f (skip_ws r1) with
                | Some (vs, rest) => Some (v :: vs, rest)
                | None => None
                end
              else None
          | "" => None
          end
      end
  end

with parse_members (fuel : nat) (s : string) {struct fuel}
  : option (list (pykey * pyval) * string) :=
  match fuel with
  | O => None
  | S f =>
      match s with
      | String c r =>
          if Ascii.eqb c dquote then
            match scan_string r with
            | None => None
            | Some (k, r1) =>
                match skip_ws r1 with
                | String c2 r2 =>
                    if Ascii.eqb c2 ":" then
                      match parse_value f (skip_ws r2) with
                      | None => None
                      | Some (v, r3) =>
                          match skip_ws r3 with
                          | String c4 r4 =>
                              if Ascii.eqb c4 "}" then Some ([(KStr k, v)], r4)
                              else if Ascii.eqb c4 "," then
                                match parse_members f (skip_ws r4) with
                                | Some (kvs, rest) => Some ((KStr k, v) :: kvs, rest)
                                | None => None
                                end
                              else None
                          | "" => None
                          end
                      end
                    else None
                | "" => None
                end
            end
          else None
      | "" => None
      end
  end.

(** [json.loads(s)]: one value between optional white space, nothing after
    it.  The bound on nested calls is twice the length of the text: of two
    nested calls at least one reads a character. *)
Definition loads (s : string) : option pyval :=
  match parse_value (2 * String.length s + 2) (skip_ws s) with
  | Some (v, rest) =>
      match skip_ws rest with
      | "" => Some v
      | _ => None
      end
  | None => None
  end.

(** Values whose dictionaries have unique keys, all of them strings, and
    whose floats are well formed: the values [json.loads] returns, and
    the metrics the engine emits. *)
Fixpoint str_keyed (v : pyval) : bool :=
  match v with
  | PFloat (FFin r) => float_repr_ok r
  | PList l =>
      (fix all (l : list pyval) : bool :=
         match l with
         | [] => true
         | x :: r => str_keyed x && all r
         end) l
  | PDict d =>
      (fix all (d : list (pykey * pyval)) : bool :=
         match d with
         | [] => true
         | (KStr k, x) :: r =>
             negb (PyDict.mem pykey_eqb r (KStr k)) && str_keyed x && all r
         | (KInt _, _) :: _ => false
         end) d
  | _ => true
  end.

(** Values none of whose dictionaries mixes string keys with integer keys. *)
Fixpoint uniform_keys (v : pyval) : bool :=
  match v with
  | PList l =>
      (fix all (l : list pyval) : bool :=
         match l with
         | [] => true
         | x :: r => uniform_keys x && all r
         end) l
  | PDict d =>
      (forallb is_KStr (PyDict.keys d) || forallb is_KInt (PyDict.keys d))
      && (fix all (d : list (pykey * pyval)) : bool :=
            match d with
            | [] => true
            | (_, x) :: r => uniform_keys x && all r
            end) d
  | _ => true
  end.

End Json.

(** ** The hash chain of epoch records ([app/services/hash_chain.py]) *)

Module HashChain.
Import Json.
Local Open Scope string_scope.

(** ["0" * 64] *)
Definition GENESIS_HASH : string :=
  "0000000000000000000000000000000000000000000000000000000000000000".

(** [canonical_json]; [None] is the exception [json.dumps] raises. *)
Definition canonical_json (data : pyval) : option string := dumps data.

(** [compute_hash]: SHA-256 of [f"{prev_hash}|{canonical_json(metrics)}|{run_seed}"]. *)
Definition compute_hash (prev_hash : string) (metrics : pyval) (run_seed : Z)
  : option string :=
  match canonical_json metrics with
  | Some j =>
      let payload := prev_hash ++ "|" ++ j ++ "|" ++ int_text run_seed in
      Some (Sha256.sha256_hex payload)
  | None => None
  end.

(** An element of a chain: [{"epoch", "hash", "prev_hash", "metrics_json"}]. *)
Record entry := mkEntry {
  epoch : pyval;
  hash : string;
  prev_hash : string;
  metrics_json : string
}.

(** A metrics dictionary. *)
Definition metrics := list (pykey * pyval).

(** One turn of the loop of [build_chain] on the state [(chain, prev_hash)]. *)
Definition build_step (run_seed : Z) (st : option (list entry * string))
           (m : metrics) : option (list entry * string) :=
  match st with
  | None => None
  | Some (chain, prev) =>
      match compute_hash prev (PDict m) run_seed, canonical_json (PDict m) with
      | Some current_hash, Some j =>
          let e := match PyDict.get pykey_eqb m (KStr "epoch") with
                   | Some v => v
                   | None => PInt (Z.of_nat (length chain))
                   end in
          Some ((chain ++ [mkEntry e current_hash prev j])%list, current_hash)
      | _, _ => None
      end
  end.

Definition build_chain (epoch_metrics_list : list metrics) (run_seed : Z)
  : option (list entry) :=
  option_map fst
    (fold_left (build_step run_seed) epoch_metrics_list (Some ([], GENESIS_HASH))).

(** [verify_chain]: [Some (is_valid, first_invalid_epoch)], or [None] when
    [json.loads] or [compute_hash] raises. *)
Fixpoint verify_from (prev : string) (chain : list entry) (run_seed : Z)
  : option (bool * option pyval) :=
  match chain with
  | [] => Some (true, None)
  | e :: rest =>
      match loads (metrics_json e) with
      | None => None
      | Some m =>
          match compute_hash prev m run_seed with
          | None => None
          | Some expected_hash =>
              if negb (String.eqb (hash e) expected_hash)
              then Some (false, Some (epoch e))
              else if negb (String.eqb (prev_hash e) prev)
              then Some (false, Some (epoch e))
              else verify_from (hash e) rest run_seed
          end
      end
  end.

Definition verify_chain (chain : list entry) (run_seed : Z)
  : option (bool * option pyval) :=
  verify_from GENESIS_HASH chain run_seed.

(** [chain[k] = e] *)
Fixpoint set_nth {A} (k : nat) (x : A) (l : list A) : list A :=
  match l, k with
  | [], _ => []
  | _ :: r, O => x :: r
  | y :: r, S k' => y :: set_nth k' x r
  end.

Definition with_hash (e : entry) (h : string) : entry :=
  mkEntry (epoch e) h (prev_hash e) (metrics_json e).
Definition with_prev_hash (e : entry) (p : string) : entry :=
  mkEntry (epoch e) (hash e) p (metrics_json e).
Definition with_metrics_json (e : entry) (j : string) : entry :=
  mkEntry (epoch e) (hash e) (prev_hash e) j.

End HashChain.

(** ** Protocol extras and the epoch loop ([simulation/protocols.py],
       [simulation/engine.py]) *)

Module Engine.
Import Json.
Local Open Scope string_scope.

(** The fields of [SimulationConfig] the loop itself reads; the other
    fields only reach the collaborators. *)
Record SimulationConfig := mkSimulationConfig {
  seed : Z;
  num_epochs : Z;
  episodes_per_epoch : Z;
  protocol : Z
}.

Inductive Protocol := Protocol0 | Protocol1.

(** [create_protocol]: [ValueError] ([None]) on an id outside the registry. *)
Definition create_protocol (protocol_id : Z) : option Protocol :=
  if (protocol_id =? 0)%Z then Some Protocol0
  else if (protocol_id =? 1)%Z then Some Protocol1
  else None.

(** [compute_epoch_extras]: nothing for protocol 0, the inquiry metrics
    under the key ["inquiry"] for protocol 1. *)
Definition compute_epoch_extras (p : Protocol) (inquiry : pyval)
  : list (pykey * pyval) :=
  match p with
  | Protocol0 => []
  | Protocol1 => [(KStr "inquiry", inquiry)]
  end.

(** What the episodes, the training update and the analyzers of one epoch
    yield.  The communication buffer is reset before [comm_killed] is read,
    so that field is always [False]. *)
Record EpochResult := mkEpochResult {
  avg_reward : pyval;
  survival_rate : pyval;
  target_reached_rate : pyval;
  avg_steps : pyval;
  avg_energy_spent : pyval;
  losses : pyval;
  entropy : pyval;
  mutual_information : pyval;
  transfer_entropy : pyval;
  zipf : pyval;
  energy_roi : pyval;
  trajectory : pyval;
  tau : pyval;
  inquiry : pyval
}.

(** The metrics dictionary [_run_epoch] returns; [now] is [time.time()]. *)
Definition epoch_metrics (p : Protocol) (epoch : Z) (r : EpochResult)
           (now : pyfloat) : list (pykey * pyval) :=
  let metrics :=
    [ (KStr "epoch", PInt epoch);
      (KStr "avg_reward", avg_reward r);
      (KStr "survival_rate", survival_rate r);
      (KStr "target_reached_rate", target_reached_rate r);
      (KStr "avg_steps", avg_steps r);
      (KStr "avg_energy_spent", avg_energy_spent r);
      (KStr "losses", losses r);
      (KStr "entropy", entropy r);
      (KStr "mutual_information", mutual_information r);
      (KStr "transfer_entropy", transfer_entropy r);
      (KStr "zipf", zipf r);
      (KStr "energy_roi", energy_roi r);
      (KStr "comm_killed", PBool false);
      (KStr "timestamp", PFloat now);
      (KStr "trajectory", trajectory r);
      (KStr "tau", tau r) ] in
  PyDict.update pykey_eqb metrics (compute_epoch_extras p (inquiry r)).

Section Run.
(** The pluggable collaborators.  [State] is everything an epoch mutates:
    learners, optimisers, environment, random generators, communication
    buffer.  [simulate_epoch] is deterministic: a function of the
    configuration, the epoch index and that state. *)
Variable State : Type.
Variable simulate_epoch : SimulationConfig -> Z -> State -> EpochResult * State.

(** The epoch callback, with the state it keeps. *)
Variable CallbackState : Type.
Variable epoch_callback : CallbackState -> list (pykey * pyval) -> option CallbackState.

(** [_run_epoch] *)
Definition _run_epoch (cfg : SimulationConfig) (p : Protocol) (epoch : Z)
           (st : State) (now : pyfloat) : list (pykey * pyval) * State :=
  let (r, st') := simulate_epoch cfg epoch st in
  (epoch_metrics p epoch r now, st').

(** The loop of [run] over [range(num_epochs)], with no pause or stop
    request; [clock k] is the reading of [time.time()] in the [k]-th
    epoch run, and [None] an exception raised by the callback. *)
Fixpoint run_epochs (cfg : SimulationConfig) (p : Protocol) (clock : nat -> pyfloat)
         (epochs : list nat) (st : State) (cb : CallbackState)
  : option (State * CallbackState) :=
  match epochs with
  | [] => Some (st, cb)
  | k :: rest =>
      let (metrics, st') := _run_epoch cfg p (Z.of_nat k) st (clock k) in
      match epoch_callback cb metrics with
      | Some cb' => run_epochs cfg p clock rest st' cb'
      | None => None
      end
  end.

Definition run (cfg : SimulationConfig) (clock : nat -> pyfloat)
           (st : State) (cb : CallbackState) : option (State * CallbackState) :=
  match create_protocol (protocol cfg) with
  | Some p => run_epochs cfg p clock (seq 0 (Z.to_nat (num_epochs cfg))) st cb
  | None => None
  end.
End Run.
End Engine.

(** ** The run manager's epoch callback ([app/services/run_manager.py]) *)

Module RunManager.
Import Json.
Local Open Scope string_scope.

(** A row of the epoch log. *)
Record EpochLog := mkEpochLog {
  log_run_id : Z;
  log_epoch : Z;
  log_metrics_json : string;
  log_hash : string;
  log_prev_hash : string
}.

(** What the callback reads and writes: the [nonlocal prev_hash], the rows
    added to the database, the fields of the [Run] row, the queue. *)
Record CallbackState := mkCallbackState {
  prev_hash : string;
  epoch_logs : list EpochLog;
  current_epoch : Z;
  final_hash : option string;
  queue : DeliveryQueue.Queue (list (pykey * pyval))
}.

Definition initial (q : DeliveryQueue.Queue (list (pykey * pyval))) : CallbackState :=
  mkCallbackState HashChain.GENESIS_HASH [] 0 None q.

Section Callback.
(** [compute_energy_roi], a quotient of floats. *)
Variable compute_energy_roi : pyval -> pyval -> pyval.

Definition get_default (m : list (pykey * pyval)) (k : string) (d : pyval) : pyval :=
  match PyDict.get pykey_eqb m (KStr k) with
  | Some v => v
  | None => d
  end.

(** The metrics after the first three statements of the callback. *)
Definition completed_metrics (metrics : list (pykey * pyval)) : list (pykey * pyval) :=
  let roi := compute_energy_roi
               (get_default metrics "target_reached_rate" (PFloat (FFin "0.0")))
               (get_default metrics "avg_energy_spent" (PFloat (FFin "0.0"))) in
  let m1 := PyDict.set pykey_eqb metrics (KStr "energy_roi") roi in
  let m2 := PyDict.setdefault pykey_eqb m1 (KStr "transfer_entropy") (PDict []) in
  PyDict.setdefault pykey_eqb m2 (KStr "zipf") (PDict []).

(** [epoch_callback]; [None] is an exception: no integer under ["epoch"],
    a metrics dictionary [json.dumps] refuses. *)
Definition epoch_callback (run_id : Z) (run_seed : Z) (st : CallbackState)
           (metrics : list (pykey * pyval)) : option CallbackState :=
  let m := completed_metrics metrics in
  match HashChain.compute_hash (prev_hash st) (PDict m) run_seed,
        HashChain.canonical_json (PDict m),
        PyDict.get pykey_eqb m (KStr "epoch") with
  | Some current_hash, Some text, Some (PInt e) =>
      match DeliveryQueue.push (queue st) m with
      | Some q' =>
          Some (mkCallbackState current_hash
                  (epoch_logs st ++ [mkEpochLog run_id e text current_hash (prev_hash st)])
                  (e + 1) (Some current_hash) q')
      | None => None
      end
  | _, _, _ => None
  end.
End Callback.

(** [compute_energy_roi] on an epoch that spent no energy returns [0.0]. *)
Definition roi_zero (target_reached_rate avg_energy_spent : pyval) : pyval :=
  PFloat (FFin "0.0").

End RunManager.
(** ** The verification endpoint ([app/api/runs.py]) *)

Module Runs.
Import Json.
Local Open Scope string_scope.

(** What the endpoint reads from the database: the [Run] rows (id and
    seed) and the table of epoch logs. *)
Record Db := mkDb {
  runs : list (Z * Z);
  epoch_logs : list RunManager.EpochLog
}.

(** [.order_by(EpochLog.epoch)]: ascending by epoch.  Rows with the same
    epoch keep their table order here; SQL leaves their order open. *)
Fixpoint insert_by_epoch (l : RunManager.EpochLog) (sorted : list RunManager.EpochLog)
  : list RunManager.EpochLog :=
  match sorted with
  | [] => [l]
  | x :: r =>
      if (RunManager.log_epoch l <=? RunManager.log_epoch x)%Z
      then l :: x :: r
      else x :: insert_by_epoch l r
  end.

Definition order_by_epoch (logs : list RunManager.EpochLog) : list RunManager.EpochLog :=
  fold_right insert_by_epoch [] logs.

(** [db.query(EpochLog).filter(EpochLog.run_id == run_id).order_by(EpochLog.epoch).all()] *)
Definition logs_of_run (db : Db) (run_id : Z) : list RunManager.EpochLog :=
  order_by_epoch
    (filter (fun l => (RunManager.log_run_id l =? run_id)%Z) (epoch_logs db)).

(** The list comprehension of [get_hash_chain] and [verify_hash_chain]. *)
Definition chain_of_logs (logs : list RunManager.EpochLog) : list HashChain.entry :=
  map (fun log =>
         HashChain.mkEntry (PInt (RunManager.log_epoch log)) (RunManager.log_hash log)
           (RunManager.log_prev_hash log) (RunManager.log_metrics_json log))
      logs.

Record HashChainVerifyResponse := mkResponse {
  valid : bool;
  total_epochs : Z;
  first_invalid_epoch : option pyval;
  message : string
}.

(** The three ways the endpoint ends: HTTP 404, an exception out of
    [verify_chain], a response. *)
Inductive outcome :=
| NotFound
| Raised
| Returned (r : HashChainVerifyResponse).

(** [f"Chain broken at epoch {first_invalid}"]; the epochs of the chain are
    the integers of the log rows. *)
Definition broken_message (first_invalid : option pyval) : string :=
  "Chain broken at epoch "
  ++ match first_invalid with
     | Some (PInt e) => int_text e
     | _ => "None"
     end.

Definition verify_hash_chain (db : Db) (run_id : Z) : outcome :=
  match PyDict.get Z.eqb (runs db) run_id with
  | None => NotFound
  | Some seed =>
      let chain := chain_of_logs (logs_of_run db run_id) in
      match HashChain.verify_chain chain seed with
      | None => Raised
      | Some (is_valid, first_invalid) =>
          Returned (mkResponse is_valid (Z.of_nat (length chain)) first_invalid
                      (if is_valid then "Chain is valid"
                       else broken_message first_invalid))
      end
  end.

End Runs.

(** ** The crystallization detectors ([simulation/engine.py],
       [app/api/control.py], [app/api/loom.py]) *)

Module Manifest.
Local Open Scope string_scope.

(** The values the detectors meet in an epoch dictionary: [None], a number
    (an int or a float, by its exact value), a dictionary. *)
Unset Elimination Schemes.
Inductive mval :=
| MNone
| MNum (q : Q)
| MDict (d : list (string * mval)).
Set Elimination Schemes.

Definition epoch_dict := list (string * mval).

(** The float [0.95]: the double nearest to 95/100. *)
Definition threshold : Q := 4278419646001971 # 4503599627370496.

(** [te is not None and te < 0.95]; [None] is the [TypeError] of comparing
    a dictionary with a float. *)
Definition below_threshold (te : mval) : option bool :=
  match te with
  | MNone => Some false
  | MNum q => Some (negb (Qle_bool threshold q))
  | MDict _ => None
  end.

(** [d.get(k, default)] *)
Definition get_or (d : epoch_dict) (k : string) (default : mval) : mval :=
  match PyDict.get String.eqb d k with
  | Some v => v
  | None => default
  end.

(** The loop of [_find_crystallization_epoch] on the state
    [(streak_start, streak_count)].  [None] is an exception: the
    [TypeError] above, or the [KeyError] of [m['epoch']]. *)
Fixpoint streak_loop (epochs : list epoch_dict) (streak_start : mval)
         (streak_count : nat) : option mval :=
  match epochs with
  | [] => Some MNone
  | m :: rest =>
      match get_or m "inquiry" (MDict []) with
      | MDict inq =>
          match below_threshold (get_or inq "type_entropy" MNone) with
          | None => None
          | Some true =>
              match (if (streak_count =? 0)%nat
                     then PyDict.get String.eqb m "epoch"
                     else Some streak_start) with
              | None => None
              | Some start =>
                  if (5 <=? S streak_count)%nat then Some start
                  else streak_loop rest start (S streak_count)
              end
          | Some false => streak_loop rest MNone 0
          end
      | _ => streak_loop rest MNone 0
      end
  end.

(** [SimulationEngine._find_crystallization_epoch]; returning [None] is
    [Some MNone]. *)
Definition _find_crystallization_epoch (protocol : Z) (epochs : list epoch_dict)
  : option mval :=
  if negb (protocol =? 1)%Z then Some MNone
  else streak_loop epochs MNone 0.

End Manifest.

Module Control.
Import Manifest.
Local Open Scope string_scope.

(** [_sf]: [float(v)], [None] for [None] and for what [float] refuses. *)
Definition _sf (v : mval) : mval :=
  match v with
  | MNum q => MNum q
  | _ => MNone
  end.

(** [v or {}], as the receiver of a [.get]: [None] is the
    [AttributeError] of calling [.get] on a number other than zero. *)
Definition or_empty (v : mval) : option epoch_dict :=
  match v with
  | MNone => Some []
  | MNum q => if Qeq_bool q 0 then Some [] else None
  | MDict d => Some d
  end.

(** [int(v)]: truncation towards zero; [TypeError] on [None] and on a
    dictionary. *)
Definition int (v : mval) : option Z :=
  match v with
  | MNum q => Some (if Qle_bool 0 q then Qround.Qfloor q else Qround.Qceiling q)
  | _ => None
  end.

(** [_make_loom_epoch] *)
Definition _make_loom_epoch (m : epoch_dict) (protocol : Z) : option epoch_dict :=
  match or_empty (get_or m "inquiry" MNone) with
  | None => None
  | Some inq =>
      let td := or_empty (get_or inq "type_distribution" MNone) in
      match int (get_or m "epoch" (MNum 0)),
            (if (protocol =? 1)%Z then td else Some []) with
      | Some e, Some td =>
          let p1 (v : mval) := if (protocol =? 1)%Z then _sf v else MNone in
          Some [ ("epoch", MNum (inject_Z e));
                 ("type_entropy", p1 (get_or inq "type_entropy" MNone));
                 ("D", p1 (get_or td "DECLARE" MNone));
                 ("Q", p1 (get_or td "QUERY" MNone));
                 ("R", p1 (get_or td "RESPOND" MNone));
                 ("qrc", p1 (get_or inq "query_response_coupling" MNone));
                 ("inquiry_roi", p1 (get_or inq "inquiry_roi" MNone));
                 ("survival_rate", _sf (get_or m "survival_rate" MNone));
                 ("energy_roi", _sf (get_or m "energy_roi" MNone));
                 ("signal_pca", MNone) ]
      | _, _ => None
      end
  end.

(** The loop of [_detect_crystallization]. *)
Fixpoint detect_loop (epochs : list epoch_dict) (streak_start : mval) (count : nat)
  : option mval :=
  match epochs with
  | [] => Some MNone
  | ep :: rest =>
      match below_threshold (get_or ep "type_entropy" MNone) with
      | None => None
      | Some true =>
          match (if (count =? 0)%nat
                 then PyDict.get String.eqb ep "epoch"
                 else Some streak_start) with
          | None => None
          | Some start =>
              if (5 <=? S count)%nat then Some start
              else detect_loop rest start (S count)
          end
      | Some false => detect_loop rest MNone 0
      end
  end.

Definition _detect_crystallization (epochs : list epoch_dict) : option mval :=
  detect_loop epochs MNone 0.

(** The [live_epochs] list after the callbacks of the epochs of a run. *)
Fixpoint live_epochs (ms : list epoch_dict) (protocol : Z) : option (list epoch_dict) :=
  match ms with
  | [] => Some []
  | m :: rest =>
      match _make_loom_epoch m protocol, live_epochs rest protocol with
      | Some ep, Some eps => Some (ep :: eps)
      | _, _ => None
      end
  end.

End Control.

Module Loom.
Import Manifest.
Local Open Scope string_scope.

(** The copy of the detector in [app/api/loom.py]. *)
Fixpoint streak_loop (epochs : list epoch_dict) (streak_start : mval)
         (streak_count : nat) : option mval :=
  match epochs with
  | [] => Some MNone
  | ep :: rest =>
      match below_threshold (get_or ep "type_entropy" MNone) with
      | None => None
      | Some true =>
          match (if (streak_count =? 0)%nat
                 then PyDict.get String.eqb ep "epoch"
                 else Some streak_start) with
          | None => None
          | Some start =>
              if (5 <=? S streak_count)%nat then Some start
              else streak_loop rest start (S streak_count)
          end
      | Some false => streak_loop rest MNone 0
      end
  end.

Definition _find_crystallization_epoch (epochs : list epoch_dict) : option mval :=
  streak_loop epochs MNone 0.

(** One element of [epochs] in [get_loom_data], from a log row's epoch and
    decoded metrics. *)
Definition loom_epoch (log_epoch : Z) (m : epoch_dict) : option epoch_dict :=
  match Control.or_empty (get_or m "inquiry" MNone) with
  | None => None
  | Some inq =>
      match Control.or_empty (get_or inq "type_distribution" MNone) with
      | None => None
      | Some td =>
          Some [ ("epoch", MNum (inject_Z log_epoch));
                 ("type_entropy", get_or inq "type_entropy" MNone);
                 ("D", get_or td "DECLARE" MNone);
                 ("Q", get_or td "QUERY" MNone);
                 ("R", get_or td "RESPOND" MNone);
                 ("qrc", get_or inq "query_response_coupling" MNone);
                 ("inquiry_roi", get_or inq "inquiry_roi" MNone);
                 ("survival_rate", get_or m "survival_rate" MNone);
                 ("energy_roi", get_or m "energy_roi" MNone);
                 ("signal_pca", get_or m "signal_pca" MNone) ]
      end
  end.

(** The [epochs] list of [get_loom_data] for the rows of a run. *)
Fixpoint loom_epochs (rows : list (Z * epoch_dict)) : option (list epoch_dict) :=
  match rows with
  | [] => Some []
  | (e, m) :: rest =>
      match loom_epoch e m, loom_epochs rest with
      | Some ep, Some eps => Some (ep :: eps)
      | _, _ => None
      end
  end.

End Loom.

(** ** Energy ROI ([simulation/metrics/energy_roi.py]) *)

Module EnergyRoi.
Local Open Scope string_scope.
Local Open Scope R_scope.

(** [compute_energy_roi] *)
Definition compute_energy_roi (target_reached_rate avg_energy_spent : R) : R :=
  if Rle_dec avg_energy_spent 0 then 0
  else target_reached_rate / avg_energy_spent.

(** [m.get(k, 0.0)] on an epoch dictionary, for the float-valued keys. *)
Definition get_float (m : list (string * R)) (k : string) : R :=
  match PyDict.get String.eqb m k with
  | Some v => v
  | None => 0
  end.

(** The loop of [compute_cumulative_roi] on the state
    [(cumulative_success, cumulative_energy, rois)]. *)
Fixpoint cumulative_loop (epoch_metrics : list (list (string * R)))
         (cumulative_success cumulative_energy : R) (rois : list R) : list R :=
  match epoch_metrics with
  | [] => rois
  | m :: rest =>
      let cumulative_success := cumulative_success + get_float m "target_reached_rate" in
      let cumulative_energy := cumulative_energy + get_float m "avg_energy_spent" in
      cumulative_loop rest cumulative_success cumulative_energy
        (rois ++ [if Rlt_dec 0 cumulative_energy
                  then cumulative_success / cumulative_energy
                  else 0])%list
  end.

Definition compute_cumulative_roi (epoch_metrics : list (list (string * R))) : list R :=
  cumulative_loop epoch_metrics 0 0 [].

End EnergyRoi.

(** ** Discounted returns ([simulation/training/reinforce.py]) *)

Module Reinforce.
Local Open Scope R_scope.

(** The loop of [compute_reinforce_loss] that computes the returns:
<<
    for r in reversed(agent.rewards):
        G = r + gamma * G
        returns.insert(0, G)
>>
    The normalisation and the loss that follow are tensor operations
    outside the model. *)
Fixpoint returns_loop (reversed_rewards : list R) (gamma G : R) (returns : list R)
  : list R :=
  match reversed_rewards with
  | [] => returns
  | r :: rest =>
      let G := r + gamma * G in
      returns_loop rest gamma G (G :: returns)
  end.

Definition discounted_returns (rewards : list R) (gamma : R) : list R :=
  returns_loop (rev rewards) gamma 0 [].

End Reinforce.

(** ** Type counts of the inquiry metrics
       ([simulation/metrics/inquiry_metrics.py]) *)

Module InquiryCounts.
Import InquiryMetrics.
Local Open Scope string_scope.

Definition agents : list string := ["A"; "B"; "C"].

(** [type_counts]: agent -> signal type -> count. *)
Definition counts := list (string * list (Z * Z)).

(** [{a: {DECLARATIVE: 0, INTERROGATIVE: 0, RESPONSE: 0} for a in agents}] *)
Definition zero_counts : counts :=
  map (fun a => (a, [(DECLARATIVE, 0); (INTERROGATIVE, 0); (RESPONSE, 0)])) agents.

(** One turn of the inner loop:
<<
    if agent in type_counts and stype in type_counts[agent]:
        type_counts[agent][stype] += 1
>> *)
Definition count_item (type_counts : counts) (item : string * Z) : counts :=
  let (agent, stype) := item in
  match PyDict.get String.eqb type_counts agent with
  | Some c =>
      match PyDict.get Z.eqb c stype with
      | Some n =>
          PyDict.set String.eqb type_counts agent (PyDict.set Z.eqb c stype (n + 1))
      | None => type_counts
      end
  | None => type_counts
  end.

Definition count_types (type_history : list step) : counts :=
  fold_left (fun tc (s : step) => fold_left count_item s tc) type_history zero_counts.

(** [sum(c[ty] for c in type_counts.values())]; a missing key would raise. *)
Fixpoint sum_type (type_counts : counts) (ty : Z) : option Z :=
  match type_counts with
  | [] => Some 0
  | (_, c) :: rest =>
      match PyDict.get Z.eqb c ty, sum_type rest ty with
      | Some n, Some s => Some (n + s)
      | _, _ => None
      end
  end.

(** [query_count] and [response_count] of the returned dictionary, and the
    [total] the fractions are taken of; [None] for a raised exception. *)
Definition query_count (type_history : list step) : option Z :=
  sum_type (count_types type_history) INTERROGATIVE.

Definition response_count (type_history : list step) : option Z :=
  sum_type (count_types type_history) RESPONSE.

(** [total = max(sum(sum(c.values()) for c in type_counts.values()), 1)] *)
Definition total (type_history : list step) : Z :=
  Z.max (fold_right (fun (kc : string * list (Z * Z)) acc =>
                       fold_right Z.add 0 (PyDict.values (snd kc)) + acc)
                    0 (count_types type_history))
        1.

(** [declare_frac], [query_frac], [response_frac], before rounding. *)
Definition type_frac (type_history : list step) (ty : Z) : option Q :=
  match sum_type (count_types type_history) ty with
  | Some n => Some (n # Z.to_pos (total type_history))%Q
  | None => None
  end.

End InquiryCounts.

(** ** The grid world ([simulation/environment.py]): [Environment.step] *)

Module Environment.
Local Open Scope string_scope.
Local Open Scope Z_scope.

Record EnvironmentConfig := mkEnvironmentConfig {
  grid_size : Z;
  num_obstacles : Z;
  z_layers : Z;
  max_steps : Z;
  energy_budget : R;
  move_cost : R;
  collision_penalty : R
}.

(** A cell of the grid, [np.array([x, y])]. *)
Definition pos := (Z * Z)%type.

Record Environment := mkEnvironment {
  config : EnvironmentConfig;
  step_count : Z;
  agents_pos : list (string * pos);
  target_pos : pos;
  obstacles : list pos;
  energy : list (string * R)
}.

(** [deltas.get(action, (0, 0))] *)
Definition deltas (action : Z) : pos :=
  if action =? 0 then (-1, 0)
  else if action =? 1 then (1, 0)
  else if action =? 2 then (0, -1)
  else if action =? 3 then (0, 1)
  else (0, 0).

(** [np.clip(x, lo, hi)], which is [minimum(maximum(x, lo), hi)]. *)
Definition clip (x lo hi : Z) : Z := Z.min (Z.max x lo) hi.

(** [np.array_equal(p, q)] *)
Definition pos_eqb (p q : pos) : bool := (fst p =? fst q) && (snd p =? snd q).

(** [np.linalg.norm(p - q)] *)
Definition distance (p q : pos) : R :=
  sqrt (IZR (fst p - fst q) * IZR (fst p - fst q)
        + IZR (snd p - snd q) * IZR (snd p - snd q)).

(** The distance-based reward of a cell: [1.0 - dist / max_dist], plus
    [10.0] on the target. *)
Definition cell_reward (cfg : EnvironmentConfig) (target p : pos) : R :=
  let r := (1 - distance p target / (IZR (grid_size cfg) * sqrt 2))%R in
  if pos_eqb p target then (r + 10)%R else r.

(** What the loop over [actions.items()] reads and writes. *)
Record moves := mkMoves {
  m_pos : list (string * pos);
  m_energy : list (string * R);
  m_rewards : list (string * R);
  m_collisions : list (string * bool);
  m_reached : list (string * bool)
}.

(** The cell an agent at [old_pos] tries to enter. *)
Definition attempted (cfg : EnvironmentConfig) (old_pos : pos) (action : Z) : pos :=
  let (dx, dy) := deltas action in
  (clip (fst old_pos + dx) 0 (grid_size cfg - 1),
   clip (snd old_pos + dy) 0 (grid_size cfg - 1)).

(** [any(np.array_equal(new_pos, o) for o in self.obstacles)] *)
Definition hit_obstacle (obstacles : list pos) (new_pos : pos) : bool :=
  existsb (pos_eqb new_pos) obstacles.

(** One turn of the loop; [None] is the [KeyError] of an agent without a
    position or without energy. *)
Definition move (cfg : EnvironmentConfig) (target : pos) (obstacles : list pos)
           (st : option moves) (item : string * Z) : option moves :=
  match st with
  | None => None
  | Some st =>
      let (name, action) := item in
      match PyDict.get String.eqb (m_pos st) name,
            PyDict.get String.eqb (m_energy st) name with
      | Some old_pos, Some e =>
          let new_pos := attempted cfg old_pos action in
          let hit := hit_obstacle obstacles new_pos in
          let e' := if hit then (e - collision_penalty cfg)%R
                    else (e - move_cost cfg)%R in
          let new_pos := if hit then old_pos else new_pos in
          Some (mkMoves
                  (PyDict.set String.eqb (m_pos st) name new_pos)
                  (PyDict.set String.eqb (m_energy st) name e')
                  (PyDict.set String.eqb (m_rewards st) name
                     (cell_reward cfg target new_pos))
                  (if hit then PyDict.set String.eqb (m_collisions st) name true
                   else m_collisions st)
                  (PyDict.set String.eqb (m_reached st) name (pos_eqb new_pos target)))
      | _, _ => None
      end
  end.

(** Whether [grid[p[0], p[1]]] is inside a [grid_size x grid_size] array
    (negative indices count from the end). *)
Definition index_ok (cfg : EnvironmentConfig) (p : pos) : bool :=
  (- grid_size cfg <=? fst p) && (fst p <? grid_size cfg)
  && (- grid_size cfg <=? snd p) && (snd p <? grid_size cfg).

Definition is_agent (name : string) : bool :=
  String.eqb name "A" || String.eqb name "B" || String.eqb name "C".

(** Whether [_update_grid] and [_get_observations] raise nothing: every
    position indexes the grid, every agent has one of the three names, and
    the three agents have a position. *)
Definition observable (cfg : EnvironmentConfig) (target : pos) (obstacles : list pos)
           (agents_pos : list (string * pos)) : bool :=
  forallb (index_ok cfg) obstacles
  && index_ok cfg target
  && forallb (fun np : string * pos => is_agent (fst np) && index_ok cfg (snd np))
             agents_pos
  && PyDict.mem String.eqb agents_pos "A"
  && PyDict.mem String.eqb agents_pos "B"
  && PyDict.mem String.eqb agents_pos "C".

Record Info := mkInfo {
  collisions : list (string * bool);
  reached_target : list (string * bool);
  info_energy : list (string * R);
  info_step : Z;
  done_reason : string
}.

(** [step]: the new state, the rewards, [done] and [info]; the
    observations, tensors computed from the new state, are left out. *)
Definition step (env : Environment) (actions : list (string * Z))
  : option (Environment * (list (string * R) * bool * Info)) :=
  let cfg := config env in
  let step_count := step_count env + 1 in
  match fold_left (move cfg (target_pos env) (obstacles env)) actions
          (Some (mkMoves (agents_pos env) (energy env) [] [] [])) with
  | None => None
  | Some st =>
      if observable cfg (target_pos env) (obstacles env) (m_pos st) then
        let any_reached := existsb (fun b : bool => b) (PyDict.values (m_reached st)) in
        let all_dead :=
          forallb (fun e => if Rle_dec e 0 then true else false)
                  (PyDict.values (m_energy st)) in
        let timeout := max_steps cfg <=? step_count in
        let done := any_reached || all_dead || timeout in
        let reason :=
          if any_reached then "target_reached"
          else if all_dead then "energy_depleted"
          else if timeout then "timeout"
          else "running" in
        Some (mkEnvironment cfg step_count (m_pos st) (target_pos env) (obstacles env)
                (m_energy st),
              (m_rewards st, done,
               mkInfo (m_collisions st) (m_reached st) (m_energy st) step_count reason))
      else None
  end.

(** [total_energy_spent] *)
Definition total_energy_spent (env : Environment) : R :=
  fold_right (fun e acc => (energy_budget (config env) - e + acc)%R) 0%R
             (PyDict.values (energy env)).

End Environment.

(** ** Pause, resume and stop ([simulation/engine.py],
       [app/services/run_manager.py]) *)

Module EngineControl.

(** The two flags of a [SimulationEngine]. *)
Record flags := mkFlags { _paused : bool; _stopped : bool }.

(** [__init__]: [self._paused = False], [self._stopped = False]. *)
Definition new : flags := mkFlags false false.

Definition pause (f : flags) : flags := mkFlags true (_stopped f).
Definition resume (f : flags) : flags := mkFlags false (_stopped f).
Definition stop (f : flags) : flags := mkFlags false true.

(** The property [is_running]. *)
Definition is_running (f : flags) : bool := negb (_stopped f) && negb (_paused f).

End EngineControl.

Module RunControl.

(** [RunManager._engines], each engine by its flags. *)
Definition engines := list (Z * EngineControl.flags).

(** [stop_run], [pause_run], [resume_run]: the registry afterwards and the
    returned boolean. *)
Definition stop_run (es : engines) (run_id : Z) : engines * bool :=
  match PyDict.get Z.eqb es run_id with
  | Some engine => (PyDict.set Z.eqb es run_id (EngineControl.stop engine), true)
  | None => (es, false)
  end.

Definition pause_run (es : engines) (run_id : Z) : engines * bool :=
  match PyDict.get Z.eqb es run_id with
  | Some engine => (PyDict.set Z.eqb es run_id (EngineControl.pause engine), true)
  | None => (es, false)
  end.

Definition resume_run (es : engines) (run_id : Z) : engines * bool :=
  match PyDict.get Z.eqb es run_id with
  | Some engine => (PyDict.set Z.eqb es run_id (EngineControl.resume engine), true)
  | None => (es, false)
  end.

(** The control requests a client can make. *)
Inductive request :=
| StopRun (run_id : Z)
| PauseRun (run_id : Z)
| ResumeRun (run_id : Z).

Definition handle (es : engines) (r : request) : engines * bool :=
  match r with
  | StopRun i => stop_run es i
  | PauseRun i => pause_run es i
  | ResumeRun i => resume_run es i
  end.

(** A sequence of requests: the registry afterwards and the replies. *)
Fixpoint handle_all (es : engines) (rs : list request) : engines * list bool :=
  match rs with
  | [] => (es, [])
  | r :: rest =>
      let (es1, reply) := handle es r in
      let (es2, replies) := handle_all es1 rest in
      (es2, reply :: replies)
  end.

End RunControl.


(** ** Auxiliary definitions for the statements of Part II *)

Module ChainSpec.
Import Json HashChain.
Local Open Scope string_scope.

(** [metrics.get("epoch", len(chain))] *)
Definition epoch_of (chain_len : nat) (m : metrics) : pyval :=
  match PyDict.get pykey_eqb m (KStr "epoch") with
  | Some v => v
  | None => PInt (Z.of_nat chain_len)
  end.

(** The entries [build_chain] appends, from a chain of [n] entries whose
    last hash is [prev]. *)
Fixpoint entries_from (n : nat) (prev : string) (ms : list metrics) (seed : Z)
  : option (list entry) :=
  match ms with
  | [] => Some []
  | m :: r =>
      match canonical_json (PDict m) with
      | Some j =>
          let h := Sha256.sha256_hex (prev ++ "|" ++ j ++ "|" ++ int_text seed) in
          option_map (cons (mkEntry (epoch_of n m) h prev j))
                     (entries_from (S n) h r seed)
      | None => None
      end
  end.

(** The metrics dictionaries of the ledger: unique string keys at every
    level, well-formed floats. *)
Definition ledger_metrics (m : metrics) : Prop := str_keyed (PDict m) = true.

(** The ways of altering one stored entry that [verify_chain] reports: a
    different hash, a different previous hash, or a metrics text that
    decodes to metrics whose hash is not the stored one. *)
Inductive tampered (seed : Z) (e : entry) : entry -> Prop :=
| tampered_hash (h : string) :
    h <> hash e -> tampered seed e (with_hash e h)
| tampered_prev_hash (p : string) :
    p <> prev_hash e -> tampered seed e (with_prev_hash e p)
| tampered_metrics (j : string) (m : pyval) (h : string) :
    loads j = Some m ->
    compute_hash (prev_hash e) m seed = Some h ->
    h <> hash e ->
    tampered seed e (with_metrics_json e j).

End ChainSpec.

Module RunSpec.
Import Json.
Local Open Scope string_scope.

(** The epoch log of a whole run through the run manager's callback, from
    the genesis state with the queue of [start_run]. *)
Definition run_records (State : Type)
           (simulate_epoch : Engine.SimulationConfig -> Z -> State
                             -> Engine.EpochResult * State)
           (compute_energy_roi : pyval -> pyval -> pyval)
           (cfg : Engine.SimulationConfig) (run_id : Z)
           (clock : nat -> pyfloat) (st : State)
  : option (list RunManager.EpochLog) :=
  match Engine.run State simulate_epoch RunManager.CallbackState
          (RunManager.epoch_callback compute_energy_roi run_id (Engine.seed cfg))
          cfg clock st
          (RunManager.initial (DeliveryQueue.new DeliveryQueue.run_manager_maxsize)) with
  | Some (_, cb) => Some (RunManager.epoch_logs cb)
  | None => None
  end.

(** Two metrics dictionaries that differ at most in the float stored under
    ["timestamp"]. *)
Definition same_but_timestamp (m1 m2 : list (pykey * pyval)) : Prop :=
  Forall2 (fun kv1 kv2 =>
             fst kv1 = fst kv2
             /\ (snd kv1 = snd kv2
                 \/ fst kv1 = KStr "timestamp"
                    /\ exists f1 f2, snd kv1 = PFloat f1 /\ snd kv2 = PFloat f2))
          m1 m2.

(** Two rows of the epoch log for the same epoch of the same run whose
    texts are the canonical texts of such dictionaries. *)
Definition same_record_but_timestamp (l1 l2 : RunManager.EpochLog) : Prop :=
  RunManager.log_run_id l1 = RunManager.log_run_id l2
  /\ RunManager.log_epoch l1 = RunManager.log_epoch l2
  /\ exists m1 m2,
      same_but_timestamp m1 m2
      /\ HashChain.canonical_json (PDict m1) = Some (RunManager.log_metrics_json l1)
      /\ HashChain.canonical_json (PDict m2) = Some (RunManager.log_metrics_json l2).

(** An epoch without inquiry metrics and without energy spent, as the
    collaborators of a small run return it. *)
Definition quiet_epoch : Engine.EpochResult :=
  Engine.mkEpochResult
    (PDict [(KStr "A", PFloat (FFin "0.0")); (KStr "B", PFloat (FFin "0.0"));
            (KStr "C", PFloat (FFin "0.0"))])
    (PFloat (FFin "1.0")) (PFloat (FFin "0.0")) (PFloat (FFin "100.0"))
    (PFloat (FFin "0.0"))
    (PDict [(KStr "A", PFloat (FFin "0.0")); (KStr "B", PFloat (FFin "0.0"));
            (KStr "C", PFloat (FFin "0.0"))])
    (PDict []) (PDict []) (PDict []) (PDict []) (PFloat (FFin "0.0"))
    PNone (PFloat (FFin "1.0")) (PDict []).

Definition quiet_simulation (cfg : Engine.SimulationConfig) (epoch : Z) (st : unit)
  : Engine.EpochResult * unit := (quiet_epoch, tt).

End RunSpec.

(** Notions used to state the lemmas of Part II. *)

Section ProofNotions.
Import Json.
Local Open Scope string_scope.

(** The query steps of a history whose first step has index [n]. *)
Definition query_steps_from (n : nat) (h : list InquiryMetrics.step) : list nat :=
  map fst
      (filter (fun p => InquiryMetrics.any_type InquiryMetrics.INTERROGATIVE (snd p))
              (InquiryMetrics.enumerate_from n h)).

(** What may come right after a number for the scan to stop there. *)
Definition follow_ok (rest : string) : bool :=
  match rest with
  | "" => true
  | String c _ =>
      negb (is_digit c || Ascii.eqb c "." || Ascii.eqb c "e" || Ascii.eqb c "E")
  end.

Definition nondigit_head (rest : string) : bool :=
  match rest with
  | "" => true
  | String c _ => negb (is_digit c)
  end.

Definition key_le {A} (a b : pykey * A) : Prop :=
  key_leb (fst a) (fst b) = Some true.

Definition str_keys {A} (l : list (pykey * A)) : Prop :=
  Forall (fun kv => is_KStr (fst kv) = true) l.

(** What follows a value inside a text the encoder wrote. *)
Definition delim (rest : string) : bool :=
  match rest with
  | "" => true
  | String c _ => Ascii.eqb c "," || Ascii.eqb c "]" || Ascii.eqb c "}"
  end.

(** The first character of an encoded value. *)
Definition head_ok (j : string) : bool :=
  match j with
  | "" => false
  | String c _ => negb (is_ws c) && negb (Ascii.eqb c "]")
  end.

Definition number_head (c : ascii) : bool := is_digit c || Ascii.eqb c "-".

(** [reads_back j v]: the text [j] is the encoding of [v], and the decoder
    returns [v] on [j], whatever delimiter follows. *)
Definition reads_back (j : string) (v : pyval) : Prop :=
  head_ok j = true
  /\ dumps v = Some j
  /\ forall fuel rest,
       (2 * String.length j <= fuel)%nat -> delim rest = true ->
       parse_value fuel (j ++ rest) = Some (v, rest).

Definition item_back (kj : pykey * string) (kv : pykey * pyval) : Prop :=
  fst kj = fst kv /\ reads_back (snd kj) (snd kv).

(** Two states of the callback after the same epochs of two runs. *)
Definition callbacks_agree (cb1 cb2 : RunManager.CallbackState) : Prop :=
  Forall2 RunSpec.same_record_but_timestamp
          (RunManager.epoch_logs cb1) (RunManager.epoch_logs cb2)
  /\ DeliveryQueue.maxsize (RunManager.queue cb1)
     = DeliveryQueue.maxsize (RunManager.queue cb2)
  /\ length (DeliveryQueue.items (RunManager.queue cb1))
     = length (DeliveryQueue.items (RunManager.queue cb2)).

End ProofNotions.
(** Notions used to state the properties of chains and of the epoch log. *)

Module ChainLinks.
Import Json HashChain.
Local Open Scope string_scope.

(** The hash the entry at position [k] has to name as its predecessor:
    [first] at position 0, the hash stored at position [k - 1] after it. *)
Definition prev_at (first : string) (chain : list entry) (k : nat) : string :=
  match k with
  | O => first
  | S k' =>
      match nth_error chain k' with
      | Some e => hash e
      | None => first
      end
  end.

(** A chain every entry of which names its predecessor and stores the hash
    of its own decoded metrics. *)
Definition sealed_from (first : string) (seed : Z) (chain : list entry) : Prop :=
  forall k e,
    nth_error chain k = Some e ->
    prev_hash e = prev_at first chain k
    /\ exists m, loads (metrics_json e) = Some m
                 /\ compute_hash (prev_hash e) m seed = Some (hash e).

Definition sealed (seed : Z) (chain : list entry) : Prop :=
  sealed_from GENESIS_HASH seed chain.

(** The hash stored last, the genesis hash for the empty chain. *)
Definition last_hash (chain : list entry) : string :=
  last (map hash chain) GENESIS_HASH.

(** Successive calls of the run manager's callback. *)
Fixpoint callback_all (compute_energy_roi : pyval -> pyval -> pyval)
         (run_id run_seed : Z) (st : RunManager.CallbackState)
         (ms : list (list (pykey * pyval))) : option RunManager.CallbackState :=
  match ms with
  | [] => Some st
  | m :: r =>
      match RunManager.epoch_callback compute_energy_roi run_id run_seed st m with
      | Some st' => callback_all compute_energy_roi run_id run_seed st' r
      | None => None
      end
  end.

(** A log row and a chain entry holding the same record. *)
Definition same_record (run_id : Z) (log : RunManager.EpochLog) (e : entry) : Prop :=
  RunManager.log_run_id log = run_id
  /\ PInt (RunManager.log_epoch log) = epoch e
  /\ RunManager.log_hash log = hash e
  /\ RunManager.log_prev_hash log = prev_hash e
  /\ RunManager.log_metrics_json log = metrics_json e.

End ChainLinks.

Module RunLog.
Import Json.
Local Open Scope string_scope.

(** The metrics dictionaries the epoch loop hands to the callback. *)
Fixpoint run_metrics (State : Type)
         (simulate_epoch : Engine.SimulationConfig -> Z -> State
                           -> Engine.EpochResult * State)
         (cfg : Engine.SimulationConfig) (p : Engine.Protocol)
         (clock : nat -> pyfloat) (epochs : list nat) (st : State)
  : list (list (pykey * pyval)) :=
  match epochs with
  | [] => []
  | k :: rest =>
      let (m, st') :=
        Engine._run_epoch State simulate_epoch cfg p (Z.of_nat k) st (clock k) in
      m :: run_metrics State simulate_epoch cfg p clock rest st'
  end.

(** An epoch result every value of which is fit for the ledger: string
    keys without repetition, well-formed floats. *)
Definition ledger_result (r : Engine.EpochResult) : bool :=
  forallb str_keyed
    [ Engine.avg_reward r; Engine.survival_rate r; Engine.target_reached_rate r;
      Engine.avg_steps r; Engine.avg_energy_spent r; Engine.losses r;
      Engine.entropy r; Engine.mutual_information r; Engine.transfer_entropy r;
      Engine.zipf r; Engine.energy_roi r; Engine.trajectory r; Engine.tau r;
      Engine.inquiry r ].

(** A dictionary fit for the ledger, item by item. *)
Definition ledger_items (d : list (pykey * pyval)) : Prop :=
  Forall (fun kv => is_KStr (fst kv) = true /\ str_keyed (snd kv) = true) d
  /\ NoDup (PyDict.keys d).

End RunLog.

Module BufferTrace.
(** Whether a call of the communication buffer is [clear()]. *)
Definition is_clear {T} (c : CommBuffer.call T) : bool :=
  match c with
  | CommBuffer.Clear => true
  | _ => false
  end.

(** The calls of one step of an episode: every agent sends, then the step
    is recorded. *)
Definition step_calls {T} (sends : list (string * (list T * Z)))
  : list (CommBuffer.call T) :=
  (map (fun s => CommBuffer.Send (fst s) (fst (snd s)) (snd (snd s))) sends
   ++ [CommBuffer.RecordHistory])%list.

(** The invariant of the two histories of the buffer; [strict] while no
    [clear()] has been called. *)
Definition lined_up {T} (strict : bool) (b : CommBuffer.CommBuffer T) : Prop :=
  incl (PyDict.keys (CommBuffer._buffer T b)) (PyDict.keys (CommBuffer._type_buffer T b))
  /\ Forall2 (fun s t => incl (PyDict.keys s) (PyDict.keys t))
             (CommBuffer._history T b) (CommBuffer._type_history T b)
  /\ (strict = true ->
      PyDict.keys (CommBuffer._buffer T b) = PyDict.keys (CommBuffer._type_buffer T b)
      /\ Forall2 (fun s t => PyDict.keys s = PyDict.keys t)
                 (CommBuffer._history T b) (CommBuffer._type_history T b)).
End BufferTrace.

Module Streaks.
Import Manifest.
Local Open Scope string_scope.

(** An epoch counts as low when its inquiry metrics carry a type entropy
    below the threshold. *)
Definition low (m : epoch_dict) : bool :=
  match get_or m "inquiry" (MDict []) with
  | MDict inq =>
      match below_threshold (get_or inq "type_entropy" MNone) with
      | Some b => b
      | None => false
      end
  | _ => false
  end.

(** Whether five consecutive [true] start the list. *)
Definition starts_streak (l : list bool) : bool :=
  match l with
  | true :: true :: true :: true :: true :: _ => true
  | _ => false
  end.

(** The first position at which five consecutive low epochs start. *)
Fixpoint first_streak (l : list bool) : option nat :=
  match l with
  | [] => None
  | _ :: r => if starts_streak l then Some 0%nat else option_map S (first_streak r)
  end.

(** The value under ["epoch"] of the epoch at a position. *)
Definition epoch_at (ms : list epoch_dict) (i : nat) : mval :=
  match nth_error ms i with
  | Some m => get_or m "epoch" MNone
  | None => MNone
  end.

(** An epoch dictionary on which the engine's detector raises nothing: it
    has an epoch, and its type entropy, if any, is [None] or a number. *)
Definition detectable (m : epoch_dict) : Prop :=
  PyDict.get String.eqb m "epoch" <> None
  /\ forall inq, get_or m "inquiry" (MDict []) = MDict inq ->
                 below_threshold (get_or inq "type_entropy" MNone) <> None.

(** An epoch dictionary as the engine emits it: an integer epoch; no
    inquiry metrics, or a dictionary whose type entropy is [None] or a
    number and whose type distribution is [None] or a dictionary. *)
Definition engine_shaped (m : epoch_dict) : Prop :=
  (exists e : Z, PyDict.get String.eqb m "epoch" = Some (MNum (inject_Z e)))
  /\ match PyDict.get String.eqb m "inquiry" with
     | None => True
     | Some (MDict inq) =>
         below_threshold (get_or inq "type_entropy" MNone) <> None
         /\ Control.or_empty (get_or inq "type_distribution" MNone) <> None
     | Some _ => False
     end.

End Streaks.

Module MetricSpec.
Local Open Scope R_scope.

(** The sum of a float-valued key over epoch dictionaries. *)
Definition total_of (k : string) (ms : list (list (string * R))) : R :=
  fold_right (fun m acc => EnergyRoi.get_float m k + acc) 0 ms.

(** [sum(gamma ** k * rewards[k] for k in range(len(rewards)))] *)
Definition power_sum (gamma : R) (rewards : list R) : R :=
  fold_right Rplus 0
    (map (fun k => gamma ^ k * nth k rewards 0) (seq 0 (length rewards))).

(** The signals of the agents A, B and C of a given type, over a history. *)
Definition counted (ty : Z) (type_history : list InquiryMetrics.step)
  : list (string * Z) :=
  filter (fun item => existsb (String.eqb (fst item)) InquiryCounts.agents
                      && (snd item =? ty)%Z)
         (concat type_history).


(** A table of counts with the shape [compute_inquiry_metrics] gives it. *)
Definition table (a0 a1 a2 b0 b1 b2 c0 c1 c2 : Z) : InquiryCounts.counts :=
  [ ("A"%string, [(0, a0); (1, a1); (2, a2)]%Z);
    ("B"%string, [(0, b0); (1, b1); (2, b2)]%Z);
    ("C"%string, [(0, c0); (1, c1); (2, c2)]%Z) ].

(** Whether an item is counted under a type. *)
Definition counts_as (ty : Z) (item : string * Z) : bool :=
  existsb (String.eqb (fst item)) InquiryCounts.agents && (snd item =? ty)%Z.

End MetricSpec.

Module GridSpec.
Import Environment.

(** A cell of the grid proper. *)
Definition in_grid (cfg : EnvironmentConfig) (p : pos) : Prop :=
  0 <= fst p < grid_size cfg /\ 0 <= snd p < grid_size cfg.

(** A cell that holds no obstacle. *)
Definition free (obstacles : list pos) (p : pos) : Prop :=
  hit_obstacle obstacles p = false.

(** Every agent stands on a free cell of the grid. *)
Definition well_placed (env : Environment) : Prop :=
  Forall (fun np : string * pos =>
            in_grid (config env) (snd np) /\ free (obstacles env) (snd np))
         (agents_pos env).

(** The same, of the positions inside the loop of [step]. *)
Definition placed (cfg : EnvironmentConfig) (obstacles : list pos) (st : moves) : Prop :=
  Forall (fun np : string * pos => in_grid cfg (snd np) /\ free obstacles (snd np))
         (m_pos st).

(** Where an agent at [p] stands after [action]: the attempted cell, or
    [p] again when that cell holds an obstacle. *)
Definition landing (env : Environment) (p : pos) (action : Z) : pos :=
  if hit_obstacle (obstacles env) (attempted (config env) p action)
  then p else attempted (config env) p action.

(** What the move costs. *)
Definition charge (env : Environment) (p : pos) (action : Z) : R :=
  if hit_obstacle (obstacles env) (attempted (config env) p action)
  then collision_penalty (config env) else move_cost (config env).

End GridSpec.

Module EpisodeSpec.
Import Environment.

(** The episode loop of the engine, [while not done: ... env.step(actions)],
    for the actions the agents choose step after step: the state when the
    loop ends, and whether it ended by [done] (rather than with the plan). *)
Fixpoint episode (env : Environment) (plan : list (list (string * Z)))
  : option (Environment * bool) :=
  match plan with
  | [] => Some (env, false)
  | actions :: rest =>
      match step env actions with
      | None => None
      | Some (env', (_, done, _)) =>
          if done then Some (env', true) else episode env' rest
      end
  end.

End EpisodeSpec.

Module ControlSpec.
Import RunControl.

Definition addressee (r : request) : Z :=
  match r with
  | StopRun i | PauseRun i | ResumeRun i => i
  end.

(** Whether a stop was addressed to the run. *)
Definition stop_requested (run_id : Z) (rs : list request) : bool :=
  existsb (fun r => match r with
                    | StopRun i => i =? run_id
                    | _ => false
                    end) rs.

(** Whether the run is paused after the requests: what the last request
    addressed to it says, a stop lifting the pause. *)
Fixpoint paused_after (run_id : Z) (rs : list request) (paused : bool) : bool :=
  match rs with
  | [] => paused
  | r :: rest =>
      paused_after run_id rest
        (if addressee r =? run_id
         then match r with
              | PauseRun _ => true
              | _ => false
              end
         else paused)
  end.

End ControlSpec.

Module HistorySpec.
(** The signals and the types of one step, as [send] receives them. *)
Definition signals_of {T} (sends : list (string * (list T * Z))) : list (string * list T) :=
  map (fun s => (fst s, fst (snd s))) sends.

Definition types_of {T} (sends : list (string * (list T * Z))) : list (string * Z) :=
  map (fun s => (fst s, snd (snd s))) sends.
End HistorySpec.

Module HashFormat.
(** A lower-case hexadecimal digit. *)
Definition is_lower_hex (c : ascii) : bool :=
  let n := N_of_ascii c in
  ((48 <=? n) && (n <=? 57) || (97 <=? n) && (n <=? 102))%N.

(** A text of 64 lower-case hexadecimal digits. *)
Definition is_digest_text (h : string) : Prop :=
  String.length h = 64%nat
  /\ Forall (fun c => is_lower_hex c = true) (list_ascii_of_string h).
End HashFormat.


(* ================================================================== *)
(** * Part II: properties *)
(* ================================================================== *)

(** ** Delivery queue *)

Section DeliveryQueueFacts.
Import DeliveryQueue.
Context {A : Type}.

Lemma put_nowait_room (q : Queue A) (x : A) :
  qsize q < maxsize q ->
  put_nowait q x = Some (mkQueue (maxsize q) (items q ++ [x])).
Proof.
  intros H. unfold put_nowait.
  replace (maxsize q <=? qsize q) with false by (symmetry; apply Z.leb_gt; exact H).
  now rewrite andb_false_r.
Qed.

(** A push on a full bounded queue drops the head and appends. *)
Lemma push_full (q : Queue A) (x : A) :
  0 < maxsize q -> qsize q = maxsize q ->
  push q x = Some (mkQueue (maxsize q) (tl (items q) ++ [x])).
Proof.
  intros Hpos Hfull. unfold push.
  assert (Hput : put_nowait q x = None).
  { unfold put_nowait.
    replace (0 <? maxsize q) with true by (symmetry; apply Z.ltb_lt; exact Hpos).
    replace (maxsize q <=? qsize q) with true by (symmetry; apply Z.leb_le; lia).
    reflexivity. }
  rewrite Hput. unfold get_nowait.
  destruct q as [m [|y r]]; unfold qsize in *; cbn [items maxsize length] in *.
  - lia.
  - apply put_nowait_room. unfold qsize. cbn [items maxsize length] in *. lia.
Qed.

Lemma push_room (q : Queue A) (x : A) :
  qsize q < maxsize q ->
  push q x = Some (mkQueue (maxsize q) (items q ++ [x])).
Proof. intros H. unfold push. now rewrite put_nowait_room. Qed.

(** While there is room, pushes only append. *)
Lemma push_all_room (xs : list A) (q : Queue A) :
  qsize q + Z.of_nat (length xs) <= maxsize q ->
  push_all q xs = Some (mkQueue (maxsize q) (items q ++ xs)).
Proof.
  revert q. induction xs as [|x xs IH]; intros q H; cbn [push_all].
  - rewrite app_nil_r. now destruct q.
  - cbn [length] in H. rewrite push_room by lia.
    rewrite IH; cbn [maxsize items]; unfold qsize; cbn [items].
    + now rewrite <- app_assoc.
    + unfold qsize in H. rewrite length_app. cbn [length]. lia.
Qed.

(** A push never leaves more than [maxsize] items in a bounded queue. *)
Lemma push_bounded (q q' : Queue A) (x : A) :
  0 < maxsize q -> qsize q <= maxsize q -> push q x = Some q' ->
  maxsize q' = maxsize q /\ qsize q' <= maxsize q'.
Proof.
  intros Hpos Hle Hp.
  destruct (Z.eq_dec (qsize q) (maxsize q)) as [E|E].
  - rewrite push_full in Hp by assumption. inversion Hp; subst; clear Hp.
    cbn [maxsize]. split; [reflexivity|].
    unfold qsize in *. cbn [items]. rewrite length_app. cbn [length].
    destruct (items q); cbn [tl length] in *; lia.
  - rewrite push_room in Hp by lia. inversion Hp; subst; clear Hp.
    cbn [maxsize]. split; [reflexivity|].
    unfold qsize in *. cbn [items]. rewrite length_app. cbn [length]. lia.
Qed.

Lemma push_all_bounded (xs : list A) (q q' : Queue A) :
  0 < maxsize q -> qsize q <= maxsize q -> push_all q xs = Some q' ->
  maxsize q' = maxsize q /\ qsize q' <= maxsize q'.
Proof.
  revert q. induction xs as [|x xs IH]; intros q Hpos Hle Hp; cbn [push_all] in Hp.
  - inversion Hp; subst. split; [reflexivity | assumption].
  - destruct (push q x) as [q1|] eqn:E; [|discriminate].
    destruct (push_bounded q q1 x Hpos Hle E) as [Hm Hb].
    destruct (IH q1 ltac:(lia) ltac:(lia) Hp) as [Hm' Hb'].
    split; [congruence | assumption].
Qed.

Lemma push_all_app (xs ys : list A) (q : Queue A) :
  push_all q (xs ++ ys) =
  match push_all q xs with
  | Some q' => push_all q' ys
  | None => None
  end.
Proof.
  revert q. induction xs as [|x xs IH]; intros q; cbn [push_all app].
  - reflexivity.
  - destruct (push q x); [apply IH | reflexivity].
Qed.
End DeliveryQueueFacts.

(** C6. With a queue of capacity [N > 0] and no consumer, [N + 1] pushes
    through the epoch callback leave exactly the last [N] items: the oldest
    one has been evicted and the newest admitted at the back; and after
    every prefix of the pushes the queue holds at most [N] items. *)
Theorem C6_backpressure_most_recent_wins :
  forall (A : Type) (N : nat) (x0 : A) (xs : list A) (x_new : A),
    (0 < N)%nat ->
    length (x0 :: xs) = N ->
    (DeliveryQueue.push_all (DeliveryQueue.new (Z.of_nat N)) (x0 :: xs ++ [x_new])
     = Some (DeliveryQueue.mkQueue (Z.of_nat N) (xs ++ [x_new])))
    /\ (forall k, exists q,
          DeliveryQueue.push_all (DeliveryQueue.new (Z.of_nat N))
                                 (firstn k (x0 :: xs ++ [x_new])) = Some q
          /\ (length (DeliveryQueue.items q) <= N)%nat).
Proof.
  intros A N x0 xs x_new HN Hlen.
  assert (Hfirst :
    DeliveryQueue.push_all (DeliveryQueue.new (Z.of_nat N)) (x0 :: xs)
    = Some (DeliveryQueue.mkQueue (Z.of_nat N) (x0 :: xs))).
  { rewrite push_all_room; [reflexivity|].
    unfold DeliveryQueue.qsize. cbn [DeliveryQueue.new DeliveryQueue.items DeliveryQueue.maxsize].
    rewrite Hlen. cbn [length]. lia. }
  assert (Hall :
    DeliveryQueue.push_all (DeliveryQueue.new (Z.of_nat N)) (x0 :: xs ++ [x_new])
    = Some (DeliveryQueue.mkQueue (Z.of_nat N) (xs ++ [x_new]))).
  { change (x0 :: xs ++ [x_new]) with ((x0 :: xs) ++ [x_new]).
    rewrite push_all_app, Hfirst. cbn [DeliveryQueue.push_all].
    rewrite push_full; cbn [DeliveryQueue.maxsize DeliveryQueue.items tl].
    - reflexivity.
    - lia.
    - unfold DeliveryQueue.qsize. cbn [DeliveryQueue.items]. now rewrite Hlen. }
  split; [exact Hall|].
  intros k.
  pose proof (firstn_skipn k (x0 :: xs ++ [x_new])) as Hsplit.
  rewrite <- Hsplit in Hall. rewrite push_all_app in Hall.
  destruct (DeliveryQueue.push_all (DeliveryQueue.new (Z.of_nat N))
              (firstn k (x0 :: xs ++ [x_new]))) as [q|] eqn:E; [|discriminate].
  exists q. split; [reflexivity|].
  assert (Hpos : 0 < DeliveryQueue.maxsize (@DeliveryQueue.new A (Z.of_nat N)))
    by (cbn; lia).
  assert (Hle : DeliveryQueue.qsize (@DeliveryQueue.new A (Z.of_nat N))
                <= DeliveryQueue.maxsize (@DeliveryQueue.new A (Z.of_nat N)))
    by (unfold DeliveryQueue.qsize; cbn; lia).
  destruct (push_all_bounded _ _ _ Hpos Hle E) as [Hm Hb].
  unfold DeliveryQueue.qsize in Hb. rewrite Hm in Hb.
  cbn [DeliveryQueue.new DeliveryQueue.maxsize] in Hb. lia.
Qed.

(** The capacity of the run manager's queue, 200, with 201 pushes. *)
Lemma C6_backpressure_witness :
  (0 < 200)%nat /\ length (0 :: seq 1 199)%nat = 200%nat /\
  DeliveryQueue.push_all (DeliveryQueue.new DeliveryQueue.run_manager_maxsize)
                         (0 :: seq 1 199 ++ [200])%nat
  = Some (DeliveryQueue.mkQueue 200 (seq 1 199 ++ [200])%nat).
Proof.
  split; [lia|]. split; [reflexivity|].
  exact (proj1 (C6_backpressure_most_recent_wins nat 200 0%nat (seq 1 199) 200%nat
                  ltac:(lia) eq_refl)).
Defined.

(** ** Query/response coupling *)

Section InquiryFacts.
Import InquiryMetrics.

Lemma query_steps_from_cons (n : nat) (s : step) (h : list step) :
  query_steps_from n (s :: h) =
  if any_type INTERROGATIVE s
  then n :: query_steps_from (S n) h
  else query_steps_from (S n) h.
Proof.
  unfold query_steps_from. cbn [enumerate_from filter snd].
  destruct (any_type INTERROGATIVE s); reflexivity.
Qed.

(** The index test of the code at the position right after a prefix. *)
Lemma followed_at_prefix (pre : list step) (s : step) (rest : list step) :
  followed (pre ++ s :: rest) (length pre) =
  match rest with
  | s' :: _ => any_type RESPONSE s'
  | [] => false
  end.
Proof.
  unfold followed.
  rewrite nth_error_app2 by lia.
  replace (S (length pre) - length pre)%nat with 1%nat by lia.
  rewrite length_app. cbn [nth_error length].
  destruct rest as [|s' rest']; cbn [nth_error length].
  - now rewrite andb_false_r.
  - replace (S (length pre) <? length pre + S (S (length rest')))%nat
      with true by (symmetry; apply Nat.ltb_lt; lia).
    reflexivity.
Qed.

(** The two counts of the code agree with the single walk of the history. *)
Lemma counts_agree (h pre : list step) :
  let qs := query_steps_from (length pre) h in
  (length qs, count_true (followed (pre ++ h)) qs) = coupling_counts h.
Proof.
  revert pre. induction h as [|s rest IH]; intros pre; cbn zeta.
  - reflexivity.
  - rewrite query_steps_from_cons. cbn [coupling_counts].
    specialize (IH (pre ++ [s])).
    replace (length (pre ++ [s])) with (S (length pre)) in IH
      by (rewrite length_app; cbn; lia).
    rewrite <- app_assoc in IH. cbn [app] in IH. cbn zeta in IH.
    destruct (coupling_counts rest) as [q a].
    injection IH as Hq Ha.
    destruct (any_type INTERROGATIVE s).
    + unfold count_true in *. cbn [filter length].
      rewrite followed_at_prefix.
      destruct rest as [|s' rest'].
      * now rewrite Hq, Ha.
      * destruct (any_type RESPONSE s'); cbn [length]; now rewrite Hq, Ha.
    + now rewrite Hq, Ha.
Qed.

Lemma query_steps_nil_iff (h : list step) :
  query_steps h = [] <->
  (forall s, In s h -> any_type INTERROGATIVE s = false).
Proof.
  unfold query_steps. fold (query_steps_from 0 h).
  generalize 0%nat. induction h as [|s rest IH]; intros n.
  - split; [intros _ s [] | reflexivity].
  - rewrite query_steps_from_cons. split.
    + destruct (any_type INTERROGATIVE s) eqn:E; [discriminate|].
      intros H s' [<-|Hin]; [exact E | now apply (proj1 (IH (S n)))].
    + intros H. rewrite (H s (or_introl eq_refl)).
      apply IH. intros s' Hin. apply H. now right.
Qed.
End InquiryFacts.

(** C7. The coupling computed by [_compute_qr_coupling] is the number of
    query steps whose next step holds a response, over the number of query
    steps; and on a history with no query step it is exactly 0. *)
Theorem C7_qr_coupling_is_the_answered_fraction :
  (forall h : list InquiryMetrics.step,
      InquiryMetrics._compute_qr_coupling h = InquiryMetrics.coupling_spec h)
  /\ (forall h : list InquiryMetrics.step,
         (forall s, In s h ->
                    InquiryMetrics.any_type InquiryMetrics.INTERROGATIVE s = false) ->
         InquiryMetrics._compute_qr_coupling h = 0%Q).
Proof.
  split.
  - intros h.
    unfold InquiryMetrics._compute_qr_coupling, InquiryMetrics.coupling_spec.
    pose proof (counts_agree h []) as H. cbn [length app] in H. cbn zeta in H.
    unfold InquiryMetrics.query_steps. fold (query_steps_from 0 h).
    destruct (InquiryMetrics.coupling_counts h) as [q a].
    injection H as Hq Ha.
    destruct (query_steps_from 0 h) as [|i qs] eqn:E.
    + cbn [length] in Hq. now subst q.
    + rewrite <- Hq, <- Ha. cbn [length]. reflexivity.
  - intros h H. apply query_steps_nil_iff in H.
    unfold InquiryMetrics._compute_qr_coupling. now rewrite H.
Qed.

(** A history of three steps without a query, and one where one of two
    queries is answered in the next step. *)
Lemma C7_qr_coupling_witness :
  InquiryMetrics._compute_qr_coupling
    [ [("A", 0); ("B", 2)]; [("A", 2)]; [] ]%string = 0%Q
  /\ InquiryMetrics._compute_qr_coupling
       [ [("A", 1); ("B", 0)]; [("B", 2)]; [("C", 1)] ]%string = (1 # 2)%Q.
Proof.
  split.
  - apply (proj2 C7_qr_coupling_is_the_answered_fraction).
    intros s [<-|[<-|[<-|[]]]]; reflexivity.
  - rewrite (proj1 C7_qr_coupling_is_the_answered_fraction). reflexivity.
Defined.

(** ** Rewards: the survival term *)

Section RewardFacts.
Local Open Scope R_scope.

Lemma energy_fraction_negative (energy_remaining energy_budget : R) :
  energy_remaining < 0 -> 0 < energy_budget ->
  Reward.energy_fraction energy_remaining energy_budget = Some 0.
Proof.
  intros Hr Hb. unfold Reward.energy_fraction.
  destruct (Req_dec_T energy_budget 0) as [E|_]; [lra|].
  f_equal. apply Rmax_right.
  assert (0 < / energy_budget) by (apply Rinv_0_lt_compat; exact Hb).
  unfold Rdiv. nra.
Qed.
End RewardFacts.

(** C10. With negative remaining energy and a positive budget the survival
    term is exactly 0, in the baseline protocol's reward and in the shared
    reward function (which the interrogative protocol forwards to): the
    reward is the environment reward minus the communication tax. *)
Theorem C10_survival_term_clamped_at_zero :
  forall (env_reward : R) (signal_sent : list R)
         (energy_remaining energy_budget communication_tax_rate survival_bonus : R)
         (signal_type : Z) (declare_cost query_cost respond_cost : R),
    (energy_remaining < 0)%R -> (0 < energy_budget)%R ->
    Reward.survival_term survival_bonus energy_remaining energy_budget = Some 0%R
    /\ Protocols.Protocol0_compute_reward env_reward signal_sent energy_remaining
         energy_budget communication_tax_rate survival_bonus signal_type
       = Some (env_reward - communication_tax_rate * Reward.abs_sum signal_sent)%R
    /\ Reward.compute_reward env_reward signal_sent energy_remaining energy_budget
         communication_tax_rate survival_bonus signal_type
         declare_cost query_cost respond_cost
       = Some (env_reward
               - Reward.signal_cost communication_tax_rate signal_type
                   declare_cost query_cost respond_cost signal_sent)%R
    /\ Protocols.Protocol1_compute_reward declare_cost query_cost respond_cost
         env_reward signal_sent energy_remaining energy_budget
         communication_tax_rate survival_bonus signal_type
       = Some (env_reward
               - Reward.signal_cost communication_tax_rate signal_type
                   declare_cost query_cost respond_cost signal_sent)%R.
Proof.
  intros env_reward signal_sent er eb tax sb ty dc qc rc Hr Hb.
  pose proof (energy_fraction_negative er eb Hr Hb) as Hf.
  unfold Reward.survival_term, Protocols.Protocol1_compute_reward,
    Protocols.Protocol0_compute_reward, Reward.compute_reward, Reward.signal_cost.
  rewrite Hf. cbn [option_map].
  repeat split; f_equal; ring.
Qed.

(** Energy remaining -5 of a budget of 100, signal [0.5, -0.25], tax 0.01. *)
Lemma C10_survival_term_witness :
  Protocols.Protocol0_compute_reward 1 [1/2; -1/4]%R (-5) 100 (1/100) (1/10) 0
  = Some (1 - 1/100 * Reward.abs_sum [1/2; -1/4])%R.
Proof.
  apply (C10_survival_term_clamped_at_zero 1 [1/2; -1/4]%R (-5) 100 (1/100) (1/10) 0 1
           (3/2) (4/5))%R; lra.
Defined.

(** ** Temperature schedule *)

Section TemperatureFacts.
Local Open Scope R_scope.

Lemma exp_double (x : R) : exp (x + x) = exp x * exp x.
Proof. apply exp_plus. Qed.

Lemma square_le (c x : R) : 0 <= c -> c <= x -> c * c <= x * x.
Proof. intros; nra. Qed.

Ltac by_squaring H :=
  rewrite exp_double;
  match type of H with
  | ?c <= ?x => pose proof (square_le c x ltac:(lra) H)
  end; lra.

(** [exp(-3) = exp(-3/64)^64 >= (61/64)^64], rounded down at each squaring. *)
Lemma exp_minus_3_lower : 460 / 10000 <= exp (-3).
Proof.
  assert (H0 : 61 / 64 <= exp (-3 / 64))
    by (pose proof (exp_ineq1_le (-3 / 64)); lra).
  assert (H1 : 9084 / 10000 <= exp (-3 / 32)).
  { replace (-3 / 32) with (-3 / 64 + -3 / 64) by lra. by_squaring H0. }
  assert (H2 : 8251 / 10000 <= exp (-3 / 16)).
  { replace (-3 / 16) with (-3 / 32 + -3 / 32) by lra. by_squaring H1. }
  assert (H3 : 6807 / 10000 <= exp (-3 / 8)).
  { replace (-3 / 8) with (-3 / 16 + -3 / 16) by lra. by_squaring H2. }
  assert (H4 : 4633 / 10000 <= exp (-3 / 4)).
  { replace (-3 / 4) with (-3 / 8 + -3 / 8) by lra. by_squaring H3. }
  assert (H5 : 2146 / 10000 <= exp (-3 / 2)).
  { replace (-3 / 2) with (-3 / 4 + -3 / 4) by lra. by_squaring H4. }
  replace (-3) with (-3 / 2 + -3 / 2) by lra. by_squaring H5.
Qed.

(** [exp(3) = exp(3/64)^64 >= (67/64)^64 >= 18.7], so [exp(-3) <= 1/18.7]. *)
Lemma exp_minus_3_upper : exp (-3) <= 535 / 10000.
Proof.
  assert (H0 : 67 / 64 <= exp (3 / 64))
    by (pose proof (exp_ineq1_le (3 / 64)); lra).
  assert (H1 : 10959 / 10000 <= exp (3 / 32)).
  { replace (3 / 32) with (3 / 64 + 3 / 64) by lra. by_squaring H0. }
  assert (H2 : 12009 / 10000 <= exp (3 / 16)).
  { replace (3 / 16) with (3 / 32 + 3 / 32) by lra. by_squaring H1. }
  assert (H3 : 14421 / 10000 <= exp (3 / 8)).
  { replace (3 / 8) with (3 / 16 + 3 / 16) by lra. by_squaring H2. }
  assert (H4 : 20796 / 10000 <= exp (3 / 4)).
  { replace (3 / 4) with (3 / 8 + 3 / 8) by lra. by_squaring H3. }
  assert (H5 : 43247 / 10000 <= exp (3 / 2)).
  { replace (3 / 2) with (3 / 4 + 3 / 4) by lra. by_squaring H4. }
  assert (H6 : 187 / 10 <= exp 3).
  { replace 3 with (3 / 2 + 3 / 2) by lra. by_squaring H5. }
  replace (-3) with (Ropp 3) by lra. rewrite exp_Ropp.
  assert (Hinv : / exp 3 <= / (187 / 10))
    by (apply Rinv_le_contravar; lra).
  lra.
Qed.

(** Once the decay window is over the schedule is constant. *)
Lemma get_tau_default_after_decay (epoch : Z) :
  (80 <= epoch)%Z ->
  Temperature.get_tau_default epoch = Some (1 / 10 + 9 / 10 * exp (-3)).
Proof.
  intros He. unfold Temperature.get_tau_default, Temperature.get_tau.
  replace (epoch <? 20)%Z with false by (symmetry; apply Z.ltb_ge; lia).
  cbn [Z.eqb]. f_equal.
  assert (Hp : 1 <= IZR (epoch - 20) / 60).
  { assert (60 <= IZR (epoch - 20)) by (apply IZR_le; lia). lra. }
  rewrite Rmin_right by exact Hp.
  replace (-3 * 1) with (-3) by lra.
  pose proof (exp_pos (-3)).
  rewrite Rmax_left by lra. lra.
Qed.
End TemperatureFacts.

(** C5. During warm-up the temperature is [tau_max]: [tau(0) = tau(19) = 1].
    At epoch 100 the schedule returns [0.1 + 0.9 * e^(-3)], a value between
    0.14 and 0.15 that it already has at epoch 80: the floor [tau_min = 0.1]
    is not reached. *)
Theorem C5_tau_schedule_values :
  Temperature.get_tau_default 0 = Some 1%R
  /\ Temperature.get_tau_default 19 = Some 1%R
  /\ Temperature.get_tau_default 100 = Some (1 / 10 + 9 / 10 * exp (-3))%R
  /\ Temperature.get_tau_default 100 = Temperature.get_tau_default 80
  /\ (14 / 100 < 1 / 10 + 9 / 10 * exp (-3) < 15 / 100)%R.
Proof.
  split; [reflexivity|]. split; [reflexivity|].
  split; [apply get_tau_default_after_decay; lia|].
  split; [now rewrite !get_tau_default_after_decay by lia|].
  pose proof exp_minus_3_lower. pose proof exp_minus_3_upper. lra.
Qed.

(** ** Communication buffer *)

Section PyDictFacts.
Context {K V : Type}.
Variable keq : K -> K -> bool.
Hypothesis keq_spec : forall a b, keq a b = true <-> a = b.

Lemma keq_refl (a : K) : keq a a = true.
Proof. now apply keq_spec. Qed.

Lemma keq_false (a b : K) : a <> b -> keq a b = false.
Proof.
  intros H. destruct (keq a b) eqn:E; [|reflexivity].
  now apply keq_spec in E.
Qed.

Lemma get_set_same (d : list (K * V)) (k : K) (v : V) :
  PyDict.get keq (PyDict.set keq d k v) k = Some v.
Proof.
  induction d as [|[k' v'] r IH]; cbn [PyDict.set PyDict.get].
  - now rewrite keq_refl.
  - destruct (keq k' k) eqn:E; cbn [PyDict.get]; now rewrite E.
Qed.

Lemma get_set_other (d : list (K * V)) (k k0 : K) (v : V) :
  k <> k0 ->
  PyDict.get keq (PyDict.set keq d k v) k0 = PyDict.get keq d k0.
Proof.
  intros Hne. induction d as [|[k' v'] r IH]; cbn [PyDict.set PyDict.get].
  - now rewrite keq_false.
  - destruct (keq k' k) eqn:E; cbn [PyDict.get].
    + apply keq_spec in E. subst k'. now rewrite !keq_false.
    + now rewrite IH.
Qed.

Lemma get_None_not_in (d : list (K * V)) (k : K) :
  PyDict.get keq d k = None <-> ~ In k (PyDict.keys d).
Proof.
  induction d as [|[k' v'] r IH]; cbn [PyDict.get PyDict.keys map fst In].
  - tauto.
  - destruct (keq k' k) eqn:E.
    + apply keq_spec in E. split; [discriminate | intros H; exfalso; apply H; now left].
    + assert (k' <> k) by (intros ->; now rewrite keq_refl in E).
      unfold PyDict.keys in IH. rewrite IH. tauto.
Qed.

(** Assigning to a new key appends; assigning to an old one keeps the keys. *)
Lemma set_new (d : list (K * V)) (k : K) (v : V) :
  ~ In k (PyDict.keys d) -> PyDict.set keq d k v = d ++ [(k, v)].
Proof.
  induction d as [|[k' v'] r IH]; cbn [PyDict.set PyDict.keys map fst In app]; intros H.
  - reflexivity.
  - rewrite keq_false by tauto. f_equal. apply IH. unfold PyDict.keys. tauto.
Qed.

Lemma keys_set (d : list (K * V)) (k : K) (v : V) :
  PyDict.keys (PyDict.set keq d k v) =
  if existsb (fun k' => keq k k') (PyDict.keys d)
  then PyDict.keys d else PyDict.keys d ++ [k].
Proof.
  induction d as [|[k' v'] r IH]; cbn [PyDict.set PyDict.keys map fst existsb app].
  - reflexivity.
  - destruct (keq k' k) eqn:E.
    + apply keq_spec in E. subst k'. now rewrite keq_refl.
    + assert (keq k k' = false) as ->.
      { apply keq_false. intros ->. now rewrite keq_refl in E. }
      cbn [orb map fst]. unfold PyDict.keys in IH. rewrite IH.
      now destruct (existsb _ _).
Qed.

Lemma keys_set_NoDup (d : list (K * V)) (k : K) (v : V) :
  NoDup (PyDict.keys d) -> NoDup (PyDict.keys (PyDict.set keq d k v)).
Proof.
  intros H. rewrite keys_set.
  destruct (existsb _ _) eqn:E; [exact H|].
  apply NoDup_app; [exact H | repeat constructor; intros [] | ].
  intros x Hx [Heq|[]]. subst x.
  assert (existsb (fun k' => keq k k') (PyDict.keys d) = true)
    by (apply existsb_exists; exists k; split; [exact Hx | apply keq_refl]).
  congruence.
Qed.
End PyDictFacts.

Lemma string_eqb_spec (a b : string) : String.eqb a b = true <-> a = b.
Proof. apply String.eqb_eq. Qed.

Section CommBufferFacts.
Import CommBuffer.
Variable T : Type.
Variable zero : T.

Local Abbreviation buffer := (CommBuffer T).

(** [receive] visits the buffer in order; with unique keys each visited
    item of another agent is appended to the result. *)
Lemma receive_fold (killed : bool) (agent_name : string)
      (items acc : list (string * tensor T)) :
  NoDup (PyDict.keys acc ++ PyDict.keys items) ->
  fold_left
    (fun signals (item : string * tensor T) =>
       let (name, sig) := item in
       if negb (String.eqb name agent_name)
       then PyDict.set String.eqb signals name
              (if killed then zeros_like T zero sig else sig)
       else signals)
    items acc
  = acc ++ map (fun item => (fst item,
                             if killed then zeros_like T zero (snd item) else snd item))
               (filter (fun item => negb (String.eqb (fst item) agent_name)) items).
Proof.
  revert acc. induction items as [|[name sig] r IH]; intros acc Hnd;
    cbn [fold_left filter map fst snd].
  - now rewrite app_nil_r.
  - cbn [PyDict.keys map fst] in Hnd.
    destruct (negb (String.eqb name agent_name)) eqn:E; cbn [map fst snd].
    + rewrite (set_new String.eqb string_eqb_spec).
      * rewrite IH.
        -- now rewrite <- app_assoc.
        -- unfold PyDict.keys in *. rewrite map_app. cbn [map fst].
           rewrite <- app_assoc. exact Hnd.
      * apply NoDup_remove_2 in Hnd. intros Hin. apply Hnd.
        apply in_or_app. now left.
    + apply IH. apply NoDup_remove_1 in Hnd. exact Hnd.
Qed.

Lemma receive_others (b : buffer) (agent_name : string) :
  NoDup (PyDict.keys (_buffer T b)) ->
  receive T zero b agent_name =
  map (fun item => (fst item, masked T zero b (snd item))) (others T b agent_name).
Proof.
  intros Hnd. unfold receive, others, masked.
  now rewrite receive_fold.
Qed.

(** Reachable buffers have unique keys. *)
Lemma do_call_NoDup (b : buffer) (c : call T) :
  NoDup (PyDict.keys (_buffer T b)) ->
  NoDup (PyDict.keys (_buffer T (do_call T b c))).
Proof.
  destruct c; cbn; intros H; try exact H; try constructor.
  now apply (keys_set_NoDup String.eqb string_eqb_spec).
Qed.

Lemma fold_do_call_NoDup (cs : list (call T)) (b : buffer) :
  NoDup (PyDict.keys (_buffer T b)) ->
  NoDup (PyDict.keys (_buffer T (fold_left (do_call T) cs b))).
Proof.
  revert b. induction cs as [|c cs IH]; intros b H; cbn [fold_left].
  - exact H.
  - apply IH. now apply do_call_NoDup.
Qed.

Lemma run_NoDup (cfg : CommBufferConfig) (cs : list (call T)) :
  NoDup (PyDict.keys (_buffer T (run T cfg cs))).
Proof. apply fold_do_call_NoDup. constructor. Qed.

(** The buffer after a sequence of calls, read off the calls. *)
Lemma fold_do_call_trace (cs : list (call T)) (b : buffer) :
  let b' := fold_left (do_call T) cs b in
  PyDict.keys (_buffer T b') = send_order T cs (PyDict.keys (_buffer T b))
  /\ (forall a, PyDict.get String.eqb (_buffer T b') a
                = last_sent T cs a (PyDict.get String.eqb (_buffer T b) a))
  /\ _killed T b' = killed_after T cs (_killed T b)
  /\ config T b' = config T b.
Proof.
  revert b. induction cs as [|c cs IH]; intros b; cbn zeta.
  - cbn. auto.
  - cbn [fold_left]. specialize (IH (do_call T b c)). cbn zeta in IH.
    destruct IH as (Hk & Hg & Hkill & Hcfg).
    rewrite Hk, Hkill, Hcfg. split; [|split; [|split]].
    + destruct c; cbn [do_call send record_history kill restore clear reset
                       _buffer send_order]; try reflexivity.
      rewrite (keys_set String.eqb string_eqb_spec). reflexivity.
    + intros a. rewrite Hg.
      destruct c; cbn [do_call send record_history kill restore clear reset
                       _buffer last_sent PyDict.get]; try reflexivity.
      destruct (String.eqb agent_name a) eqn:E.
      * apply String.eqb_eq in E. subst a.
        now rewrite (get_set_same String.eqb string_eqb_spec).
      * apply String.eqb_neq in E.
        now rewrite (get_set_other String.eqb string_eqb_spec).
    + destruct c; reflexivity.
    + destruct c; reflexivity.
Qed.

Lemma concat_zeros_like (l : list (tensor T)) :
  Forall (eq zero) (concat (map (zeros_like T zero) l)).
Proof.
  induction l as [|s l IH]; cbn [map concat].
  - constructor.
  - apply Forall_app. split; [|exact IH].
    unfold zeros_like. apply Forall_forall. intros x Hx.
    apply in_map_iff in Hx. now destruct Hx as (_ & <- & _).
Qed.

Lemma zeros_all_zero (n : Z) (t : tensor T) :
  zeros T zero n = Some t -> Forall (eq zero) t.
Proof.
  unfold zeros. destruct (n <? 0); [discriminate|].
  intros [= <-]. apply Forall_forall. intros x Hx.
  now apply repeat_spec in Hx.
Qed.

(** [receive_all] on a buffer with unique keys. *)
Lemma receive_all_others (b : buffer) (agent_name : string) :
  NoDup (PyDict.keys (_buffer T b)) ->
  receive_all T zero b agent_name =
  match others T b agent_name with
  | [] => zeros T zero (signal_dim (config T b) * (num_agents (config T b) - 1))
  | _ :: _ => Some (concat (map (fun item => masked T zero b (snd item))
                                (others T b agent_name)))
  end.
Proof.
  intros Hnd. unfold receive_all. rewrite receive_others by exact Hnd.
  destruct (others T b agent_name) as [|it o]; cbn [map].
  - reflexivity.
  - unfold cat, PyDict.values. cbn [map snd]. now rewrite map_map.
Qed.
End CommBufferFacts.

(** C4, as the code has it.  After any sequence of calls on a fresh buffer:
    the buffer holds, for each agent that sent since it was last emptied,
    that agent's last-sent signal, in the order of the agents' first sends;
    [receive_all] returns the stored signals of the other agents in that
    order, zeroed when the channel is killed, and only when no other agent
    has a stored signal a zero vector of [signal_dim * (num_agents - 1)]
    entries.  Right after [kill] the result is all zeros, right after
    [restore] it is the stored values again, and with [signal_dim >= 0] and
    [num_agents >= 1] the call never fails, also when the result is empty. *)
Theorem C4_receive_all_reads_the_buffer :
  forall (T : Type) (zero : T) (cfg : CommBuffer.CommBufferConfig)
         (cs : list (CommBuffer.call T)) (agent_name : string),
    let b := CommBuffer.run T cfg cs in
    (PyDict.keys (CommBuffer._buffer T b) = CommBuffer.send_order T cs []
     /\ (forall a, PyDict.get String.eqb (CommBuffer._buffer T b) a
                   = CommBuffer.last_sent T cs a None)
     /\ CommBuffer._killed T b = CommBuffer.killed_after T cs false)
    /\ CommBuffer.receive_all T zero b agent_name
       = match CommBuffer.others T b agent_name with
         | [] => CommBuffer.zeros T zero
                   (CommBuffer.signal_dim cfg * (CommBuffer.num_agents cfg - 1))
         | _ :: _ =>
             Some (concat (map (fun item => CommBuffer.masked T zero b (snd item))
                               (CommBuffer.others T b agent_name)))
         end
    /\ (forall t, CommBuffer.receive_all T zero (CommBuffer.kill T b) agent_name = Some t ->
                  Forall (eq zero) t)
    /\ CommBuffer.receive_all T zero (CommBuffer.restore T (CommBuffer.kill T b)) agent_name
       = match CommBuffer.others T b agent_name with
         | [] => CommBuffer.zeros T zero
                   (CommBuffer.signal_dim cfg * (CommBuffer.num_agents cfg - 1))
         | _ :: _ => Some (concat (map snd (CommBuffer.others T b agent_name)))
         end
    /\ (0 <= CommBuffer.signal_dim cfg -> 1 <= CommBuffer.num_agents cfg ->
        exists t, CommBuffer.receive_all T zero b agent_name = Some t).
Proof.
  intros T zero cfg cs agent_name b.
  pose proof (run_NoDup T cfg cs) as Hnd. fold b in Hnd.
  destruct (fold_do_call_trace T cs (CommBuffer.new T cfg)) as (Hk & Hg & Hkill & Hcfg).
  fold (CommBuffer.run T cfg cs) in Hk, Hg, Hkill, Hcfg. fold b in Hk, Hg, Hkill, Hcfg.
  cbn [CommBuffer.new CommBuffer._buffer CommBuffer._killed CommBuffer.config
       PyDict.keys map PyDict.get] in Hk, Hg, Hkill, Hcfg.
  assert (Hall : CommBuffer.receive_all T zero b agent_name
       = match CommBuffer.others T b agent_name with
         | [] => CommBuffer.zeros T zero
                   (CommBuffer.signal_dim cfg * (CommBuffer.num_agents cfg - 1))
         | _ :: _ =>
             Some (concat (map (fun item => CommBuffer.masked T zero b (snd item))
                               (CommBuffer.others T b agent_name)))
         end).
  { rewrite receive_all_others by exact Hnd. now rewrite Hcfg. }
  split; [auto|]. split; [exact Hall|]. split; [|split].
  - intros t. rewrite receive_all_others by exact Hnd.
    change (CommBuffer.others T (CommBuffer.kill T b) agent_name)
      with (CommBuffer.others T b agent_name).
    destruct (CommBuffer.others T b agent_name) as [|it o].
    + apply zeros_all_zero.
    + intros [= <-].
      rewrite <- (map_map snd (CommBuffer.masked T zero (CommBuffer.kill T b))).
      exact (concat_zeros_like T zero (map snd (it :: o))).
  - rewrite receive_all_others by exact Hnd.
    change (CommBuffer.others T (CommBuffer.restore T (CommBuffer.kill T b)) agent_name)
      with (CommBuffer.others T b agent_name).
    cbn [CommBuffer.restore CommBuffer.kill CommBuffer.config]. rewrite Hcfg.
    destruct (CommBuffer.others T b agent_name) as [|it o]; [reflexivity|].
    reflexivity.
  - intros Hd Hn. rewrite Hall.
    destruct (CommBuffer.others T b agent_name) as [|it o]; [|eauto].
    unfold CommBuffer.zeros.
    replace (_ <? 0) with false by (symmetry; apply Z.ltb_ge; nia).
    eauto.
Qed.

(** Agents B and C send, the channel is killed: agent A reads four zeros;
    with the default configuration the call succeeds, and with a single
    agent the result of a call on the fresh buffer has length zero. *)
Lemma C4_receive_all_witness :
  (0 <= CommBuffer.signal_dim CommBuffer.default_config
   /\ 1 <= CommBuffer.num_agents CommBuffer.default_config)
  /\ Forall (eq 0)
       [0; 0; 0; 0]
  /\ (exists t,
         CommBuffer.receive_all Z 0
           (CommBuffer.run Z CommBuffer.default_config
              [CommBuffer.Send "B" [1; 2] 0; CommBuffer.Send "C" [3; 4] 0;
               CommBuffer.Kill]%string) "A"%string = Some t)
  /\ CommBuffer.receive_all Z 0 (CommBuffer.run Z (CommBuffer.mkConfig 8 1) []) "A"%string
     = Some [].
Proof.
  split; [cbn; lia|]. split; [|split].
  - apply (proj1 (proj2 (proj2 (C4_receive_all_reads_the_buffer Z 0
             CommBuffer.default_config
             [CommBuffer.Send "B" [1; 2] 0; CommBuffer.Send "C" [3; 4] 0]%string
             "A"%string)))).
    reflexivity.
  - apply (proj2 (proj2 (proj2 (proj2 (C4_receive_all_reads_the_buffer Z 0
             CommBuffer.default_config
             [CommBuffer.Send "B" [1; 2] 0; CommBuffer.Send "C" [3; 4] 0;
              CommBuffer.Kill]%string "A"%string))))); cbn; lia.
  - rewrite (proj1 (proj2 (C4_receive_all_reads_the_buffer Z 0 (CommBuffer.mkConfig 8 1)
                             [] "A"%string))).
    reflexivity.
Defined.

(** C4 as stated fails.  Whatever the canonical order of the agents, the
    result of [receive_all] follows the order of the sends (B then C gives
    [2; 3], C then B gives [3; 2]), and an agent that has not sent
    contributes nothing instead of a zero vector (after B alone agent A
    reads one entry, not two). *)
Lemma C4_counterexample_send_order_and_missing_agent :
  let cfg := CommBuffer.mkConfig 1 3 in
  let bc := CommBuffer.run Z cfg
              [CommBuffer.Send "B" [2] 0; CommBuffer.Send "C" [3] 0]%string in
  let cb := CommBuffer.run Z cfg
              [CommBuffer.Send "C" [3] 0; CommBuffer.Send "B" [2] 0]%string in
  let only_b := CommBuffer.run Z cfg [CommBuffer.Send "B" [2] 0]%string in
  CommBuffer.receive_all Z 0 bc "A"%string = Some [2; 3]
  /\ CommBuffer.receive_all Z 0 cb "A"%string = Some [3; 2]
  /\ CommBuffer.receiveAll_spec Z 0 ["A"; "B"; "C"]%string cb "A"%string = [2; 3]
  /\ CommBuffer.receive_all Z 0 only_b "A"%string = Some [2]
  /\ CommBuffer.receiveAll_spec Z 0 ["A"; "B"; "C"]%string only_b "A"%string = [2; 0]
  /\ ~ (exists agents : list string,
          forall cs agent_name,
            CommBuffer.receive_all Z 0 (CommBuffer.run Z cfg cs) agent_name
            = Some (CommBuffer.receiveAll_spec Z 0 agents
                      (CommBuffer.run Z cfg cs) agent_name)).
Proof.
  cbn zeta. repeat (split; [reflexivity|]).
  intros [agents H].
  pose proof (H [CommBuffer.Send "B" [2] 0; CommBuffer.Send "C" [3] 0]%string "A"%string) as H1.
  pose proof (H [CommBuffer.Send "C" [3] 0; CommBuffer.Send "B" [2] 0]%string "A"%string) as H2.
  assert (Hsame :
    CommBuffer.receiveAll_spec Z 0 agents
      (CommBuffer.run Z (CommBuffer.mkConfig 1 3)
         [CommBuffer.Send "B" [2] 0; CommBuffer.Send "C" [3] 0]%string) "A"%string
    = CommBuffer.receiveAll_spec Z 0 agents
      (CommBuffer.run Z (CommBuffer.mkConfig 1 3)
         [CommBuffer.Send "C" [3] 0; CommBuffer.Send "B" [2] 0]%string) "A"%string).
  { assert (E1 : CommBuffer.run Z (CommBuffer.mkConfig 1 3)
                   [CommBuffer.Send "B" [2] 0; CommBuffer.Send "C" [3] 0]%string
                 = CommBuffer.mkBuffer Z (CommBuffer.mkConfig 1 3)
                     [("B", [2]); ("C", [3])]%string [] false
                     [("B", 0); ("C", 0)]%string []) by reflexivity.
    assert (E2 : CommBuffer.run Z (CommBuffer.mkConfig 1 3)
                   [CommBuffer.Send "C" [3] 0; CommBuffer.Send "B" [2] 0]%string
                 = CommBuffer.mkBuffer Z (CommBuffer.mkConfig 1 3)
                     [("C", [3]); ("B", [2])]%string [] false
                     [("C", 0); ("B", 0)]%string []) by reflexivity.
    rewrite E1, E2.
    unfold CommBuffer.receiveAll_spec. apply f_equal. apply map_ext. intros a.
    cbn [CommBuffer._buffer CommBuffer._killed CommBuffer.config CommBuffer.masked
         CommBuffer.signal_dim PyDict.get].
    destruct (String.eqb "B" a) eqn:EB; destruct (String.eqb "C" a) eqn:EC;
      try reflexivity.
    apply String.eqb_eq in EB, EC. congruence. }
  rewrite Hsame in H1. rewrite <- H2 in H1. vm_compute in H1. discriminate H1.
Qed.

(** ** SHA-256: standard test vectors *)

Example sha256_empty :
  Sha256.sha256_hex ""
  = "e3b0c44298fc1c149afbf4c8996fb92427ae41e4649b934ca495991b7852b855"%string.
Proof. vm_compute. reflexivity. Qed.

Example sha256_abc :
  Sha256.sha256_hex "abc"
  = "ba7816bf8f01cfea414140de5dae2223b00361a396177a9cb410ff61f20015ad"%string.
Proof. vm_compute. reflexivity. Qed.

Example sha256_two_blocks :
  Sha256.sha256_hex "abcdbcdecdefdefgefghfghighijhijkijkljklmklmnlmnomnopnopq"
  = "248d6a61d20638b8e5c026930c3e6039a33ce45964ff2167f6ecedd419db06c1"%string.
Proof. vm_compute. reflexivity. Qed.

(** ** JSON: the encoder and the decoder on examples *)

Section JsonExamples.
Import Json.
Local Open Scope string_scope.

Example dumps_sorts_keys :
  dumps (PDict [(KStr "b", PInt 2); (KStr "a", PInt 1)])
  = Some (dq "{'a':1,'b':2}").
Proof. reflexivity. Qed.

Example dumps_nested :
  dumps (PDict [(KStr "x", PList [PNone; PBool true; PFloat (FFin "1.5"); PStr "a/b"]);
                (KStr "o", PObj "tensor(1.)");
                (KStr "e", PDict [])])
  = Some (dq "{'e':{},'o':'tensor(1.)','x':[null,true,1.5,'a/b']}").
Proof. reflexivity. Qed.

Example dumps_int_keys_numeric_order :
  dumps (PDict [(KInt 10, PInt 0); (KInt 2, PInt 0)])
  = Some (dq "{'2':0,'10':0}").
Proof. reflexivity. Qed.

Example dumps_mixed_keys_raises :
  dumps (PDict [(KInt 1, PInt 0); (KStr "a", PInt 0)]) = None.
Proof. reflexivity. Qed.

Example loads_with_white_space :
  loads (dq " { 'a' : [ 1 , -2.5e3 , 'xA\n' ] , 'b' : { } } ")
  = Some (PDict [(KStr "a", PList [PInt 1; PFloat (FFin "-2.5e3");
                                   PStr (String "x" (String "A" (String (ascii_of_N 10) "")))]);
                 (KStr "b", PDict [])]).
Proof. vm_compute. reflexivity. Qed.

Example loads_duplicate_key_last_wins :
  loads (dq "{'a':1,'b':2,'a':3}")
  = Some (PDict [(KStr "a", PInt 3); (KStr "b", PInt 2)]).
Proof. vm_compute. reflexivity. Qed.

Example loads_rejects :
  map loads [dq "[1,]"; "01"; "1."; "1e"; dq "{'a':1"; "[1] x"; dq "'a"; "nul"; "-"; ""]
  = [None; None; None; None; None; None; None; None; None; None].
Proof. vm_compute. reflexivity. Qed.

Example loads_constants :
  map loads ["null"; "true"; "false"; "NaN"; "Infinity"; "-Infinity"; "-0"; "0"; "-12"]
  = [Some PNone; Some (PBool true); Some (PBool false); Some (PFloat FNan);
     Some (PFloat (FInf false)); Some (PFloat (FInf true));
     Some (PInt 0); Some (PInt 0); Some (PInt (-12))].
Proof. vm_compute. reflexivity. Qed.
End JsonExamples.

(** ** Hash chain: examples *)

Section HashChainExamples.
Import Json HashChain.
Local Open Scope string_scope.

Example scenario_hash :
  build_chain [[(KStr "epoch", PInt 0); (KStr "value", PFloat (FFin "1.23"))]] 42
  = Some [mkEntry (PInt 0)
            "d8fca8036a2524482bfe18cf1e755afde63b3e68ffb65f87635eb44d6386b6bd"
            GENESIS_HASH (dq "{'epoch':0,'value':1.23}")].
Proof. vm_compute. reflexivity. Qed.

Example int_keys_chain :
  match build_chain [[(KInt 2, PInt 0); (KInt 10, PInt 0)]] 0 with
  | Some c => verify_chain c 0
  | None => None
  end = Some (false, Some (PInt 0)).
Proof. vm_compute. reflexivity. Qed.
End HashChainExamples.

(** ** JSON: decoding what the encoder wrote *)

Section JsonStrings.
Import Json.
Local Open Scope string_scope.

Lemma string_app_assoc (a b c : string) : (a ++ b) ++ c = a ++ (b ++ c).
Proof. induction a as [|x a IH]; cbn; [reflexivity | now rewrite IH]. Qed.

Lemma string_app_nil_r (a : string) : a ++ "" = a.
Proof. induction a as [|x a IH]; cbn; [reflexivity | now rewrite IH]. Qed.

(** One escaped character is read back as the character. *)
Lemma scan_string_escape_char (c : ascii) (t : string) :
  scan_string (escape_char c ++ t) = cons_char c (scan_string t).
Proof.
  destruct c as [[] [] [] [] [] [] [] []]; reflexivity.
Qed.

Lemma scan_string_escape (s rest : string) :
  scan_string (escape s ++ String dquote rest) = Some (s, rest).
Proof.
  induction s as [|c s IH]; cbn [escape].
  - reflexivity.
  - rewrite string_app_assoc, scan_string_escape_char, IH. reflexivity.
Qed.

Lemma starts_with_app (p rest : string) : starts_with p (p ++ rest) = Some rest.
Proof.
  induction p as [|a p IH]; cbn; [reflexivity|].
  now rewrite Ascii.eqb_refl.
Qed.
End JsonStrings.

Section JsonNumbers.
Import Json.
Local Open Scope string_scope.

Lemma follow_ok_nondigit (rest : string) :
  follow_ok rest = true -> nondigit_head rest = true.
Proof.
  destruct rest as [|c r]; cbn; [reflexivity|].
  destruct (is_digit c); cbn; [discriminate | reflexivity].
Qed.

Lemma span_digits_app (s d t rest : string) :
  span_digits s = (d, t) ->
  (t = "" -> nondigit_head rest = true) ->
  span_digits (s ++ rest) = (d, t ++ rest).
Proof.
  revert d t. induction s as [|c s IH]; intros d t H Hr; cbn [span_digits append] in *.
  - injection H as <- <-. cbn [append].
    specialize (Hr eq_refl). destruct rest as [|c r]; [reflexivity|].
    cbn [span_digits]. cbn in Hr. now destruct (is_digit c).
  - destruct (is_digit c).
    + destruct (span_digits s) as [d1 t1]. injection H as <- <-.
      now rewrite (IH d1 t1 eq_refl Hr).
    + injection H as <- <-. reflexivity.
Qed.

Lemma scan_fraction_app (t fr t' rest : string) :
  scan_fraction t = Some (fr, t') -> follow_ok rest = true ->
  scan_fraction (t ++ rest) = Some (fr, t' ++ rest).
Proof.
  intros H Hf. destruct t as [|c r]; cbn [scan_fraction append] in *.
  - injection H as <- <-. cbn [append]. destruct rest as [|c r]; [reflexivity|].
    cbn [scan_fraction]. cbn in Hf.
    destruct (Ascii.eqb c "."); [|reflexivity].
    rewrite orb_true_r in Hf. discriminate.
  - destruct (Ascii.eqb c ".").
    + destruct (span_digits r) as [d t1] eqn:E.
      rewrite (span_digits_app r d t1 rest E (fun _ => follow_ok_nondigit _ Hf)).
      destruct d; [discriminate|]. now injection H as <- <-.
    + now injection H as <- <-.
Qed.

Lemma scan_exponent_app (t ex t' rest : string) :
  scan_exponent t = Some (ex, t') -> follow_ok rest = true ->
  scan_exponent (t ++ rest) = Some (ex, t' ++ rest).
Proof.
  intros H Hf. destruct t as [|c r]; cbn [scan_exponent append] in *.
  - injection H as <- <-. cbn [append]. destruct rest as [|c r]; [reflexivity|].
    cbn [scan_exponent]. cbn in Hf.
    destruct (Ascii.eqb c "e"); [rewrite orb_true_r in Hf; discriminate|].
    destruct (Ascii.eqb c "E"); [rewrite orb_true_r in Hf; discriminate|].
    reflexivity.
  - destruct (Ascii.eqb c "e" || Ascii.eqb c "E").
    + destruct r as [|c1 r1].
      * cbn in H. discriminate.
      * cbn [scan_sign append] in *.
        destruct (Ascii.eqb c1 "+" || Ascii.eqb c1 "-").
        -- destruct (span_digits r1) as [d t1] eqn:E.
           rewrite (span_digits_app r1 d t1 rest E (fun _ => follow_ok_nondigit _ Hf)).
           destruct d; [discriminate|]. now injection H as <- <-.
        -- change (String c1 (r1 ++ rest)) with (String c1 r1 ++ rest).
           destruct (span_digits (String c1 r1)) as [d t1] eqn:E.
           rewrite (span_digits_app _ d t1 rest E (fun _ => follow_ok_nondigit _ Hf)).
           destruct d; [discriminate|]. now injection H as <- <-.
    + now injection H as <- <-.
Qed.

(** A number scanned to the end of a text is scanned the same way when
    the text is followed by anything but a digit, a dot or an exponent mark. *)
Lemma scan_number_app (s sg ip fr ex rest : string) :
  scan_number s = Some (sg, ip, fr, ex, "") -> follow_ok rest = true ->
  scan_number (s ++ rest) = Some (sg, ip, fr, ex, rest).
Proof.
  intros H Hf. unfold scan_number in *.
  assert (Hm : forall sg0 s1, scan_minus s = (sg0, s1) -> s <> "" ->
                              scan_minus (s ++ rest) = (sg0, s1 ++ rest)).
  { intros sg0 s1 E Hne. destruct s as [|c r]; [contradiction|].
    cbn [scan_minus append] in *. destruct (Ascii.eqb c "-"); now injection E as <- <-. }
  destruct (scan_minus s) as [sg0 s1] eqn:Em.
  destruct s as [|c0 r0]; [cbn in Em; injection Em as <- <-; cbn in H; discriminate|].
  rewrite (Hm sg0 s1 eq_refl ltac:(discriminate)).
  destruct (span_digits s1) as [ip0 s2] eqn:Ed.
  rewrite (span_digits_app s1 ip0 s2 rest Ed (fun _ => follow_ok_nondigit _ Hf)).
  destruct ip0 as [|c ip']; [discriminate|].
  destruct (Ascii.eqb c "0" && negb (String.eqb ip' "")); [discriminate|].
  destruct (scan_fraction s2) as [[fr0 s3]|] eqn:Ef; [|discriminate].
  rewrite (scan_fraction_app s2 fr0 s3 rest Ef Hf).
  destruct (scan_exponent s3) as [[ex0 s4]|] eqn:Ee; [|discriminate].
  rewrite (scan_exponent_app s3 ex0 s4 rest Ee Hf).
  injection H as <- <- <- <- ->. reflexivity.
Qed.

Lemma parse_number_float (r rest : string) :
  float_repr_ok r = true -> follow_ok rest = true ->
  parse_number (r ++ rest) = Some (PFloat (FFin r), rest).
Proof.
  unfold float_repr_ok, parse_number. intros H Hf.
  destruct (scan_number r) as [[[[[sg ip] fr] ex] t]|] eqn:E; [|discriminate].
  destruct t; [|discriminate].
  rewrite (scan_number_app r sg ip fr ex rest E Hf).
  apply andb_prop in H. destruct H as [H1 H2].
  apply negb_true_iff in H1. rewrite H1.
  apply String.eqb_eq in H2. now rewrite H2.
Qed.

(** Decimal digits as printed by the standard library are digits. *)
Lemma span_digits_uint (d : Decimal.uint) (rest : string) :
  nondigit_head rest = true ->
  span_digits (DecimalString.NilEmpty.string_of_uint d ++ rest)
  = (DecimalString.NilEmpty.string_of_uint d, rest).
Proof.
  intros Hr. induction d; cbn [DecimalString.NilEmpty.string_of_uint append span_digits];
    try (change (is_digit _) with true; cbn iota; now rewrite IHd).
  destruct rest as [|c r]; [reflexivity|].
  cbn [span_digits]. cbn in Hr. now destruct (is_digit c).
Qed.

(** The printed digits of a positive number do not start with a zero. *)
Lemma to_uint_head (p : positive) :
  forall d', Pos.to_uint p <> Decimal.D0 d'.
Proof.
  intros d' H.
  pose proof (DecimalPos.Unsigned.to_of (Pos.to_uint p)) as Hn.
  rewrite DecimalPos.Unsigned.of_to in Hn. cbn [N.to_uint] in Hn.
  unfold Decimal.unorm in Hn.
  destruct (Decimal.nzhead (Pos.to_uint p)) eqn:E; try congruence.
  - apply (DecimalPos.Unsigned.to_uint_nonzero p). now rewrite Hn.
  - now apply DecimalFacts.nzhead_nonzero in E.
Qed.

Lemma follow_ok_fraction (rest : string) :
  follow_ok rest = true -> scan_fraction rest = Some ("", rest).
Proof.
  destruct rest as [|c r]; cbn; [reflexivity|].
  destruct (Ascii.eqb c "."); [rewrite orb_true_r; discriminate | reflexivity].
Qed.

Lemma follow_ok_exponent (rest : string) :
  follow_ok rest = true -> scan_exponent rest = Some ("", rest).
Proof.
  destruct rest as [|c r]; cbn; [reflexivity|].
  destruct (Ascii.eqb c "e"); [rewrite !orb_true_r; discriminate|].
  destruct (Ascii.eqb c "E"); [rewrite !orb_true_r; discriminate|].
  reflexivity.
Qed.

(** The scan of the digits of a positive number. *)
Lemma scan_number_pos (p : positive) (rest : string) :
  follow_ok rest = true ->
  let ds := DecimalString.NilEmpty.string_of_uint (Pos.to_uint p) in
  scan_number (ds ++ rest) = Some ("", ds, "", "", rest)
  /\ scan_number (String "-" (ds ++ rest)) = Some ("-", ds, "", "", rest).
Proof.
  intros Hf ds.
  assert (Hspan := span_digits_uint (Pos.to_uint p) rest (follow_ok_nondigit _ Hf)).
  fold ds in Hspan.
  pose proof (to_uint_head p) as Hh.
  pose proof (DecimalPos.Unsigned.to_uint_nonnil p) as Hnil.
  assert (Hds : exists c ip', ds = String c ip' /\ Ascii.eqb c "0" = false
                              /\ Ascii.eqb c "-" = false).
  { subst ds. destruct (Pos.to_uint p) as [|u|u|u|u|u|u|u|u|u|u];
      cbn [DecimalString.NilEmpty.string_of_uint];
      try (eexists; eexists; split; [reflexivity | split; reflexivity]).
    - contradiction.
    - exfalso. now apply (Hh u). }
  destruct Hds as (c & ip' & Eds & Hc0 & Hcm).
  unfold scan_number. split.
  - replace (scan_minus (ds ++ rest)) with ("", ds ++ rest)
      by (rewrite Eds; cbn [append scan_minus]; now rewrite Hcm).
    rewrite Hspan, Eds, Hc0. cbn [andb].
    now rewrite follow_ok_fraction, follow_ok_exponent.
  - cbn [scan_minus]. rewrite Ascii.eqb_refl.
    rewrite Hspan, Eds, Hc0. cbn [andb].
    now rewrite follow_ok_fraction, follow_ok_exponent.
Qed.

Lemma int_of_digits_pos (p : positive) :
  let ds := DecimalString.NilEmpty.string_of_uint (Pos.to_uint p) in
  int_of_digits "" ds = Some (Z.pos p) /\ int_of_digits "-" ds = Some (Z.neg p).
Proof.
  cbn zeta. unfold int_of_digits.
  rewrite DecimalString.NilEmpty.usu.
  unfold Z.of_uint. rewrite DecimalPos.Unsigned.of_to. cbn. auto.
Qed.

(** An integer is read back from its decimal text. *)
Lemma parse_number_int (z : Z) (rest : string) :
  follow_ok rest = true ->
  parse_number (int_text z ++ rest) = Some (PInt z, rest).
Proof.
  intros Hf. unfold parse_number, int_text.
  destruct z as [|p|p]; cbn [Z.to_int DecimalString.NilZero.string_of_int].
  - change (DecimalString.NilZero.string_of_uint (Decimal.D0 Decimal.Nil) ++ rest)
      with (String "0" rest).
    unfold scan_number. cbn [scan_minus Ascii.eqb Bool.eqb span_digits].
    change (is_digit "0") with true. cbn iota.
    assert (Hs : span_digits rest = ("", rest)).
    { pose proof (follow_ok_nondigit _ Hf) as Hn.
      destruct rest as [|c r]; [reflexivity|]. cbn in *. now destruct (is_digit c). }
    rewrite Hs. cbn.
    now rewrite follow_ok_fraction, follow_ok_exponent.
  - replace (DecimalString.NilZero.string_of_uint (Pos.to_uint p))
      with (DecimalString.NilEmpty.string_of_uint (Pos.to_uint p)).
    + rewrite (proj1 (scan_number_pos p rest Hf)). cbn [String.eqb andb].
      now rewrite (proj1 (int_of_digits_pos p)).
    + pose proof (DecimalPos.Unsigned.to_uint_nonnil p).
      now destruct (Pos.to_uint p).
  - replace (DecimalString.NilZero.string_of_uint (Pos.to_uint p))
      with (DecimalString.NilEmpty.string_of_uint (Pos.to_uint p)).
    + cbn [append]. rewrite (proj2 (scan_number_pos p rest Hf)). cbn [String.eqb andb].
      now rewrite (proj2 (int_of_digits_pos p)).
    + pose proof (DecimalPos.Unsigned.to_uint_nonnil p).
      now destruct (Pos.to_uint p).
Qed.
End JsonNumbers.


Section JsonStructure.
Import Json.
Local Open Scope string_scope.

(** Induction on values, through lists and dictionaries. *)
Lemma pyval_ind (P : pyval -> Prop) :
  P PNone ->
  (forall b, P (PBool b)) ->
  (forall z, P (PInt z)) ->
  (forall f, P (PFloat f)) ->
  (forall s, P (PStr s)) ->
  (forall l, Forall P l -> P (PList l)) ->
  (forall d, Forall (fun kv => P (snd kv)) d -> P (PDict d)) ->
  (forall s, P (PObj s)) ->
  forall v, P v.
Proof.
  intros HN HB HI HF HS HL HD HO.
  fix IH 1. intros v. destruct v as [|b|z|f|s|l|d|s].
  - exact HN.
  - apply HB.
  - apply HI.
  - apply HF.
  - apply HS.
  - apply HL. induction l as [|x l IHl]; constructor; [apply IH | exact IHl].
  - apply HD. induction d as [|[k x] d IHd]; constructor; [apply IH | exact IHd].
  - apply HO.
Qed.

Lemma dumps_PList (l : list pyval) :
  dumps (PList l) =
  match dumps_elements l with
  | Some parts => Some ("[" ++ String.concat "," parts ++ "]")
  | None => None
  end.
Proof.
  cbn [dumps].
  match goal with
  | |- match ?f l with _ => _ end = _ =>
      assert (E : forall l0, f l0 = dumps_elements l0)
  end.
  { induction l0 as [|x l0 IH0]; cbn [dumps_elements]; [reflexivity|].
    now rewrite IH0. }
  now rewrite E.
Qed.

Lemma dumps_PDict (d : list (pykey * pyval)) :
  dumps (PDict d) =
  match dumps_members d with
  | Some kvs =>
      match sort_items kvs with
      | Some items => Some ("{" ++ String.concat "," (map member_text items) ++ "}")
      | None => None
      end
  | None => None
  end.
Proof.
  cbn [dumps].
  match goal with
  | |- match ?f d with _ => _ end = _ =>
      assert (E : forall d0, f d0 = dumps_members d0)
  end.
  { induction d0 as [|[k x] d0 IH0]; cbn [dumps_members]; [reflexivity|].
    now rewrite IH0. }
  now rewrite E.
Qed.

Lemma str_keyed_PList (l : list pyval) :
  str_keyed (PList l) = forallb str_keyed l.
Proof.
  cbn [str_keyed]. induction l as [|x l IH]; cbn [forallb]; [reflexivity|].
  now rewrite IH.
Qed.

Lemma pykey_eqb_spec (a b : pykey) : pykey_eqb a b = true <-> a = b.
Proof.
  destruct a, b; cbn; split; intros H; try discriminate.
  - apply String.eqb_eq in H. now subst.
  - injection H as ->. apply String.eqb_refl.
  - apply Z.eqb_eq in H. now subst.
  - injection H as ->. apply Z.eqb_refl.
Qed.

Lemma str_keyed_PDict (d : list (pykey * pyval)) :
  str_keyed (PDict d) = true ->
  Forall (fun kv => is_KStr (fst kv) = true /\ str_keyed (snd kv) = true) d
  /\ NoDup (PyDict.keys d).
Proof.
  cbn [str_keyed]. induction d as [|[k x] d IH].
  - intros _. split; constructor.
  - destruct k as [s|z]; [|discriminate].
    intros H. apply andb_prop in H. destruct H as [H Hd].
    apply andb_prop in H. destruct H as [Hm Hx].
    destruct (IH Hd) as [IH1 IH2]. split.
    + constructor; [split; [reflexivity | exact Hx] | exact IH1].
    + cbn [PyDict.keys map fst]. constructor; [|exact IH2].
      apply negb_true_iff in Hm. unfold PyDict.mem in Hm.
      destruct (PyDict.get pykey_eqb d (KStr s)) eqn:E; [discriminate|].
      now apply (get_None_not_in pykey_eqb pykey_eqb_spec) in E.
Qed.

(** *** Sorting the items of a dictionary *)

Lemma key_leb_total_str (a b : pykey) :
  is_KStr a = true -> is_KStr b = true ->
  key_leb a b = Some false -> key_leb b a = Some true.
Proof.
  destruct a as [x|], b as [y|]; try discriminate. intros _ _. cbn.
  intros [= H]. destruct (String.leb_total x y) as [E|E]; congruence.
Qed.

Lemma key_leb_str (a b : pykey) :
  is_KStr a = true -> is_KStr b = true -> exists r, key_leb a b = Some r.
Proof.
  destruct a, b; try discriminate. intros _ _. cbn. eauto.
Qed.

Lemma insert_item_perm {A} (x : pykey * A) (l l' : list (pykey * A)) :
  insert_item x l = Some l' -> Permutation (x :: l) l'.
Proof.
  revert l'. induction l as [|y r IH]; intros l'; cbn [insert_item].
  - intros [= <-]. apply Permutation_refl.
  - destruct (key_leb (fst x) (fst y)) as [[]|]; [| |discriminate].
    + intros [= <-]. apply Permutation_refl.
    + destruct (insert_item x r) as [r'|]; [|discriminate].
      intros [= <-]. eapply perm_trans; [apply perm_swap|].
      apply perm_skip. now apply IH.
Qed.

Lemma sort_items_perm {A} (l l' : list (pykey * A)) :
  sort_items l = Some l' -> Permutation l l'.
Proof.
  revert l'. induction l as [|x r IH]; intros l'; cbn [sort_items].
  - intros [= <-]. constructor.
  - destruct (sort_items r) as [r'|]; [|discriminate].
    intros H. apply insert_item_perm in H.
    eapply perm_trans; [apply perm_skip, IH; reflexivity | exact H].
Qed.

(** Keys of one kind compare without an exception. *)
Lemma insert_item_total_kind {A} (kind : pykey -> bool)
      (x : pykey * A) (l : list (pykey * A)) :
  (forall a b, kind a = true -> kind b = true -> exists r, key_leb a b = Some r) ->
  kind (fst x) = true -> Forall (fun kv => kind (fst kv) = true) l ->
  exists l', insert_item x l = Some l'.
Proof.
  intros Hcmp Hx. induction l as [|y r IH]; intros Hl; cbn [insert_item].
  - eauto.
  - inversion Hl as [|? ? Hy Hr]; subst.
    destruct (Hcmp _ _ Hx Hy) as [[] ->]; [eauto|].
    destruct (IH Hr) as [r' ->]. cbn. eauto.
Qed.

Lemma sort_items_total_kind {A} (kind : pykey -> bool) (l : list (pykey * A)) :
  (forall a b, kind a = true -> kind b = true -> exists r, key_leb a b = Some r) ->
  Forall (fun kv => kind (fst kv) = true) l ->
  exists l', sort_items l = Some l'.
Proof.
  intros Hcmp. induction l as [|x r IH]; intros Hl; cbn [sort_items].
  - eauto.
  - inversion Hl as [|? ? Hx Hr]; subst.
    destruct (IH Hr) as [r' E]. rewrite E.
    apply (insert_item_total_kind kind); [exact Hcmp | exact Hx|].
    eapply Permutation_Forall; [apply sort_items_perm, E | exact Hr].
Qed.

Lemma key_leb_int (a b : pykey) :
  is_KInt a = true -> is_KInt b = true -> exists r, key_leb a b = Some r.
Proof.
  destruct a, b; try discriminate. intros _ _. cbn. eauto.
Qed.

Lemma sort_items_total {A} (l : list (pykey * A)) :
  str_keys l -> exists l', sort_items l = Some l'.
Proof. apply (sort_items_total_kind is_KStr), key_leb_str. Qed.

Lemma insert_item_sorted {A} (x : pykey * A) (l l' : list (pykey * A)) :
  is_KStr (fst x) = true -> str_keys l ->
  Sorted key_le l -> insert_item x l = Some l' -> Sorted key_le l'.
Proof.
  intros Hx. revert l'. induction l as [|y r IH]; intros l' Hl Hs; cbn [insert_item].
  - intros [= <-]. repeat constructor.
  - inversion Hl as [|? ? Hy Hr]; subst.
    destruct (key_leb (fst x) (fst y)) as [[]|] eqn:E; [| |discriminate].
    + intros [= <-]. constructor; [exact Hs|]. constructor. exact E.
    + destruct (insert_item x r) as [r'|] eqn:Ei; [|discriminate].
      intros [= <-]. inversion Hs as [|? ? Hsr Hhd]; subst.
      constructor; [now apply IH|].
      destruct r as [|z r0]; cbn [insert_item] in Ei.
      * injection Ei as <-. constructor. now apply key_leb_total_str.
      * destruct (key_leb (fst x) (fst z)) as [[]|]; [| |discriminate].
        -- injection Ei as <-. constructor. now apply key_leb_total_str.
        -- destruct (insert_item x r0); [|discriminate].
           injection Ei as <-. constructor. now inversion Hhd.
Qed.

Lemma sort_items_sorted {A} (l l' : list (pykey * A)) :
  str_keys l -> sort_items l = Some l' -> Sorted key_le l'.
Proof.
  revert l'. induction l as [|x r IH]; intros l' Hl; cbn [sort_items].
  - intros [= <-]. constructor.
  - inversion Hl as [|? ? Hx Hr]; subst.
    destruct (sort_items r) as [r'|] eqn:E; [|discriminate].
    intros Hi. eapply insert_item_sorted; [exact Hx | | now apply IH | exact Hi].
    unfold str_keys. eapply Permutation_Forall; [apply sort_items_perm, E | exact Hr].
Qed.

(** Sorting a sorted list changes nothing. *)
Lemma sort_items_sorted_id {A} (l : list (pykey * A)) :
  Sorted key_le l -> sort_items l = Some l.
Proof.
  induction l as [|x r IH]; intros Hs; cbn [sort_items]; [reflexivity|].
  inversion Hs as [|? ? Hsr Hhd]; subst.
  rewrite (IH Hsr). destruct r as [|y r0]; cbn [insert_item]; [reflexivity|].
  inversion Hhd as [|? ? Hle]; subst. unfold key_le in Hle. now rewrite Hle.
Qed.

Lemma sorted_map_keys {A B} (f : pykey * A -> pykey * B) (l : list (pykey * A)) :
  (forall kv, fst (f kv) = fst kv) ->
  Sorted key_le l -> Sorted key_le (map f l).
Proof.
  intros Hf. induction l as [|x r IH]; intros Hs; cbn [map]; [constructor|].
  inversion Hs as [|? ? Hsr Hhd]; subst. constructor; [now apply IH|].
  destruct r as [|y r0]; cbn [map]; constructor.
  inversion Hhd as [|? ? Hle]; subst. unfold key_le in *. now rewrite !Hf.
Qed.

(** [dict(pairs)] on pairs with distinct keys keeps the pairs. *)
Lemma update_NoDup {K V} (keq : K -> K -> bool)
      (keq_ok : forall a b, keq a b = true <-> a = b)
      (e d : list (K * V)) :
  NoDup (PyDict.keys d ++ PyDict.keys e) -> PyDict.update keq d e = (d ++ e)%list.
Proof.
  revert d. induction e as [|[k v] e IH]; intros d Hnd; cbn [PyDict.update fold_left].
  - now rewrite app_nil_r.
  - cbn [PyDict.keys map fst] in Hnd. cbn [fst snd].
    rewrite (set_new keq keq_ok).
    + fold (PyDict.update keq (d ++ [(k, v)]) e). rewrite IH.
      * now rewrite <- app_assoc.
      * unfold PyDict.keys in *. rewrite map_app. cbn [map fst].
        now rewrite <- app_assoc.
    + apply NoDup_remove_2 in Hnd. intros Hin. apply Hnd. apply in_or_app. now left.
Qed.

Lemma of_pairs_NoDup (e : list (pykey * pyval)) :
  NoDup (PyDict.keys e) -> PyDict.of_pairs pykey_eqb e = e.
Proof.
  intros H. unfold PyDict.of_pairs.
  now rewrite (update_NoDup pykey_eqb pykey_eqb_spec e []).
Qed.
End JsonStructure.

Section JsonReadBack.
Import Json.
Local Open Scope string_scope.

Lemma string_length_app (a b : string) :
  String.length (a ++ b) = (String.length a + String.length b)%nat.
Proof. induction a as [|c a IH]; cbn; [reflexivity | now rewrite IH]. Qed.

Lemma delim_follow_ok (rest : string) : delim rest = true -> follow_ok rest = true.
Proof.
  destruct rest as [|c r]; [reflexivity|]. cbn [delim follow_ok].
  destruct c as [[] [] [] [] [] [] [] []]; cbn; intros H; try discriminate H; reflexivity.
Qed.

Lemma delim_skip_ws (rest : string) : delim rest = true -> skip_ws rest = rest.
Proof.
  destruct rest as [|c r]; [reflexivity|]. cbn [delim skip_ws].
  destruct c as [[] [] [] [] [] [] [] []]; cbn; intros H; try discriminate H; reflexivity.
Qed.

Lemma head_ok_skip_ws (j t : string) : head_ok j = true -> skip_ws (j ++ t) = j ++ t.
Proof.
  destruct j as [|c r]; [discriminate|]. cbn [head_ok append skip_ws].
  destruct (is_ws c); [discriminate | reflexivity].
Qed.

Lemma head_ok_app (j t : string) : head_ok j = true -> head_ok (j ++ t) = true.
Proof. destruct j; [discriminate | trivial]. Qed.

Lemma parse_number_head (s : string) (res : pyval * string) :
  parse_number s = Some res ->
  exists c r, s = String c r /\ number_head c = true.
Proof.
  destruct s as [|c r]; [discriminate|]. intros H. exists c, r. split; [reflexivity|].
  unfold number_head. destruct (Ascii.eqb c "-") eqn:Em; [apply orb_true_r|].
  rewrite orb_false_r. unfold parse_number, scan_number in H.
  cbn [scan_minus] in H. rewrite Em in H. cbn [span_digits] in H.
  destruct (is_digit c); [reflexivity | discriminate].
Qed.

(** On a minus sign or a digit [scan_once] goes to the number branch. *)
Lemma parse_value_number_branch (c : ascii) (r : string) (f : nat) :
  number_head c = true ->
  parse_value (S f) (String c r) =
  match parse_number (String c r) with
  | Some res => Some res
  | None =>
      match starts_with "NaN" (String c r), starts_with "Infinity" (String c r),
            starts_with "-Infinity" (String c r) with
      | Some rest, _, _ => Some (PFloat FNan, rest)
      | _, Some rest, _ => Some (PFloat (FInf false), rest)
      | _, _, Some rest => Some (PFloat (FInf true), rest)
      | None, None, None => None
      end
  end.
Proof.
  destruct c as [[] [] [] [] [] [] [] []]; intros H; vm_compute in H;
    try discriminate H; reflexivity.
Qed.

Lemma parse_value_number (s : string) (res : pyval * string) (f : nat) :
  parse_number s = Some res -> parse_value (S f) s = Some res.
Proof.
  intros H. destruct (parse_number_head s res H) as (c & r & -> & Hc).
  rewrite parse_value_number_branch by exact Hc. now rewrite H.
Qed.

Lemma number_head_ok (c : ascii) (r : string) :
  number_head c = true -> head_ok (String c r) = true.
Proof.
  destruct c as [[] [] [] [] [] [] [] []]; intros H; vm_compute in H;
    try discriminate H; reflexivity.
Qed.

Lemma fuel_succ (j : string) (fuel : nat) :
  head_ok j = true -> (2 * String.length j <= fuel)%nat ->
  exists f, fuel = S f.
Proof.
  destruct j; [discriminate|]. cbn [String.length]. intros _ H.
  destruct fuel; [lia | eauto].
Qed.

Lemma reads_back_number (j : string) (v : pyval) :
  dumps v = Some j ->
  (forall rest, follow_ok rest = true -> parse_number (j ++ rest) = Some (v, rest)) ->
  reads_back j v.
Proof.
  intros Hd Hp.
  assert (Hh : head_ok j = true).
  { pose proof (Hp "" eq_refl) as H0. rewrite string_app_nil_r in H0.
    destruct (parse_number_head _ _ H0) as (c & r & -> & Hc).
    now apply number_head_ok. }
  split; [exact Hh|]. split; [exact Hd|].
  intros fuel rest Hfuel Hdel.
  destruct (fuel_succ j fuel Hh Hfuel) as [f ->].
  apply parse_value_number. apply Hp. now apply delim_follow_ok.
Qed.

Lemma reads_back_string (s : string) : reads_back (encode_str s) (PStr s).
Proof.
  split; [reflexivity|]. split; [reflexivity|].
  intros fuel rest Hfuel _.
  destruct (fuel_succ (encode_str s) fuel eq_refl Hfuel) as [f ->].
  unfold encode_str. cbn [append parse_value].
  rewrite Ascii.eqb_refl, string_app_assoc. cbn [append].
  now rewrite scan_string_escape.
Qed.

Lemma reads_back_constant (j : string) (v : pyval) :
  dumps v = Some j -> head_ok j = true ->
  (forall f rest, parse_value (S f) (j ++ rest) = Some (v, rest)) ->
  reads_back j v.
Proof.
  intros Hd Hh Hp. split; [exact Hh|]. split; [exact Hd|].
  intros fuel rest Hfuel _. destruct (fuel_succ j fuel Hh Hfuel) as [f ->]. apply Hp.
Qed.

(** The elements of a list, each read back. *)
Lemma dumps_elements_back (parts : list string) (vs : list pyval) :
  Forall2 reads_back parts vs -> dumps_elements vs = Some parts.
Proof.
  induction 1 as [|j v parts vs (_ & Hd & _) _ IH]; cbn [dumps_elements]; [reflexivity|].
  now rewrite Hd, IH.
Qed.

Lemma concat_cons2 (sep x y : string) (l : list string) :
  String.concat sep (x :: y :: l) = x ++ sep ++ String.concat sep (y :: l).
Proof. reflexivity. Qed.

Lemma concat_head_ok (sep x : string) (l : list string) :
  head_ok x = true -> head_ok (String.concat sep (x :: l)) = true.
Proof.
  intros H. destruct l; [exact H|]. rewrite concat_cons2. now apply head_ok_app.
Qed.

Lemma parse_elements_back (parts : list string) (vs : list pyval) :
  Forall2 reads_back parts vs -> parts <> [] ->
  forall fuel rest,
    (2 * String.length (String.concat "," parts) + 1 <= fuel)%nat ->
    parse_elements fuel (String.concat "," parts ++ String "]" rest)
    = Some (vs, rest).
Proof.
  induction 1 as [|j v parts vs Hjv Hrest IH]; intros Hne fuel rest Hfuel;
    [contradiction|].
  destruct fuel as [|f]; [lia|]. cbn [parse_elements].
  destruct Hjv as (Hh & Hd & Hp).
  destruct parts as [|j2 parts2].
  - inversion Hrest; subst. cbn [String.concat] in *.
    rewrite (Hp f (String "]" rest)) by (cbn; lia || reflexivity).
    reflexivity.
  - rewrite concat_cons2 in *. rewrite string_app_assoc. cbn [append].
    rewrite string_length_app in Hfuel. cbn [append String.length] in Hfuel.
    rewrite (Hp f) by (cbn; lia || reflexivity).
    cbn [skip_ws is_ws N_of_ascii]. cbn.
    assert (Hh2 : head_ok (String.concat "," (j2 :: parts2)) = true).
    { inversion Hrest as [|? ? ? ? (Hh2 & _) _]; subst. now apply concat_head_ok. }
    rewrite head_ok_skip_ws by exact Hh2.
    rewrite IH by (discriminate || lia). reflexivity.
Qed.
End JsonReadBack.

Section JsonRoundTrip.
Import Json.
Local Open Scope string_scope.

Lemma dumps_members_back (items : list (pykey * string))
      (pairs : list (pykey * pyval)) :
  Forall2 item_back items pairs -> dumps_members pairs = Some items.
Proof.
  induction 1 as [|[k j] [k' v] items pairs (Hk & _ & Hd & _) _ IH];
    cbn [dumps_members]; [reflexivity|].
  cbn [fst snd] in *. subst k'. now rewrite Hd, IH.
Qed.

Lemma items_back_keys (items : list (pykey * string))
      (pairs : list (pykey * pyval)) :
  Forall2 item_back items pairs -> PyDict.keys pairs = PyDict.keys items.
Proof.
  induction 1 as [|kj kv items pairs (Hk & _) _ IH]; [reflexivity|].
  unfold PyDict.keys in *. cbn [map]. now rewrite IH, Hk.
Qed.

Lemma member_text_app (s j rest : string) :
  member_text (KStr s, j) ++ rest
  = String dquote (escape s ++ String dquote (String ":" (j ++ rest))).
Proof.
  unfold member_text, encode_str. cbn [fst snd key_str append].
  now rewrite !string_app_assoc.
Qed.

Lemma concat_member_head (k : pykey) (j : string) (l : list string) :
  exists r0, String.concat "," (member_text (k, j) :: l) = String dquote r0.
Proof.
  destruct l; [|rewrite concat_cons2]; eexists; reflexivity.
Qed.

Lemma member_text_head (k : pykey) (j rest : string) :
  head_ok (member_text (k, j) ++ rest) = true.
Proof. reflexivity. Qed.

Lemma parse_members_back (items : list (pykey * string))
      (pairs : list (pykey * pyval)) :
  Forall2 item_back items pairs -> str_keys items -> items <> [] ->
  forall fuel rest,
    (2 * String.length (String.concat "," (map member_text items)) + 1 <= fuel)%nat ->
    parse_members fuel (String.concat "," (map member_text items) ++ String "}" rest)
    = Some (pairs, rest).
Proof.
  induction 1 as [|[k j] [k' v] items pairs Hjv Hrest IH];
    intros Hstr Hne fuel rest Hfuel; [contradiction|].
  destruct fuel as [|f]; [lia|].
  destruct Hjv as (Hk & Hh & Hd & Hp). cbn [fst snd] in *. subst k'.
  inversion Hstr as [|? ? Hks Hstr']; subst. cbn [fst] in Hks.
  destruct k as [s|z]; [|discriminate].
  cbn [map].
  destruct items as [|kj2 items2].
  - inversion Hrest; subst. cbn [map String.concat] in *.
    rewrite member_text_app. cbn [parse_members].
    rewrite Ascii.eqb_refl, scan_string_escape.
    cbn [skip_ws is_ws N_of_ascii]. cbn -[parse_value skip_ws append String.concat].
    rewrite head_ok_skip_ws by exact Hh.
    assert (Hlen : (2 * String.length j <= f)%nat).
    { unfold member_text in Hfuel. rewrite !string_length_app in Hfuel.
      cbn [fst snd String.length] in Hfuel. lia. }
    rewrite (Hp f (String "}" rest) Hlen eq_refl).
    reflexivity.
  - cbn [map] in *. rewrite concat_cons2 in *.
    rewrite string_app_assoc, member_text_app. cbn [parse_members].
    rewrite Ascii.eqb_refl, scan_string_escape.
    cbn [skip_ws is_ws N_of_ascii]. cbn -[parse_value parse_members skip_ws append String.concat].
    rewrite head_ok_skip_ws by exact Hh.
    assert (Hlen : (2 * String.length j <= f
                    /\ 2 * String.length
                             (String.concat "," (member_text kj2 :: map member_text items2))
                       + 1 <= f)%nat).
    { unfold member_text at 1 in Hfuel. rewrite !string_length_app in Hfuel.
      cbn [fst snd String.length] in Hfuel. lia. }
    destruct Hlen as [Hl1 Hl2].
    rewrite string_app_assoc. cbn [append].
    rewrite (Hp f (String "," (String.concat "," (member_text kj2 :: map member_text items2)
                                ++ String "}" rest)) Hl1 eq_refl).
    cbn [skip_ws is_ws N_of_ascii]. cbn -[parse_value parse_members skip_ws append String.concat].
    rewrite head_ok_skip_ws.
    + rewrite (IH Hstr' ltac:(discriminate) f rest Hl2). reflexivity.
    + apply concat_head_ok. destruct kj2. reflexivity.
Qed.

(** The values of a list or the items of a dictionary, one by one. *)
Lemma elements_back (l : list pyval) :
  Forall (fun v => str_keyed v = true ->
                   exists j v', dumps v = Some j /\ reads_back j v') l ->
  forallb str_keyed l = true ->
  exists parts vs, dumps_elements l = Some parts /\ Forall2 reads_back parts vs.
Proof.
  induction 1 as [|x l Hx _ IH]; cbn [forallb dumps_elements]; intros Hs.
  - exists [], []. split; [reflexivity | constructor].
  - apply andb_prop in Hs. destruct Hs as [Hs1 Hs2].
    destruct (Hx Hs1) as (j & v' & Hd & Hb).
    destruct (IH Hs2) as (parts & vs & Hds & Hbs).
    exists (j :: parts), (v' :: vs). rewrite Hd, Hds.
    split; [reflexivity | now constructor].
Qed.

Lemma members_back (d : list (pykey * pyval)) :
  Forall (fun kv => str_keyed (snd kv) = true ->
                    exists j v', dumps (snd kv) = Some j /\ reads_back j v') d ->
  Forall (fun kv => is_KStr (fst kv) = true /\ str_keyed (snd kv) = true) d ->
  exists kvs,
    dumps_members d = Some kvs
    /\ PyDict.keys kvs = PyDict.keys d
    /\ Forall (fun kj => is_KStr (fst kj) = true
                         /\ exists v', reads_back (snd kj) v') kvs.
Proof.
  induction 1 as [|[k x] d Hx _ IH]; cbn [dumps_members]; intros Hs.
  - exists []. repeat split; constructor.
  - inversion Hs as [|? ? [Hk Hsx] Hs']; subst. cbn [fst snd] in *.
    destruct (Hx Hsx) as (j & v' & Hd & Hb).
    destruct (IH Hs') as (kvs & Hds & Hkeys & Hall).
    exists ((k, j) :: kvs). rewrite Hd, Hds.
    split; [reflexivity|]. split.
    + unfold PyDict.keys in *. cbn [map fst]. now rewrite Hkeys.
    + constructor; [|exact Hall]. cbn [fst snd]. eauto.
Qed.

Lemma items_back_exist (items : list (pykey * string)) :
  Forall (fun kj => is_KStr (fst kj) = true /\ exists v', reads_back (snd kj) v') items ->
  exists pairs, Forall2 item_back items pairs.
Proof.
  induction 1 as [|[k j] items (_ & v' & Hb) _ (pairs & IH)].
  - exists []. constructor.
  - exists ((k, v') :: pairs). constructor; [split; [reflexivity | exact Hb] | exact IH].
Qed.

(** Every value with string keys has an encoding, and the decoder reads the
    encoding back as a value with that same encoding. *)
Theorem dumps_reads_back (v : pyval) :
  str_keyed v = true -> exists j v', dumps v = Some j /\ reads_back j v'.
Proof.
  induction v as [|b|z|f|s|l IH|d IH|s] using pyval_ind; intros Hs.
  - exists "null", PNone. split; [reflexivity|].
    apply reads_back_constant; reflexivity.
  - destruct b.
    + exists "true", (PBool true). split; [reflexivity|].
      apply reads_back_constant; reflexivity.
    + exists "false", (PBool false). split; [reflexivity|].
      apply reads_back_constant; reflexivity.
  - exists (int_text z), (PInt z). split; [reflexivity|].
    apply reads_back_number; [reflexivity|].
    intros rest Hf. now apply parse_number_int.
  - destruct f as [|[]|r].
    + exists "NaN", (PFloat FNan). split; [reflexivity|].
      apply reads_back_constant; reflexivity.
    + exists "-Infinity", (PFloat (FInf true)). split; [reflexivity|].
      apply reads_back_constant; reflexivity.
    + exists "Infinity", (PFloat (FInf false)). split; [reflexivity|].
      apply reads_back_constant; reflexivity.
    + exists r, (PFloat (FFin r)). split; [reflexivity|].
      apply reads_back_number; [reflexivity|].
      intros rest Hf. now apply parse_number_float.
  - exists (encode_str s), (PStr s). split; [reflexivity | apply reads_back_string].
  - rewrite str_keyed_PList in Hs.
    destruct (elements_back l IH Hs) as (parts & vs & Hd & Hb).
    exists ("[" ++ String.concat "," parts ++ "]"), (PList vs).
    rewrite dumps_PList, Hd. split; [reflexivity|].
    split; [reflexivity|]. split.
    + now rewrite dumps_PList, (dumps_elements_back parts vs Hb).
    + intros fuel rest Hfuel _. destruct fuel as [|fuel]; [cbn in Hfuel; lia|].
      cbn [append parse_value]. cbn -[parse_value parse_elements skip_ws append String.concat].
      destruct parts as [|j parts].
      * inversion Hb; subst. reflexivity.
      * assert (Hh : head_ok (String.concat "," (j :: parts)) = true).
        { inversion Hb as [|? ? ? ? (Hh & _) _]; subst. now apply concat_head_ok. }
        rewrite string_app_assoc. cbn [append].
        rewrite head_ok_skip_ws by exact Hh.
        destruct (String.concat "," (j :: parts) ++ String "]" rest) as [|c1 r1] eqn:E.
        { destruct (String.concat "," (j :: parts)); discriminate. }
        assert (Hc1 : Ascii.eqb c1 "]" = false).
        { destruct (String.concat "," (j :: parts)) as [|c0 r0]; [discriminate|].
          cbn [append] in E. injection E as <- _. cbn [head_ok] in Hh.
          apply andb_prop in Hh. now apply negb_true_iff. }
        rewrite Hc1, <- E.
        rewrite (parse_elements_back (j :: parts) vs Hb ltac:(discriminate)).
        -- reflexivity.
        -- cbn [append String.length] in Hfuel. rewrite string_length_app in Hfuel. lia.
  - destruct (str_keyed_PDict d Hs) as [Hall Hnd].
    destruct (members_back d IH Hall) as (kvs & Hd & Hkeys & Hkvs).
    assert (Hstr : str_keys kvs).
    { unfold str_keys. eapply Forall_impl; [|exact Hkvs]. now intros kj [H _]. }
    destruct (sort_items_total kvs Hstr) as [items Hsort].
    pose proof (sort_items_perm _ _ Hsort) as Hperm.
    pose proof (sort_items_sorted _ _ Hstr Hsort) as Hsorted.
    assert (Hitems : Forall (fun kj => is_KStr (fst kj) = true
                                       /\ exists v', reads_back (snd kj) v') items)
      by (eapply Permutation_Forall; eassumption).
    destruct (items_back_exist items Hitems) as [pairs Hpairs].
    assert (Hnd' : NoDup (PyDict.keys pairs)).
    { rewrite (items_back_keys items pairs Hpairs).
      eapply Permutation_NoDup; [apply Permutation_map, Hperm|].
      unfold PyDict.keys in Hkeys. unfold PyDict.keys. now rewrite Hkeys. }
    exists ("{" ++ String.concat "," (map member_text items) ++ "}"), (PDict pairs).
    rewrite dumps_PDict, Hd, Hsort. split; [reflexivity|].
    split; [reflexivity|]. split.
    + rewrite dumps_PDict, (dumps_members_back items pairs Hpairs).
      now rewrite (sort_items_sorted_id items Hsorted).
    + intros fuel rest Hfuel _. destruct fuel as [|fuel]; [cbn in Hfuel; lia|].
      cbn [append parse_value].
      cbn -[parse_value parse_members skip_ws append String.concat].
      destruct items as [|kj items].
      * inversion Hpairs; subst. reflexivity.
      * assert (HhC : head_ok (String.concat "," (map member_text (kj :: items))) = true).
        { cbn [map]. apply concat_head_ok. destruct kj. reflexivity. }
        rewrite string_app_assoc. cbn [append].
        rewrite (head_ok_skip_ws _ (String "}" rest) HhC).
        destruct (String.concat "," (map member_text (kj :: items)) ++ String "}" rest)
          as [|c1 r1] eqn:E.
        { destruct (String.concat "," (map member_text (kj :: items))); discriminate. }
        assert (Hc1 : Ascii.eqb c1 "}" = false).
        { cbn [map] in E. destruct kj as [k0 j0].
          destruct (concat_member_head k0 j0 (map member_text items)) as [r0 E0].
          rewrite E0 in E. cbn [append] in E. now injection E as <- _. }
        rewrite Hc1, <- E.
        assert (Hstr' : str_keys (kj :: items)).
        { unfold str_keys. eapply Forall_impl; [|exact Hitems]. now intros kj0 [H _]. }
        rewrite (parse_members_back (kj :: items) pairs Hpairs Hstr' ltac:(discriminate)).
        -- now rewrite (of_pairs_NoDup pairs Hnd').
        -- cbn [append String.length] in Hfuel. rewrite string_length_app in Hfuel. lia.
  - exists (encode_str s), (PStr s). split; [reflexivity | apply reads_back_string].
Qed.

Lemma reads_back_loads (j : string) (v : pyval) :
  reads_back j v -> loads j = Some v.
Proof.
  intros (Hh & _ & Hp). unfold loads.
  rewrite <- (string_app_nil_r j) at 2. rewrite head_ok_skip_ws by exact Hh.
  rewrite (Hp (2 * String.length j + 2)%nat "" ltac:(lia) eq_refl). reflexivity.
Qed.

(** The property the ledger rests on: decoding and re-encoding a canonical
    text gives the same text. *)
Theorem canonical_text_stable (v : pyval) :
  str_keyed v = true ->
  exists j v', dumps v = Some j /\ loads j = Some v' /\ dumps v' = Some j.
Proof.
  intros Hs. destruct (dumps_reads_back v Hs) as (j & v' & Hd & Hb).
  exists j, v'. split; [exact Hd|]. split; [now apply reads_back_loads|].
  now destruct Hb as (_ & Hd' & _).
Qed.
End JsonRoundTrip.

(** ** The hash chain *)

Section HashChainFacts.
Import Json HashChain ChainSpec.
Local Open Scope string_scope.

Lemma fold_build_step_None (seed : Z) (ms : list metrics) :
  fold_left (build_step seed) ms None = None.
Proof. induction ms as [|m ms IH]; [reflexivity | exact IH]. Qed.

(** The loop of [build_chain] appends the entries of [entries_from]. *)
Lemma fold_build_step (seed : Z) (ms : list metrics) (chain : list entry)
      (prev : string) :
  option_map fst (fold_left (build_step seed) ms (Some (chain, prev)))
  = option_map (app chain) (entries_from (length chain) prev ms seed).
Proof.
  revert chain prev. induction ms as [|m ms IH]; intros chain prev;
    cbn [fold_left entries_from].
  - cbn. now rewrite app_nil_r.
  - unfold build_step at 2. unfold compute_hash.
    destruct (canonical_json (PDict m)) as [j|].
    + rewrite IH. rewrite length_app. cbn [length].
      replace (length chain + 1)%nat with (S (length chain)) by lia.
      fold (epoch_of (length chain) m).
      destruct (entries_from (S (length chain)) _ ms seed) as [es|]; cbn [option_map].
      * now rewrite <- app_assoc.
      * reflexivity.
    + now rewrite fold_build_step_None.
Qed.

Lemma build_chain_entries (ms : list metrics) (seed : Z) :
  build_chain ms seed = entries_from 0 GENESIS_HASH ms seed.
Proof.
  unfold build_chain. rewrite fold_build_step. cbn [length app].
  now destruct (entries_from 0 GENESIS_HASH ms seed).
Qed.

(** An entry written by [build_chain] passes both tests of [verify_chain]. *)
Lemma verify_built_entry (prev j : string) (v : pyval) (seed : Z) (ep : pyval)
      (rest : list entry) :
  loads j = Some v -> dumps v = Some j ->
  verify_from prev
    (mkEntry ep (Sha256.sha256_hex (prev ++ "|" ++ j ++ "|" ++ int_text seed)) prev j
       :: rest) seed
  = verify_from (Sha256.sha256_hex (prev ++ "|" ++ j ++ "|" ++ int_text seed)) rest seed.
Proof.
  intros Hl Hd. cbn [verify_from metrics_json hash prev_hash].
  rewrite Hl. unfold compute_hash, canonical_json. rewrite Hd.
  now rewrite !String.eqb_refl.
Qed.

Lemma verify_entries_from (ms : list metrics) (seed : Z) :
  Forall ledger_metrics ms ->
  forall n prev, exists c,
    entries_from n prev ms seed = Some c
    /\ verify_from prev c seed = Some (true, None).
Proof.
  induction 1 as [|m ms Hm _ IH]; intros n prev; cbn [entries_from].
  - exists []. split; reflexivity.
  - destruct (canonical_text_stable (PDict m) Hm) as (j & v' & Hd & Hl & Hd').
    unfold canonical_json. rewrite Hd.
    destruct (IH (S n) (Sha256.sha256_hex (prev ++ "|" ++ j ++ "|" ++ int_text seed)))
      as (c & Hc & Hv).
    rewrite Hc. cbn [option_map]. eexists. split; [reflexivity|].
    now rewrite (verify_built_entry prev j v' seed _ c Hl Hd').
Qed.

Lemma entries_from_epoch (ms : list metrics) (seed : Z) :
  forall n prev c k e m,
    entries_from n prev ms seed = Some c ->
    nth_error c k = Some e -> nth_error ms k = Some m ->
    epoch e = epoch_of (n + k) m.
Proof.
  induction ms as [|m0 ms IH]; intros n prev c k e m Hc He Hm.
  - destruct k; discriminate.
  - cbn [entries_from] in Hc.
    destruct (canonical_json (PDict m0)) as [j|]; [|discriminate].
    destruct (entries_from (S n) _ ms seed) as [c'|] eqn:E; [|discriminate].
    injection Hc as <-. destruct k as [|k].
    + injection He as <-. injection Hm as <-. cbn [epoch]. now rewrite Nat.add_0_r.
    + cbn [nth_error] in He, Hm.
      rewrite (IH _ _ _ _ _ _ E He Hm). f_equal. lia.
Qed.

(** A tampered entry fails one of the two tests. *)
Lemma verify_tampered_entry (prev j : string) (v : pyval) (seed : Z) (ep : pyval)
      (e' : entry) (rest : list entry) :
  loads j = Some v -> dumps v = Some j ->
  tampered seed
    (mkEntry ep (Sha256.sha256_hex (prev ++ "|" ++ j ++ "|" ++ int_text seed)) prev j) e' ->
  verify_from prev (e' :: rest) seed = Some (false, Some ep).
Proof.
  intros Hl Hd Ht.
  inversion Ht as [h Hne|p Hne|j' m' h' Hl' Hh' Hne]; subst; cbn [hash prev_hash] in *;
    cbn [verify_from with_hash with_prev_hash with_metrics_json
         metrics_json hash prev_hash epoch].
  - rewrite Hl. unfold compute_hash, canonical_json. rewrite Hd.
    apply String.eqb_neq in Hne. now rewrite Hne.
  - rewrite Hl. unfold compute_hash, canonical_json. rewrite Hd.
    rewrite String.eqb_refl. apply String.eqb_neq in Hne. now rewrite Hne.
  - rewrite Hl', Hh'.
    assert (Hne' : Sha256.sha256_hex (prev ++ "|" ++ j ++ "|" ++ int_text seed) <> h')
      by congruence.
    apply String.eqb_neq in Hne'. now rewrite Hne'.
Qed.

Lemma verify_tampered_from (ms : list metrics) (seed : Z) :
  Forall ledger_metrics ms ->
  forall n prev c k e e',
    entries_from n prev ms seed = Some c ->
    nth_error c k = Some e -> tampered seed e e' ->
    verify_from prev (set_nth k e' c) seed = Some (false, Some (epoch e)).
Proof.
  induction 1 as [|m ms Hm _ IH]; intros n prev c k e e' Hc He Ht; cbn [entries_from] in Hc.
  - injection Hc as <-. destruct k; discriminate.
  - destruct (canonical_text_stable (PDict m) Hm) as (j & v' & Hd & Hl & Hd').
    unfold canonical_json in Hc. rewrite Hd in Hc.
    destruct (entries_from (S n) _ ms seed) as [c'|] eqn:E; [|discriminate].
    injection Hc as <-. destruct k as [|k]; cbn [set_nth nth_error] in *.
    + injection He as <-. cbn [epoch].
      now apply (verify_tampered_entry prev j v' seed _ e' c' Hl Hd').
    + rewrite (verify_built_entry prev j v' seed _ _ Hl Hd').
      now apply (IH _ _ _ _ _ _ E He Ht).
Qed.
End HashChainFacts.

(** C1, amended.  For every list of metrics dictionaries whose keys are
    strings (at every level, without repetition) and every seed, the chain
    built from it verifies as valid: [verify_chain] returns [(True, None)]. *)
Theorem C1_built_chain_verifies :
  forall (M : list HashChain.metrics) (seed : Z),
    Forall ChainSpec.ledger_metrics M ->
    exists chain,
      HashChain.build_chain M seed = Some chain
      /\ HashChain.verify_chain chain seed = Some (true, None).
Proof.
  intros M seed HM. rewrite build_chain_entries.
  exact (verify_entries_from M seed HM 0%nat HashChain.GENESIS_HASH).
Qed.

(** Two epochs of metrics, seed 42. *)
Lemma C1_built_chain_verifies_witness :
  exists chain,
    HashChain.build_chain
      [ [(Json.KStr "epoch", Json.PInt 0); (Json.KStr "value", Json.PFloat (Json.FFin "0.0"))];
        [(Json.KStr "epoch", Json.PInt 1); (Json.KStr "value", Json.PFloat (Json.FFin "1.5"))] ]%string
      42 = Some chain
    /\ HashChain.verify_chain chain 42 = Some (true, None).
Proof.
  apply C1_built_chain_verifies.
  repeat constructor.
Defined.

(** C1 as stated fails on a dictionary with the integer keys 2 and 10:
    [build_chain] writes them in numeric order, [verify_chain] decodes them
    as the strings "2" and "10" and re-encodes them in string order, so the
    recomputed hash differs and the chain is reported broken at epoch 0. *)
Lemma C1_counterexample_integer_keys :
  exists chain,
    HashChain.build_chain [[(Json.KInt 2, Json.PInt 0); (Json.KInt 10, Json.PInt 0)]] 0
    = Some chain
    /\ HashChain.verify_chain chain 0 = Some (false, Some (Json.PInt 0)).
Proof.
  assert (H : match HashChain.build_chain
                      [[(Json.KInt 2, Json.PInt 0); (Json.KInt 10, Json.PInt 0)]] 0 with
              | Some chain => HashChain.verify_chain chain 0
              | None => None
              end = Some (false, Some (Json.PInt 0)))
    by (vm_compute; reflexivity).
  destruct (HashChain.build_chain _ 0) as [chain|]; [|discriminate H].
  exists chain. split; [reflexivity | exact H].
Qed.




(** ** The canonical text: key order and totality *)

Section CanonicalFacts.
Import Json HashChain ChainSpec.
Local Open Scope string_scope.

Lemma ascii_compare_N (a b : ascii) :
  Ascii.compare a b = N.compare (N_of_ascii a) (N_of_ascii b).
Proof. reflexivity. Qed.

(** The order of strings, by code points, is transitive. *)
Lemma string_leb_trans (a b c : string) :
  String.leb a b = true -> String.leb b c = true -> String.leb a c = true.
Proof.
  unfold String.leb. revert b c.
  induction a as [|x a IH]; intros [|y b] [|z c]; cbn [String.compare];
    try reflexivity; try discriminate.
  rewrite !ascii_compare_N.
  destruct (N.compare_spec (N_of_ascii x) (N_of_ascii y)) as [Exy|Lxy|Gxy];
    destruct (N.compare_spec (N_of_ascii y) (N_of_ascii z)) as [Eyz|Lyz|Gyz];
    try discriminate; intros H1 H2.
  - rewrite Exy, Eyz, N.compare_refl. now apply (IH b c).
  - rewrite Exy. apply N.compare_lt_iff in Lyz. now rewrite Lyz.
  - rewrite <- Eyz. apply N.compare_lt_iff in Lxy. now rewrite Lxy.
  - assert (L : (N_of_ascii x < N_of_ascii z)%N) by lia.
    apply N.compare_lt_iff in L. now rewrite L.
Qed.

Lemma key_le_trans {A} (x y z : pykey * A) :
  key_le x y -> key_le y z -> key_le x z.
Proof.
  unfold key_le. destruct (fst x) as [a|a], (fst y) as [b|b], (fst z) as [c|c];
    cbn; intros H1 H2; try discriminate;
    injection H1 as H1; injection H2 as H2; f_equal.
  - now apply (string_leb_trans a b c).
  - apply Z.leb_le in H1, H2. apply Z.leb_le. lia.
Qed.

Lemma key_le_antisym {A} (x y : pykey * A) :
  key_le x y -> key_le y x -> fst x = fst y.
Proof.
  unfold key_le. destruct (fst x) as [a|a], (fst y) as [b|b];
    cbn; intros H1 H2; try discriminate;
    injection H1 as H1; injection H2 as H2; f_equal.
  - now apply String.leb_antisym.
  - apply Z.leb_le in H1, H2. lia.
Qed.

Lemma sorted_strongly {A} (l : list (pykey * A)) :
  Sorted key_le l -> StronglySorted key_le l.
Proof.
  apply Sorted_StronglySorted. intros x y z. apply key_le_trans.
Qed.

(** Two sorted lists of items with the same items and distinct keys are equal. *)
Lemma sorted_perm_unique {A} (l l' : list (pykey * A)) :
  StronglySorted key_le l -> StronglySorted key_le l' ->
  Permutation l l' -> NoDup (PyDict.keys l) -> l = l'.
Proof.
  revert l'. induction l as [|x r IH]; intros l' Hs Hs' Hp Hnd.
  - apply Permutation_nil in Hp. now subst.
  - destruct l' as [|y r'].
    { apply Permutation_sym, Permutation_nil in Hp. discriminate. }
    inversion Hs as [|? ? Hsr Hx]; subst. inversion Hs' as [|? ? Hsr' Hy]; subst.
    cbn [PyDict.keys map] in Hnd. inversion Hnd as [|? ? Hnin Hnd']; subst.
    assert (Exy : x = y).
    { assert (Hin : In x (y :: r')) by (eapply Permutation_in; [exact Hp | now left]).
      assert (Hin' : In y (x :: r))
        by (eapply Permutation_in; [apply Permutation_sym, Hp | now left]).
      destruct Hin as [->|Hin]; [reflexivity|].
      destruct Hin' as [->|Hin']; [reflexivity|].
      exfalso. apply Hnin.
      rewrite Forall_forall in Hx, Hy.
      rewrite (key_le_antisym x y (Hx _ Hin') (Hy _ Hin)).
      now apply in_map. }
    subst y. f_equal. apply IH; try assumption.
    now apply Permutation_cons_inv in Hp.
Qed.

Lemma dumps_members_perm (d d' : list (pykey * pyval)) :
  Permutation d d' ->
  forall kvs, dumps_members d = Some kvs ->
  exists kvs', dumps_members d' = Some kvs' /\ Permutation kvs kvs'.
Proof.
  induction 1 as [|[k x] d d' Hp IH|[k1 x1] [k2 x2] d|d d' d'' _ IH1 _ IH2]; intros kvs H.
  - exists kvs. split; [exact H | apply Permutation_refl].
  - cbn [dumps_members] in *. destruct (dumps x) as [sx|]; [|discriminate].
    destruct (dumps_members d) as [sr|]; [|discriminate].
    destruct (IH sr eq_refl) as (sr' & -> & Hp'). injection H as <-.
    eexists. split; [reflexivity | now apply perm_skip].
  - cbn [dumps_members] in *. destruct (dumps x2) as [s2|]; [|discriminate].
    destruct (dumps x1) as [s1|]; [|discriminate].
    destruct (dumps_members d) as [sr|]; [|discriminate]. injection H as <-.
    eexists. split; [reflexivity | apply perm_swap].
  - destruct (IH1 kvs H) as (k1 & H1 & P1). destruct (IH2 k1 H1) as (k2 & H2 & P2).
    exists k2. split; [exact H2 | eapply perm_trans; eassumption].
Qed.

Lemma dumps_members_keys (d : list (pykey * pyval)) (kvs : list (pykey * string)) :
  dumps_members d = Some kvs -> PyDict.keys kvs = PyDict.keys d.
Proof.
  revert kvs. induction d as [|[k x] d IH]; intros kvs; cbn [dumps_members].
  - now intros [= <-].
  - destruct (dumps x); [|discriminate]. destruct (dumps_members d) as [sr|]; [|discriminate].
    intros [= <-]. unfold PyDict.keys in *. cbn [map fst]. now rewrite (IH sr).
Qed.

(** The text of a dictionary does not depend on the order of insertion. *)
Lemma dumps_PDict_perm (d d' : list (pykey * pyval)) :
  str_keyed (PDict d) = true -> Permutation d d' ->
  dumps (PDict d) = dumps (PDict d').
Proof.
  intros Hs Hp. destruct (str_keyed_PDict d Hs) as [Hall Hnd].
  destruct (dumps_reads_back (PDict d) Hs) as (j & _ & Hd & _).
  rewrite Hd. rewrite dumps_PDict in Hd. rewrite dumps_PDict.
  destruct (dumps_members d) as [kvs|] eqn:Em; [|discriminate].
  destruct (dumps_members_perm d d' Hp kvs Em) as (kvs' & -> & Hpk).
  destruct (sort_items kvs) as [items|] eqn:Es; [|discriminate].
  assert (Hstr : str_keys kvs).
  { unfold str_keys. apply Forall_forall. intros kj Hin.
    assert (Hk : In (fst kj) (PyDict.keys d))
      by (rewrite <- (dumps_members_keys d kvs Em); now apply in_map).
    apply in_map_iff in Hk. destruct Hk as (kv & <- & Hkv).
    rewrite Forall_forall in Hall. now apply Hall. }
  assert (Hstr' : str_keys kvs')
    by (unfold str_keys; eapply Permutation_Forall; eassumption).
  destruct (sort_items_total kvs' Hstr') as [items' Es']. rewrite Es'.
  assert (E : items = items').
  { apply sorted_perm_unique.
    - apply sorted_strongly. now apply (sort_items_sorted kvs).
    - apply sorted_strongly. now apply (sort_items_sorted kvs').
    - eapply perm_trans; [apply Permutation_sym, sort_items_perm, Es|].
      eapply perm_trans; [exact Hpk | now apply sort_items_perm].
    - eapply Permutation_NoDup; [apply Permutation_map, sort_items_perm, Es|].
      fold (PyDict.keys kvs). now rewrite (dumps_members_keys d kvs Em). }
  now rewrite <- E.
Qed.

Lemma uniform_keys_PList (l : list pyval) :
  uniform_keys (PList l) = forallb uniform_keys l.
Proof.
  cbn [uniform_keys]. induction l as [|x l IH]; cbn [forallb]; [reflexivity|].
  now rewrite IH.
Qed.

Lemma uniform_keys_PDict (d : list (pykey * pyval)) :
  uniform_keys (PDict d) =
  (forallb is_KStr (PyDict.keys d) || forallb is_KInt (PyDict.keys d))
  && forallb (fun kv => uniform_keys (snd kv)) d.
Proof.
  cbn [uniform_keys]. f_equal.
  induction d as [|[k x] d IH]; cbn [forallb snd]; [reflexivity|]. now rewrite IH.
Qed.

(** [canonical_json] returns a text on every value without mixed keys. *)
Lemma dumps_total (v : pyval) :
  uniform_keys v = true -> exists j, dumps v = Some j.
Proof.
  induction v as [|b|z|f|s|l IH|d IH|s] using pyval_ind; intros Hu;
    try (eexists; reflexivity).
  - destruct b; eexists; reflexivity.
  - rewrite uniform_keys_PList in Hu. rewrite dumps_PList.
    assert (E : exists parts, dumps_elements l = Some parts).
    { induction IH as [|x l Hx _ IHl]; cbn [forallb dumps_elements] in *; [eauto|].
      apply andb_prop in Hu. destruct Hu as [Hu1 Hu2].
      destruct (Hx Hu1) as [j ->]. destruct (IHl Hu2) as [parts ->]. eauto. }
    destruct E as [parts ->]. eauto.
  - rewrite uniform_keys_PDict in Hu. apply andb_prop in Hu. destruct Hu as [Hk Hv].
    rewrite dumps_PDict.
    assert (E : exists kvs, dumps_members d = Some kvs).
    { clear Hk. induction IH as [|[k x] d Hx _ IHd]; cbn [forallb dumps_members snd] in *;
        [eauto|].
      apply andb_prop in Hv. destruct Hv as [Hv1 Hv2].
      destruct (Hx Hv1) as [j ->]. destruct (IHd Hv2) as [kvs ->]. eauto. }
    destruct E as [kvs Em]. rewrite Em.
    assert (Es : exists items, sort_items kvs = Some items).
    { pose proof (dumps_members_keys d kvs Em) as Hkeys. rewrite <- Hkeys in Hk.
      apply orb_prop in Hk. destruct Hk as [Hk|Hk]; rewrite forallb_forall in Hk.
      - apply (sort_items_total_kind is_KStr); [apply key_leb_str|].
        apply Forall_forall. intros kj Hin. apply Hk. now apply in_map.
      - apply (sort_items_total_kind is_KInt); [apply key_leb_int|].
        apply Forall_forall. intros kj Hin. apply Hk. now apply in_map. }
    destruct Es as [items ->]. eauto.
Qed.
End CanonicalFacts.




(** ** The epoch callback: which keys a record has *)

Section CallbackFacts.
Import Json RunManager.
Local Open Scope string_scope.

Lemma get_setdefault_same (d : list (pykey * pyval)) (k : pykey) (v : pyval) :
  PyDict.mem pykey_eqb (PyDict.setdefault pykey_eqb d k v) k = true.
Proof.
  unfold PyDict.setdefault, PyDict.mem.
  destruct (PyDict.get pykey_eqb d k) eqn:E.
  - now rewrite E.
  - now rewrite (get_set_same pykey_eqb pykey_eqb_spec).
Qed.

Lemma get_setdefault_other (d : list (pykey * pyval)) (k k0 : pykey) (v : pyval) :
  k <> k0 ->
  PyDict.get pykey_eqb (PyDict.setdefault pykey_eqb d k v) k0 = PyDict.get pykey_eqb d k0.
Proof.
  intros Hne. unfold PyDict.setdefault.
  destruct (PyDict.get pykey_eqb d k); [reflexivity|].
  now apply (get_set_other pykey_eqb pykey_eqb_spec).
Qed.

Lemma mem_get (d : list (pykey * pyval)) (k k0 : pykey) (d' : list (pykey * pyval)) :
  PyDict.get pykey_eqb d' k0 = PyDict.get pykey_eqb d k ->
  PyDict.mem pykey_eqb d' k0 = PyDict.mem pykey_eqb d k.
Proof. unfold PyDict.mem. now intros ->. Qed.

Lemma put_nowait_items {A} (q q' : DeliveryQueue.Queue A) (x : A) :
  DeliveryQueue.put_nowait q x = Some q' ->
  DeliveryQueue.items q' = (DeliveryQueue.items q ++ [x])%list.
Proof.
  unfold DeliveryQueue.put_nowait.
  destruct (_ && _); [discriminate|]. now intros [= <-].
Qed.

(** A successful push leaves the pushed item last. *)
Lemma push_items {A} (q q' : DeliveryQueue.Queue A) (x : A) :
  DeliveryQueue.push q x = Some q' ->
  exists older, DeliveryQueue.items q' = (older ++ [x])%list.
Proof.
  unfold DeliveryQueue.push.
  destruct (DeliveryQueue.put_nowait q x) as [q0|] eqn:E.
  - intros [= <-]. eexists. exact (put_nowait_items _ _ _ E).
  - intros H. eexists. exact (put_nowait_items _ _ _ H).
Qed.

Variable compute_energy_roi : pyval -> pyval -> pyval.

Lemma completed_metrics_keys (metrics : list (pykey * pyval)) :
  let m := completed_metrics compute_energy_roi metrics in
  PyDict.mem pykey_eqb m (KStr "energy_roi") = true
  /\ PyDict.mem pykey_eqb m (KStr "transfer_entropy") = true
  /\ PyDict.mem pykey_eqb m (KStr "zipf") = true.
Proof.
  cbn zeta. unfold completed_metrics. repeat split.
  - unfold PyDict.mem.
    rewrite !get_setdefault_other by discriminate.
    now rewrite (get_set_same pykey_eqb pykey_eqb_spec).
  - unfold PyDict.mem. rewrite get_setdefault_other by discriminate.
    apply get_setdefault_same.
  - apply get_setdefault_same.
Qed.

Lemma completed_metrics_other (metrics : list (pykey * pyval)) (k : pykey) :
  k <> KStr "energy_roi" -> k <> KStr "transfer_entropy" -> k <> KStr "zipf" ->
  PyDict.get pykey_eqb (completed_metrics compute_energy_roi metrics) k
  = PyDict.get pykey_eqb metrics k.
Proof.
  intros H1 H2 H3. unfold completed_metrics.
  rewrite !get_setdefault_other by congruence.
  now apply (get_set_other pykey_eqb pykey_eqb_spec); congruence.
Qed.

(** What the callback writes to the log and pushes on the queue. *)
Lemma epoch_callback_writes (run_id run_seed : Z) (st st' : CallbackState)
      (metrics : list (pykey * pyval)) :
  epoch_callback compute_energy_roi run_id run_seed st metrics = Some st' ->
  let m := completed_metrics compute_energy_roi metrics in
  exists log older,
    epoch_logs st' = (epoch_logs st ++ [log])%list
    /\ HashChain.canonical_json (PDict m) = Some (log_metrics_json log)
    /\ PyDict.get pykey_eqb m (KStr "epoch") = Some (PInt (log_epoch log))
    /\ log_run_id log = run_id
    /\ log_prev_hash log = prev_hash st
    /\ HashChain.compute_hash (prev_hash st) (PDict m) run_seed = Some (log_hash log)
    /\ prev_hash st' = log_hash log
    /\ DeliveryQueue.items (queue st') = (older ++ [m])%list.
Proof.
  cbn zeta. unfold epoch_callback.
  destruct (HashChain.compute_hash _ _ run_seed) as [h|]; [|discriminate].
  destruct (HashChain.canonical_json _) as [text|]; [|discriminate].
  destruct (PyDict.get pykey_eqb _ (KStr "epoch")) as [[| |e| | | | |]|]; try discriminate.
  destruct (DeliveryQueue.push (queue st) _) as [q'|] eqn:Eq; [|discriminate].
  intros [= <-]. cbn [epoch_logs prev_hash queue].
  eexists (mkEpochLog run_id e text h (prev_hash st)).
  assert (Hq : exists older, DeliveryQueue.items q'
                             = (older ++ [completed_metrics compute_energy_roi metrics])%list).
  { exact (push_items _ _ _ Eq). }
  destruct Hq as [older Hq]. exists older. cbn [log_metrics_json log_epoch log_run_id
    log_prev_hash log_hash]. repeat split; try reflexivity. exact Hq.
Qed.
End CallbackFacts.

(** C9, amended.  The metrics dictionary the callback persists and streams
    is the engine's dictionary with ["energy_roi"] set and with
    ["transfer_entropy"] and ["zipf"] filled by an empty dictionary when
    absent: these three keys are never absent.  Every other key is left as
    the engine gave it; the protocol-specific key ["inquiry"] is not filled:
    it is present under protocol 1 and absent under protocol 0. *)
Theorem C9_callback_fills_three_keys :
  forall (compute_energy_roi : Json.pyval -> Json.pyval -> Json.pyval)
         (run_id run_seed : Z) (st st' : RunManager.CallbackState)
         (metrics : list (Json.pykey * Json.pyval)),
    RunManager.epoch_callback compute_energy_roi run_id run_seed st metrics = Some st' ->
    let m := RunManager.completed_metrics compute_energy_roi metrics in
    (exists log older,
        RunManager.epoch_logs st' = RunManager.epoch_logs st ++ [log]
        /\ HashChain.canonical_json (Json.PDict m) = Some (RunManager.log_metrics_json log)
        /\ DeliveryQueue.items (RunManager.queue st') = older ++ [m])
    /\ PyDict.mem Json.pykey_eqb m (Json.KStr "energy_roi") = true
    /\ PyDict.mem Json.pykey_eqb m (Json.KStr "transfer_entropy") = true
    /\ PyDict.mem Json.pykey_eqb m (Json.KStr "zipf") = true
    /\ PyDict.get Json.pykey_eqb m (Json.KStr "inquiry")
       = PyDict.get Json.pykey_eqb metrics (Json.KStr "inquiry")
    /\ (forall epoch r now,
           PyDict.get Json.pykey_eqb
             (Engine.epoch_metrics Engine.Protocol0 epoch r now) (Json.KStr "inquiry") = None
           /\ PyDict.get Json.pykey_eqb
                (Engine.epoch_metrics Engine.Protocol1 epoch r now) (Json.KStr "inquiry")
              = Some (Engine.inquiry r)).
Proof.
  intros roi run_id run_seed st st' metrics H m.
  destruct (epoch_callback_writes roi run_id run_seed st st' metrics H)
    as (log & older & Hl & Hj & _ & _ & _ & _ & _ & Hq).
  destruct (completed_metrics_keys roi metrics) as (K1 & K2 & K3).
  split; [exists log, older; auto|].
  repeat (split; [assumption|]). split.
  - apply completed_metrics_other; discriminate.
  - intros epoch r now. split; reflexivity.
Qed.

(** Epoch 0 of a run under protocol 1, from the genesis state. *)
Lemma C9_callback_witness :
  exists st',
    RunManager.epoch_callback RunManager.roi_zero 1 42
      (RunManager.initial (DeliveryQueue.new DeliveryQueue.run_manager_maxsize))
      (Engine.epoch_metrics Engine.Protocol1 0 RunSpec.quiet_epoch (Json.FFin "1700000000.0"))
    = Some st'
    /\ PyDict.mem Json.pykey_eqb
         (RunManager.completed_metrics RunManager.roi_zero
            (Engine.epoch_metrics Engine.Protocol1 0 RunSpec.quiet_epoch
               (Json.FFin "1700000000.0")))
         (Json.KStr "zipf") = true.
Proof.
  destruct (RunManager.epoch_callback RunManager.roi_zero 1 42
              (RunManager.initial (DeliveryQueue.new DeliveryQueue.run_manager_maxsize))
              (Engine.epoch_metrics Engine.Protocol1 0 RunSpec.quiet_epoch
                 (Json.FFin "1700000000.0"))) as [st'|] eqn:E.
  - exists st'. split; [reflexivity|].
    exact (proj1 (proj2 (proj2 (proj2
             (C9_callback_fills_three_keys RunManager.roi_zero 1 42 _ st' _ E))))).
  - exfalso. vm_compute in E. discriminate E.
Defined.

(** C9 as stated fails under protocol 0: the record of an epoch is
    persisted and streamed without the key ["inquiry"], which only
    protocol 1 produces. *)
Lemma C9_counterexample_inquiry_absent :
  match RunManager.epoch_callback RunManager.roi_zero 1 42
          (RunManager.initial (DeliveryQueue.new DeliveryQueue.run_manager_maxsize))
          (Engine.epoch_metrics Engine.Protocol0 0 RunSpec.quiet_epoch
             (Json.FFin "1700000000.0")) with
  | Some st' =>
      map (fun m => PyDict.mem Json.pykey_eqb m (Json.KStr "inquiry"))
          (DeliveryQueue.items (RunManager.queue st')) = [false]
      /\ map (fun log =>
                match Json.loads (RunManager.log_metrics_json log) with
                | Some (Json.PDict d) => PyDict.mem Json.pykey_eqb d (Json.KStr "inquiry")
                | _ => true
                end) (RunManager.epoch_logs st') = [false]
  | None => False
  end.
Proof. vm_compute. split; reflexivity. Qed.

(** ** Two runs of the engine *)

Section TimestampFacts.
Import Json RunManager RunSpec.
Local Open Scope string_scope.

Lemma same_but_timestamp_refl (m : list (pykey * pyval)) : same_but_timestamp m m.
Proof. induction m; constructor; auto. Qed.

Lemma same_but_timestamp_get (m1 m2 : list (pykey * pyval)) (k : pykey) :
  same_but_timestamp m1 m2 -> k <> KStr "timestamp" ->
  PyDict.get pykey_eqb m1 k = PyDict.get pykey_eqb m2 k.
Proof.
  intros H Hk. induction H as [|[k1 v1] [k2 v2] m1 m2 (Hf & Hv) _ IH];
    cbn [PyDict.get]; [reflexivity|].
  cbn [fst snd] in *. subst k2.
  destruct (pykey_eqb k1 k) eqn:E; [|exact IH].
  apply pykey_eqb_spec in E. subst k1.
  destruct Hv as [->|[Ht _]]; [reflexivity | contradiction].
Qed.

Lemma same_but_timestamp_set (m1 m2 : list (pykey * pyval)) (k : pykey) (v : pyval) :
  same_but_timestamp m1 m2 ->
  same_but_timestamp (PyDict.set pykey_eqb m1 k v) (PyDict.set pykey_eqb m2 k v).
Proof.
  induction 1 as [|[k1 v1] [k2 v2] m1 m2 (Hf & Hv) Hrest IH]; cbn [PyDict.set].
  - constructor; [auto | constructor].
  - cbn [fst snd] in *. subst k2. destruct (pykey_eqb k1 k).
    + constructor; [auto | exact Hrest].
    + constructor; [auto | exact IH].
Qed.

Lemma same_but_timestamp_setdefault (m1 m2 : list (pykey * pyval)) (k : pykey)
      (v : pyval) :
  same_but_timestamp m1 m2 -> k <> KStr "timestamp" ->
  same_but_timestamp (PyDict.setdefault pykey_eqb m1 k v)
                     (PyDict.setdefault pykey_eqb m2 k v).
Proof.
  intros H Hk. unfold PyDict.setdefault.
  rewrite (same_but_timestamp_get m1 m2 k H Hk).
  destruct (PyDict.get pykey_eqb m2 k); [exact H|].
  now apply same_but_timestamp_set.
Qed.

Lemma same_but_timestamp_update (e m1 m2 : list (pykey * pyval)) :
  same_but_timestamp m1 m2 ->
  same_but_timestamp (PyDict.update pykey_eqb m1 e) (PyDict.update pykey_eqb m2 e).
Proof.
  revert m1 m2. induction e as [|[k v] e IH]; intros m1 m2 H; [exact H|].
  unfold PyDict.update. cbn [fold_left fst snd]. apply IH.
  now apply same_but_timestamp_set.
Qed.

Lemma same_but_timestamp_completed (roi : pyval -> pyval -> pyval)
      (m1 m2 : list (pykey * pyval)) :
  same_but_timestamp m1 m2 ->
  same_but_timestamp (completed_metrics roi m1) (completed_metrics roi m2).
Proof.
  intros H. unfold completed_metrics, get_default.
  rewrite !(same_but_timestamp_get m1 m2 _ H) by discriminate.
  repeat apply same_but_timestamp_setdefault; try discriminate.
  now apply same_but_timestamp_set.
Qed.

(** The engine's dictionaries for two clock readings. *)
Lemma same_but_timestamp_epoch_metrics (p : Engine.Protocol) (epoch : Z)
      (r : Engine.EpochResult) (t1 t2 : pyfloat) :
  same_but_timestamp (Engine.epoch_metrics p epoch r t1)
                     (Engine.epoch_metrics p epoch r t2).
Proof.
  unfold Engine.epoch_metrics. apply same_but_timestamp_update.
  repeat (constructor; [cbn [fst snd]; eauto 8|]). constructor.
Qed.

(** Whether the encoder accepts a dictionary does not depend on the float
    under ["timestamp"]. *)
Lemma insert_item_keys {A B} (x : pykey * A) (y : pykey * B)
      (l : list (pykey * A)) (l' : list (pykey * B)) (s : list (pykey * A)) :
  fst x = fst y -> map fst l = map fst l' -> insert_item x l = Some s ->
  exists s', insert_item y l' = Some s' /\ map fst s = map fst s'.
Proof.
  intros Hx. revert l' s. induction l as [|a l IH]; intros [|b l'] s Hk;
    try discriminate; cbn [insert_item].
  - intros [= <-]. eexists. split; [reflexivity|]. cbn. now rewrite Hx.
  - cbn [map] in Hk. injection Hk as Hab Hk. rewrite <- Hx, <- Hab.
    destruct (key_leb (fst x) (fst a)) as [[]|]; [| |discriminate].
    + intros [= <-]. eexists. split; [reflexivity|]. cbn [map]. now rewrite Hx, Hab, Hk.
    + destruct (insert_item x l) as [s0|] eqn:E; [|discriminate].
      intros [= <-]. destruct (IH l' s0 Hk eq_refl) as (s0' & -> & Hs).
      eexists. split; [reflexivity|]. cbn [map]. now rewrite Hab, Hs.
Qed.

Lemma sort_items_keys {A B} (l : list (pykey * A)) (l' : list (pykey * B))
      (s : list (pykey * A)) :
  map fst l = map fst l' -> sort_items l = Some s ->
  exists s', sort_items l' = Some s' /\ map fst s = map fst s'.
Proof.
  revert l' s. induction l as [|a l IH]; intros [|b l'] s Hk; try discriminate;
    cbn [sort_items].
  - intros [= <-]. eexists. split; reflexivity.
  - cbn [map] in Hk. injection Hk as Hab Hk.
    destruct (sort_items l) as [s0|] eqn:E; [|discriminate].
    destruct (IH l' s0 Hk eq_refl) as (s0' & -> & Hs).
    intros Hi. exact (insert_item_keys a b s0 s0' s Hab Hs Hi).
Qed.

Lemma same_but_timestamp_members (m1 m2 : list (pykey * pyval))
      (kvs1 : list (pykey * string)) :
  same_but_timestamp m1 m2 -> dumps_members m1 = Some kvs1 ->
  exists kvs2, dumps_members m2 = Some kvs2 /\ map fst kvs1 = map fst kvs2.
Proof.
  intros H. revert kvs1.
  induction H as [|[k1 v1] [k2 v2] m1 m2 (Hf & Hv) _ IH]; intros kvs1;
    cbn [dumps_members].
  - intros [= <-]. eexists. split; reflexivity.
  - cbn [fst snd] in *. subst k2.
    destruct (dumps v1) as [s1|] eqn:E1; [|discriminate].
    destruct (dumps_members m1) as [r1|]; [|discriminate].
    intros [= <-]. destruct (IH r1 eq_refl) as (r2 & -> & Hr).
    assert (E2 : exists s2, dumps v2 = Some s2).
    { destruct Hv as [<-|(_ & f1 & f2 & _ & ->)]; [eauto|]. cbn [dumps]. eauto. }
    destruct E2 as [s2 ->]. eexists. split; [reflexivity|]. cbn [map fst]. now rewrite Hr.
Qed.

Lemma same_but_timestamp_dumps (m1 m2 : list (pykey * pyval)) (j1 : string) :
  same_but_timestamp m1 m2 -> dumps (PDict m1) = Some j1 ->
  exists j2, dumps (PDict m2) = Some j2.
Proof.
  intros H. rewrite !dumps_PDict.
  destruct (dumps_members m1) as [kvs1|] eqn:E; [|discriminate].
  destruct (same_but_timestamp_members m1 m2 kvs1 H E) as (kvs2 & -> & Hk).
  destruct (sort_items kvs1) as [s1|] eqn:Es; [|discriminate].
  destruct (sort_items_keys kvs1 kvs2 s1 Hk Es) as (s2 & -> & _). eauto.
Qed.

Lemma put_nowait_agree {A} (q1 q2 q1' : DeliveryQueue.Queue A) (x y : A) :
  DeliveryQueue.maxsize q1 = DeliveryQueue.maxsize q2 ->
  length (DeliveryQueue.items q1) = length (DeliveryQueue.items q2) ->
  DeliveryQueue.put_nowait q1 x = Some q1' ->
  exists q2', DeliveryQueue.put_nowait q2 y = Some q2'
              /\ DeliveryQueue.maxsize q1' = DeliveryQueue.maxsize q2'
              /\ length (DeliveryQueue.items q1') = length (DeliveryQueue.items q2').
Proof.
  intros Hm Hl. unfold DeliveryQueue.put_nowait, DeliveryQueue.qsize.
  rewrite <- Hm, <- Hl. destruct (_ && _); [discriminate|].
  intros [= <-]. eexists. split; [reflexivity|]. cbn.
  split; [reflexivity|]. rewrite !length_app. cbn. now rewrite Hl.
Qed.

Lemma push_agree {A} (q1 q2 q1' : DeliveryQueue.Queue A) (x y : A) :
  DeliveryQueue.maxsize q1 = DeliveryQueue.maxsize q2 ->
  length (DeliveryQueue.items q1) = length (DeliveryQueue.items q2) ->
  DeliveryQueue.push q1 x = Some q1' ->
  exists q2', DeliveryQueue.push q2 y = Some q2'
              /\ DeliveryQueue.maxsize q1' = DeliveryQueue.maxsize q2'
              /\ length (DeliveryQueue.items q1') = length (DeliveryQueue.items q2').
Proof.
  intros Hm Hl. unfold DeliveryQueue.push.
  destruct (DeliveryQueue.put_nowait q1 x) as [q0|] eqn:E1.
  - intros [= <-]. destruct (put_nowait_agree q1 q2 q0 x y Hm Hl E1) as (q2' & -> & H).
    eauto.
  - assert (E2 : DeliveryQueue.put_nowait q2 y = None).
    { unfold DeliveryQueue.put_nowait, DeliveryQueue.qsize in *.
      rewrite <- Hm, <- Hl. now destruct (_ && _). }
    rewrite E2. apply put_nowait_agree.
    + unfold DeliveryQueue.get_nowait.
      destruct (DeliveryQueue.items q1), (DeliveryQueue.items q2); cbn; try discriminate;
        exact Hm.
    + unfold DeliveryQueue.get_nowait.
      destruct (DeliveryQueue.items q1) eqn:I1, (DeliveryQueue.items q2) eqn:I2; cbn in *;
        try discriminate; rewrite ?I1, ?I2; cbn; congruence.
Qed.

Variable compute_energy_roi : pyval -> pyval -> pyval.

Lemma epoch_callback_agree (run_id run_seed : Z) (cb1 cb2 cb1' : CallbackState)
      (m1 m2 : list (pykey * pyval)) :
  callbacks_agree cb1 cb2 -> same_but_timestamp m1 m2 ->
  epoch_callback compute_energy_roi run_id run_seed cb1 m1 = Some cb1' ->
  exists cb2', epoch_callback compute_energy_roi run_id run_seed cb2 m2 = Some cb2'
               /\ callbacks_agree cb1' cb2'.
Proof.
  intros (Hlogs & Hmax & Hlen) Hm H1.
  pose proof (same_but_timestamp_completed compute_energy_roi m1 m2 Hm) as Hc.
  destruct (epoch_callback_writes compute_energy_roi run_id run_seed cb1 cb1' m1 H1)
    as (log1 & older & Hl1 & Hj1 & He1 & Hr1 & _ & _ & _ & _).
  unfold epoch_callback in *. unfold HashChain.compute_hash in *.
  destruct (same_but_timestamp_dumps _ _ _ Hc Hj1) as [j2 Hj2].
  unfold HashChain.canonical_json in *. rewrite Hj1 in H1. rewrite Hj2.
  rewrite <- (same_but_timestamp_get _ _ (KStr "epoch") Hc) by discriminate.
  rewrite He1 in *.
  destruct (DeliveryQueue.push (queue cb1) _) as [q1'|] eqn:Eq1; [|discriminate].
  destruct (push_agree (queue cb1) (queue cb2) q1' _
              (completed_metrics compute_energy_roi m2) Hmax Hlen Eq1)
    as (q2' & -> & Hmax' & Hlen').
  injection H1 as <-. eexists. split; [reflexivity|].
  split; [|split; assumption]. cbn [epoch_logs].
  apply Forall2_app; [exact Hlogs|]. constructor; [|constructor].
  split; [reflexivity|]. split; [reflexivity|].
  exists (completed_metrics compute_energy_roi m1), (completed_metrics compute_energy_roi m2).
  cbn [log_metrics_json]. auto.
Qed.

Variable State : Type.
Variable simulate_epoch : Engine.SimulationConfig -> Z -> State -> Engine.EpochResult * State.

(** The loop from two agreeing callback states, with any two clocks: the
    collaborators go through the same states, the logs stay in agreement. *)
Lemma run_epochs_agree (cfg : Engine.SimulationConfig) (p : Engine.Protocol)
      (run_id : Z) (clock1 clock2 : nat -> pyfloat) (epochs : list nat) :
  forall st cb1 cb2 st' cb1',
    callbacks_agree cb1 cb2 ->
    Engine.run_epochs State simulate_epoch CallbackState
      (epoch_callback compute_energy_roi run_id (Engine.seed cfg))
      cfg p clock1 epochs st cb1 = Some (st', cb1') ->
    exists cb2',
      Engine.run_epochs State simulate_epoch CallbackState
        (epoch_callback compute_energy_roi run_id (Engine.seed cfg))
        cfg p clock2 epochs st cb2 = Some (st', cb2')
      /\ callbacks_agree cb1' cb2'.
Proof.
  induction epochs as [|k rest IH]; intros st cb1 cb2 st' cb1' Hcb; cbn [Engine.run_epochs].
  - intros [= <- <-]. eauto.
  - unfold Engine._run_epoch.
    destruct (simulate_epoch cfg (Z.of_nat k) st) as [r st1].
    destruct (epoch_callback compute_energy_roi run_id (Engine.seed cfg) cb1 _)
      as [cb1n|] eqn:E1; [|discriminate].
    destruct (epoch_callback_agree run_id (Engine.seed cfg) cb1 cb2 cb1n _
                (Engine.epoch_metrics p (Z.of_nat k) r (clock2 k)) Hcb
                (same_but_timestamp_epoch_metrics p (Z.of_nat k) r (clock1 k) (clock2 k)) E1)
      as (cb2n & -> & Hcbn).
    intros H. exact (IH st1 cb1n cb2n st' cb1' Hcbn H).
Qed.

Lemma run_epochs_same_clock (cfg : Engine.SimulationConfig) (p : Engine.Protocol)
      (run_id : Z) (clock1 clock2 : nat -> pyfloat) (epochs : list nat) :
  (forall k, clock1 k = clock2 k) ->
  forall st cb,
    Engine.run_epochs State simulate_epoch CallbackState
      (epoch_callback compute_energy_roi run_id (Engine.seed cfg))
      cfg p clock1 epochs st cb
    = Engine.run_epochs State simulate_epoch CallbackState
        (epoch_callback compute_energy_roi run_id (Engine.seed cfg))
        cfg p clock2 epochs st cb.
Proof.
  intros Hc. induction epochs as [|k rest IH]; intros st cb; cbn [Engine.run_epochs];
    [reflexivity|].
  unfold Engine._run_epoch. rewrite (Hc k).
  destruct (simulate_epoch cfg (Z.of_nat k) st) as [r st1].
  destruct (epoch_callback _ _ _ cb _); [apply IH | reflexivity].
Qed.
End TimestampFacts.



(** ** The hash chain: structure of a built chain, meaning of a verdict *)

Section ChainLinkFacts.
Import Json HashChain ChainSpec ChainLinks.
Local Open Scope string_scope.

Lemma prev_at_cons (first : string) (e0 : entry) (c : list entry) (k : nat) (e : entry) :
  nth_error c k = Some e ->
  prev_at first (e0 :: c) (S k) = prev_at (hash e0) c k.
Proof.
  intros He. destruct k as [|k]; cbn [prev_at nth_error]; [reflexivity|].
  destruct (nth_error c k) eqn:E; [reflexivity|].
  apply nth_error_None in E.
  assert (Hn : nth_error c (S k) = None) by (apply nth_error_None; lia).
  congruence.
Qed.

Lemma entries_from_None (ms : list metrics) (seed : Z) :
  forall n prev,
    entries_from n prev ms seed = None ->
    exists m, In m ms /\ canonical_json (PDict m) = None.
Proof.
  induction ms as [|m ms IH]; intros n prev H; cbn [entries_from] in H; [discriminate|].
  destruct (canonical_json (PDict m)) as [j|] eqn:Ej.
  - destruct (entries_from (S n) _ ms seed) as [c|] eqn:E; [discriminate|].
    destruct (IH _ _ E) as (m' & Hin & Hm'). exists m'. split; [now right | exact Hm'].
  - exists m. split; [now left | exact Ej].
Qed.

Lemma entries_from_links (ms : list metrics) (seed : Z) :
  forall n prev c,
    entries_from n prev ms seed = Some c ->
    length c = length ms
    /\ forall k e,
         nth_error c k = Some e ->
         exists m,
           nth_error ms k = Some m
           /\ canonical_json (PDict m) = Some (metrics_json e)
           /\ epoch e = epoch_of (n + k) m
           /\ compute_hash (prev_hash e) (PDict m) seed = Some (hash e)
           /\ prev_hash e = prev_at prev c k.
Proof.
  induction ms as [|m0 ms IH]; intros n prev c Hc; cbn [entries_from] in Hc.
  - injection Hc as <-. split; [reflexivity|]. intros k e He. destruct k; discriminate.
  - destruct (canonical_json (PDict m0)) as [j|] eqn:Ej; [|discriminate].
    destruct (entries_from (S n) _ ms seed) as [c'|] eqn:E; [|discriminate].
    injection Hc as <-. destruct (IH _ _ _ E) as [Hlen Hnth]. split.
    + cbn [length]. now rewrite Hlen.
    + intros k e He. destruct k as [|k]; cbn [nth_error] in He.
      * injection He as <-. exists m0. cbn [metrics_json epoch hash prev_hash prev_at].
        repeat split; try reflexivity.
        -- exact Ej.
        -- now rewrite Nat.add_0_r.
        -- unfold compute_hash. now rewrite Ej.
      * destruct (Hnth k e He) as (m & Hm & Hj & Hep & Hh & Hp).
        exists m. cbn [nth_error]. repeat split; try assumption.
        -- rewrite Hep. f_equal. lia.
        -- rewrite Hp. symmetry. now apply prev_at_cons with (e := e).
Qed.

(** The verifier accepts from [prev] exactly the chains sealed from [prev]. *)
Lemma verify_from_sealed (seed : Z) (chain : list entry) :
  forall prev,
    verify_from prev chain seed = Some (true, None) <-> sealed_from prev seed chain.
Proof.
  induction chain as [|e rest IH]; intros prev.
  - split; [|reflexivity]. intros _ k e He. destruct k; discriminate.
  - cbn [verify_from]. split.
    + intros H.
      destruct (loads (metrics_json e)) as [m|] eqn:El; [|discriminate].
      destruct (compute_hash prev m seed) as [h|] eqn:Eh; [|discriminate].
      destruct (String.eqb (hash e) h) eqn:E1; cbn [negb] in H; [|discriminate].
      destruct (String.eqb (prev_hash e) prev) eqn:E2; cbn [negb] in H; [|discriminate].
      apply String.eqb_eq in E1, E2. subst h.
      apply IH in H. intros k e1 He1. destruct k as [|k]; cbn [nth_error] in He1.
      * injection He1 as <-. split; [exact E2|]. exists m. split; [exact El|].
        now rewrite E2.
      * destruct (H k e1 He1) as [Hp Hm]. split; [|exact Hm].
        rewrite Hp. symmetry. now apply prev_at_cons with (e := e1).
    + intros H. destruct (H 0%nat e eq_refl) as [Hp (m & Hl & Hh)].
      cbn [prev_at] in Hp. rewrite Hl. rewrite Hp in Hh. rewrite Hh.
      rewrite String.eqb_refl. cbn [negb]. rewrite Hp, String.eqb_refl. cbn [negb].
      apply IH. intros k e1 He1.
      destruct (H (S k) e1 He1) as [Hp1 Hm1]. split; [|exact Hm1].
      rewrite Hp1. now apply prev_at_cons with (e := e1).
Qed.

(** An accepted prefix only moves the verifier to the hash stored last. *)
Lemma verify_from_app (seed : Z) (good l : list entry) :
  forall prev,
    verify_from prev good seed = Some (true, None) ->
    verify_from prev (good ++ l) seed
    = verify_from (last (map hash good) prev) l seed.
Proof.
  induction good as [|e good IH]; intros prev H; [reflexivity|].
  cbn [verify_from app] in *.
  destruct (loads (metrics_json e)) as [m|]; [|discriminate].
  destruct (compute_hash prev m seed) as [h|]; [|discriminate].
  destruct (negb (String.eqb (hash e) h)); [discriminate|].
  destruct (negb (String.eqb (prev_hash e) prev)); [discriminate|].
  rewrite (IH _ H). f_equal.
  cbn [map]. destruct good as [|e' good']; [reflexivity|]. cbn [map last].
  clear. revert e'. induction good' as [|x r IHr]; intros e'; [reflexivity|].
  cbn [map last]. apply IHr.
Qed.

Lemma verify_from_verdict (seed : Z) (chain : list entry) :
  forall prev,
    match verify_from prev chain seed with
    | Some (true, first) => first = None
    | Some (false, first) => exists e, In e chain /\ first = Some (epoch e)
    | None => True
    end.
Proof.
  induction chain as [|e rest IH]; intros prev; cbn [verify_from]; [reflexivity|].
  destruct (loads (metrics_json e)) as [m|]; [|exact I].
  destruct (compute_hash prev m seed) as [h|]; [|exact I].
  destruct (negb (String.eqb (hash e) h)).
  { exists e. split; [now left | reflexivity]. }
  destruct (negb (String.eqb (prev_hash e) prev)).
  { exists e. split; [now left | reflexivity]. }
  specialize (IH (hash e)).
  destruct (verify_from (hash e) rest seed) as [[[|] first]|]; try exact IH.
  destruct IH as (e' & Hin & Hf). exists e'. split; [now right | exact Hf].
Qed.
End ChainLinkFacts.

(** X1.  [build_chain] returns one entry per metrics dictionary, in order.
    The entry at position [k] stores the canonical text of the [k]-th
    dictionary, the epoch [metrics.get("epoch", k)], the hash of
    [prev_hash|text|seed], and as [prev_hash] the hash stored at position
    [k - 1], the genesis hash at position 0.  It raises only when one of
    the dictionaries cannot be serialised. *)
Theorem build_chain_is_linked :
  forall (M : list HashChain.metrics) (seed : Z),
    match HashChain.build_chain M seed with
    | Some chain =>
        length chain = length M
        /\ forall k e,
             nth_error chain k = Some e ->
             exists m,
               nth_error M k = Some m
               /\ HashChain.canonical_json (Json.PDict m) = Some (HashChain.metrics_json e)
               /\ HashChain.epoch e = ChainSpec.epoch_of k m
               /\ HashChain.compute_hash (HashChain.prev_hash e) (Json.PDict m) seed
                  = Some (HashChain.hash e)
               /\ HashChain.prev_hash e
                  = ChainLinks.prev_at HashChain.GENESIS_HASH chain k
    | None =>
        exists m, In m M /\ HashChain.canonical_json (Json.PDict m) = None
    end.
Proof.
  intros M seed. rewrite build_chain_entries.
  destruct (ChainSpec.entries_from 0 HashChain.GENESIS_HASH M seed) as [c|] eqn:E.
  - exact (entries_from_links M seed _ _ _ E).
  - exact (entries_from_None M seed _ _ E).
Qed.




(** X4.  The two components of a verdict of [verify_chain] go together: a
    valid verdict carries no epoch, an invalid one carries the epoch stored
    in one of the entries of the chain. *)
Theorem verify_chain_verdict_shape :
  forall (chain : list HashChain.entry) (seed : Z),
    match HashChain.verify_chain chain seed with
    | Some (true, first) => first = None
    | Some (false, first) =>
        exists e, In e chain /\ first = Some (HashChain.epoch e)
    | None => True
    end.
Proof.
  intros chain seed. exact (verify_from_verdict seed chain HashChain.GENESIS_HASH).
Qed.

(** X5.  A value whose dictionaries have unique string keys and whose
    floats are well formed has a canonical text; [json.loads] decodes that
    text, and the decoded value has the same canonical text, hence the same
    hash under every previous hash and seed. *)
Theorem canonical_json_survives_decoding :
  forall v : Json.pyval,
    Json.str_keyed v = true ->
    exists j v',
      HashChain.canonical_json v = Some j
      /\ Json.loads j = Some v'
      /\ HashChain.canonical_json v' = Some j
      /\ forall prev seed,
           HashChain.compute_hash prev v' seed = HashChain.compute_hash prev v seed.
Proof.
  intros v Hv. destruct (canonical_text_stable v Hv) as (j & v' & Hd & Hl & Hd').
  exists j, v'. unfold HashChain.compute_hash, HashChain.canonical_json.
  repeat split; try assumption. intros prev seed. now rewrite Hd, Hd'.
Qed.

(** A nested dictionary with a list, a negative number and a float. *)
Lemma canonical_json_survives_decoding_witness :
  exists j v',
    HashChain.canonical_json
      (Json.PDict [(Json.KStr "zipf", Json.PDict [(Json.KStr "A", Json.PFloat (Json.FFin "-1.5e-07"))]);
                   (Json.KStr "epoch", Json.PInt (-3));
                   (Json.KStr "path", Json.PList [Json.PInt 1; Json.PNone; Json.PBool true])])%string
    = Some j
    /\ Json.loads j = Some v'
    /\ HashChain.canonical_json v' = Some j
    /\ forall prev seed,
         HashChain.compute_hash prev v' seed
         = HashChain.compute_hash prev
             (Json.PDict [(Json.KStr "zipf", Json.PDict [(Json.KStr "A", Json.PFloat (Json.FFin "-1.5e-07"))]);
                          (Json.KStr "epoch", Json.PInt (-3));
                          (Json.KStr "path", Json.PList [Json.PInt 1; Json.PNone; Json.PBool true])])%string
             seed.
Proof.
  apply canonical_json_survives_decoding. vm_compute. reflexivity.
Defined.

(** ** The epoch log written by the run manager *)

Section EpochLogFacts.
Import Json HashChain ChainSpec ChainLinks RunManager.
Local Open Scope string_scope.

Lemma last_cons_default {A} (x d : A) (l : list A) : last (x :: l) d = last l x.
Proof.
  revert x d. induction l as [|y r IH]; intros x d; [reflexivity|].
  change (last (x :: y :: r) d) with (last (y :: r) d).
  rewrite (IH y d). symmetry. apply IH.
Qed.

Variable compute_energy_roi : pyval -> pyval -> pyval.

(** What the callback writes to the [Run] row. *)
Lemma epoch_callback_run_row (run_id run_seed : Z) (st st' : CallbackState)
      (metrics : list (pykey * pyval)) :
  epoch_callback compute_energy_roi run_id run_seed st metrics = Some st' ->
  exists log,
    epoch_logs st' = (epoch_logs st ++ [log])%list
    /\ final_hash st' = Some (log_hash log)
    /\ current_epoch st' = log_epoch log + 1.
Proof.
  unfold epoch_callback.
  destruct (HashChain.compute_hash _ _ run_seed) as [h|]; [|discriminate].
  destruct (HashChain.canonical_json _) as [text|]; [|discriminate].
  destruct (PyDict.get pykey_eqb _ (KStr "epoch")) as [[| |e| | | | |]|]; try discriminate.
  destruct (DeliveryQueue.push (RunManager.queue st) _) as [q'|]; [|discriminate].
  intros [= <-]. eexists. cbn [epoch_logs final_hash current_epoch].
  split; [reflexivity|]. split; reflexivity.
Qed.

(** The rows written by successive callbacks are the entries [build_chain]
    appends for the completed metrics. *)
Lemma callback_all_records (run_id run_seed : Z) (ms : list (list (pykey * pyval))) :
  forall st st' n,
    callback_all compute_energy_roi run_id run_seed st ms = Some st' ->
    exists logs c,
      epoch_logs st' = (epoch_logs st ++ logs)%list
      /\ entries_from n (RunManager.prev_hash st)
           (map (completed_metrics compute_energy_roi) ms) run_seed = Some c
      /\ Forall2 (same_record run_id) logs c
      /\ RunManager.prev_hash st' = last (map hash c) (RunManager.prev_hash st)
      /\ final_hash st' = match ms with
                          | [] => final_hash st
                          | _ :: _ => Some (RunManager.prev_hash st')
                          end
      /\ current_epoch st'
         = last (map (fun l => log_epoch l + 1) logs) (current_epoch st).
Proof.
  induction ms as [|m r IH]; intros st st' n H; cbn [callback_all] in H.
  - injection H as <-. exists [], []. rewrite app_nil_r.
    repeat split; try reflexivity. constructor.
  - destruct (epoch_callback compute_energy_roi run_id run_seed st m) as [st1|] eqn:E1;
      [|discriminate].
    destruct (epoch_callback_writes compute_energy_roi run_id run_seed st st1 m E1)
      as (log & older & Hlogs & Hj & Hep & Hid & Hprev & Hh & Hp1 & _).
    destruct (epoch_callback_run_row run_id run_seed st st1 m E1)
      as (log' & Hlogs' & Hf1 & Hc1).
    assert (log' = log).
    { rewrite Hlogs in Hlogs'. apply app_inj_tail in Hlogs'. now destruct Hlogs'. }
    subst log'.
    destruct (IH st1 st' (S n) H) as (logs & c & Hl & Hc & Hrec & Hp & Hf & Hce).
    cbn [map entries_from]. rewrite Hj.
    assert (Hh' : Sha256.sha256_hex
                    (RunManager.prev_hash st ++ "|" ++ log_metrics_json log
                     ++ "|" ++ int_text run_seed) = log_hash log).
    { unfold compute_hash in Hh. rewrite Hj in Hh. now injection Hh. }
    rewrite Hh'. rewrite <- Hp1. rewrite Hc. cbn [option_map].
    exists (log :: logs). eexists. split; [|split; [reflexivity|]].
    { rewrite Hl, Hlogs. now rewrite <- app_assoc. }
    split; [|split; [|split]].
    + constructor; [|exact Hrec].
      unfold same_record. cbn [epoch hash HashChain.prev_hash metrics_json].
      unfold epoch_of. rewrite Hep. repeat split; try reflexivity; congruence.
    + cbn [map hash]. rewrite last_cons_default. now rewrite Hp, Hp1.
    + rewrite Hf. destruct r as [|m' r']; [|reflexivity].
      cbn [callback_all] in H. injection H as <-. now rewrite Hf1, Hp1.
    + cbn [map]. rewrite last_cons_default. now rewrite Hce, Hc1.
Qed.
End EpochLogFacts.

(** X6.  The epoch log the run manager's callback writes, call after call
    from the start of a run, is the chain [build_chain] builds from the
    completed metrics with the run's seed: same epochs, texts, hashes and
    previous hashes, all under the run's id.  The [Run] row then holds the
    hash written last and, as [current_epoch], one more than the epoch
    logged last. *)
Theorem callback_log_is_the_built_chain :
  forall (compute_energy_roi : Json.pyval -> Json.pyval -> Json.pyval)
         (run_id run_seed : Z)
         (q : DeliveryQueue.Queue (list (Json.pykey * Json.pyval)))
         (ms : list (list (Json.pykey * Json.pyval)))
         (st' : RunManager.CallbackState),
    ChainLinks.callback_all compute_energy_roi run_id run_seed
      (RunManager.initial q) ms = Some st' ->
    exists chain,
      HashChain.build_chain
        (map (RunManager.completed_metrics compute_energy_roi) ms) run_seed
      = Some chain
      /\ Forall2 (ChainLinks.same_record run_id) (RunManager.epoch_logs st') chain
      /\ RunManager.prev_hash st' = ChainLinks.last_hash chain
      /\ RunManager.final_hash st'
         = match ms with
           | [] => None
           | _ :: _ => Some (ChainLinks.last_hash chain)
           end
      /\ RunManager.current_epoch st'
         = last (map (fun l => RunManager.log_epoch l + 1) (RunManager.epoch_logs st')) 0.
Proof.
  intros roi run_id run_seed q ms st' H.
  destruct (callback_all_records roi run_id run_seed ms _ _ 0%nat H)
    as (logs & c & Hl & Hc & Hrec & Hp & Hf & Hce).
  cbn [RunManager.initial RunManager.epoch_logs RunManager.prev_hash
       RunManager.final_hash RunManager.current_epoch app] in *.
  exists c. rewrite build_chain_entries. unfold ChainLinks.last_hash.
  split; [exact Hc|]. split; [now rewrite Hl|]. split; [exact Hp|].
  split; [|now rewrite Hl].
  rewrite Hf. destruct ms; [reflexivity|]. now rewrite Hp.
Qed.

(** Two epochs through the callback of run 7 with seed 42. *)
Lemma callback_log_is_the_built_chain_witness :
  let ms := [ [(Json.KStr "epoch", Json.PInt 0); (Json.KStr "value", Json.PFloat (Json.FFin "0.0"))];
              [(Json.KStr "epoch", Json.PInt 1); (Json.KStr "value", Json.PFloat (Json.FFin "1.5"))] ]%string in
  exists st' chain,
    ChainLinks.callback_all RunManager.roi_zero 7 42
      (RunManager.initial (DeliveryQueue.new DeliveryQueue.run_manager_maxsize)) ms
    = Some st'
    /\ HashChain.build_chain (map (RunManager.completed_metrics RunManager.roi_zero) ms) 42
       = Some chain
    /\ Forall2 (ChainLinks.same_record 7) (RunManager.epoch_logs st') chain
    /\ RunManager.prev_hash st' = ChainLinks.last_hash chain
    /\ RunManager.final_hash st' = Some (ChainLinks.last_hash chain)
    /\ RunManager.current_epoch st'
       = last (map (fun l => RunManager.log_epoch l + 1) (RunManager.epoch_logs st')) 0.
Proof.
  cbn zeta.
  destruct (ChainLinks.callback_all RunManager.roi_zero 7 42 _ _) as [st'|] eqn:E.
  - exists st'.
    destruct (callback_log_is_the_built_chain _ _ _ _ _ _ E) as (chain & H).
    exists chain. split; [reflexivity | exact H].
  - exfalso. vm_compute in E. discriminate E.
Defined.

(** ** From a run of the engine to the verification endpoint *)

Section LedgerItems.
Import Json RunLog.
Local Open Scope string_scope.

Lemma ledger_items_str_keyed (d : list (pykey * pyval)) :
  ledger_items d -> str_keyed (PDict d) = true.
Proof.
  intros [Hall Hnd]. cbn [str_keyed].
  induction d as [|[k x] r IH]; [reflexivity|].
  inversion Hall as [|? ? [Hk Hx] Hall']; subst.
  cbn [PyDict.keys map fst] in Hnd. inversion Hnd as [|? ? Hnin Hnd']; subst.
  cbn [fst snd] in Hk, Hx. destruct k as [s|z]; [|discriminate].
  rewrite (IH Hall' Hnd'), Hx, !andb_true_r.
  unfold PyDict.mem.
  now rewrite (proj2 (get_None_not_in pykey_eqb pykey_eqb_spec r (KStr s)) Hnin).
Qed.

Lemma str_keyed_ledger_items (d : list (pykey * pyval)) :
  str_keyed (PDict d) = true -> ledger_items d.
Proof. exact (str_keyed_PDict d). Qed.

Lemma In_set (d : list (pykey * pyval)) (k : pykey) (v : pyval) (kv : pykey * pyval) :
  In kv (PyDict.set pykey_eqb d k v) -> In kv d \/ kv = (k, v).
Proof.
  induction d as [|[k' v'] r IH]; cbn [PyDict.set In].
  - intros [<-|[]]. now right.
  - destruct (pykey_eqb k' k) eqn:E; cbn [In].
    + apply pykey_eqb_spec in E. subst k'. intros [<-|H]; [now right | left; now right].
    + intros [<-|H]; [left; now left|]. destruct (IH H) as [H'|H']; [left; now right | now right].
Qed.

Lemma ledger_items_set (d : list (pykey * pyval)) (s : string) (v : pyval) :
  ledger_items d -> str_keyed v = true ->
  ledger_items (PyDict.set pykey_eqb d (KStr s) v).
Proof.
  intros [Hall Hnd] Hv. split.
  - apply Forall_forall. intros kv Hin. apply In_set in Hin. destruct Hin as [Hin| ->].
    + exact (proj1 (Forall_forall _ _) Hall kv Hin).
    + split; [reflexivity | exact Hv].
  - now apply (keys_set_NoDup pykey_eqb pykey_eqb_spec).
Qed.

Lemma ledger_items_setdefault (d : list (pykey * pyval)) (s : string) (v : pyval) :
  ledger_items d -> str_keyed v = true ->
  ledger_items (PyDict.setdefault pykey_eqb d (KStr s) v).
Proof.
  intros Hd Hv. unfold PyDict.setdefault.
  destruct (PyDict.get pykey_eqb d (KStr s)); [exact Hd | now apply ledger_items_set].
Qed.

(** The dictionary [_run_epoch] returns is fit for the ledger when the
    values the epoch yields are. *)
Lemma ledger_items_epoch_metrics (p : Engine.Protocol) (epoch : Z)
      (r : Engine.EpochResult) (now : pyfloat) :
  ledger_result r = true -> str_keyed (PFloat now) = true ->
  ledger_items (Engine.epoch_metrics p epoch r now).
Proof.
  intros Hr Hnow. unfold ledger_result in Hr. cbn [forallb] in Hr.
  repeat (apply andb_prop in Hr; destruct Hr as [? Hr]).
  unfold Engine.epoch_metrics.
  match goal with
  | |- ledger_items (PyDict.update _ ?base _) => assert (Hbase : ledger_items base)
  end.
  { split.
    - repeat (constructor; [split; [reflexivity | first [assumption | reflexivity]]|]).
      constructor.
    - exact (proj2 (str_keyed_PDict
               [ (KStr "epoch", PNone); (KStr "avg_reward", PNone);
                 (KStr "survival_rate", PNone); (KStr "target_reached_rate", PNone);
                 (KStr "avg_steps", PNone); (KStr "avg_energy_spent", PNone);
                 (KStr "losses", PNone); (KStr "entropy", PNone);
                 (KStr "mutual_information", PNone); (KStr "transfer_entropy", PNone);
                 (KStr "zipf", PNone); (KStr "energy_roi", PNone);
                 (KStr "comm_killed", PNone); (KStr "timestamp", PNone);
                 (KStr "trajectory", PNone); (KStr "tau", PNone) ] eq_refl)). }
  destruct p; cbn [Engine.compute_epoch_extras PyDict.update fold_left fst snd].
  - exact Hbase.
  - now apply ledger_items_set.
Qed.

Lemma epoch_metrics_epoch (p : Engine.Protocol) (epoch : Z)
      (r : Engine.EpochResult) (now : pyfloat) :
  PyDict.get pykey_eqb (Engine.epoch_metrics p epoch r now) (KStr "epoch")
  = Some (PInt epoch).
Proof. destruct p; reflexivity. Qed.
End LedgerItems.

Section RunVerifies.
Import Json HashChain ChainSpec ChainLinks RunManager RunLog.
Local Open Scope string_scope.

Variable compute_energy_roi : pyval -> pyval -> pyval.
Hypothesis roi_ledger : forall a b, str_keyed (compute_energy_roi a b) = true.

Lemma ledger_items_completed (m : list (pykey * pyval)) :
  ledger_items m -> ledger_items (completed_metrics compute_energy_roi m).
Proof.
  intros Hm. unfold completed_metrics.
  apply ledger_items_setdefault; [|reflexivity].
  apply ledger_items_setdefault; [|reflexivity].
  apply ledger_items_set; [exact Hm | apply roi_ledger].
Qed.

Lemma push_total {A} (q : DeliveryQueue.Queue A) (x : A) :
  0 < DeliveryQueue.maxsize q ->
  DeliveryQueue.qsize q <= DeliveryQueue.maxsize q ->
  exists q', DeliveryQueue.push q x = Some q'.
Proof.
  intros Hpos Hle.
  destruct (Z.eq_dec (DeliveryQueue.qsize q) (DeliveryQueue.maxsize q)) as [E|E].
  - rewrite push_full by assumption. eauto.
  - rewrite push_room by lia. eauto.
Qed.

(** On a dictionary fit for the ledger that carries an integer epoch, with
    a bounded queue, the callback raises nothing. *)
Lemma epoch_callback_succeeds (run_id run_seed : Z) (st : CallbackState)
      (m : list (pykey * pyval)) (e : Z) :
  ledger_items m ->
  PyDict.get pykey_eqb m (KStr "epoch") = Some (PInt e) ->
  0 < DeliveryQueue.maxsize (queue st) ->
  DeliveryQueue.qsize (queue st) <= DeliveryQueue.maxsize (queue st) ->
  exists st',
    epoch_callback compute_energy_roi run_id run_seed st m = Some st'
    /\ 0 < DeliveryQueue.maxsize (queue st')
    /\ DeliveryQueue.qsize (queue st') <= DeliveryQueue.maxsize (queue st').
Proof.
  intros Hm He Hpos Hle. unfold epoch_callback.
  destruct (canonical_text_stable _
              (ledger_items_str_keyed _ (ledger_items_completed m Hm)))
    as (j & v' & Hd & _).
  unfold compute_hash, canonical_json. rewrite Hd.
  rewrite completed_metrics_other by discriminate. rewrite He.
  destruct (push_total (queue st) (completed_metrics compute_energy_roi m) Hpos Hle)
    as [q' Hq].
  rewrite Hq. eexists. split; [reflexivity|]. cbn [queue].
  destruct (push_bounded _ _ _ Hpos Hle Hq) as [Hmax Hb]. split; [lia | exact Hb].
Qed.

Variable State : Type.
Variable simulate_epoch : Engine.SimulationConfig -> Z -> State -> Engine.EpochResult * State.
Hypothesis results_ledger :
  forall c e s, ledger_result (fst (simulate_epoch c e s)) = true.

Variable clock : nat -> pyfloat.
Hypothesis clock_ledger : forall k, str_keyed (PFloat (clock k)) = true.

(** The loop is the callback applied to the metrics of the epochs in turn. *)
Lemma run_epochs_callback_all (cfg : Engine.SimulationConfig) (p : Engine.Protocol)
      (run_id : Z) (epochs : list nat) :
  forall st cb,
    option_map snd
      (Engine.run_epochs State simulate_epoch CallbackState
         (epoch_callback compute_energy_roi run_id (Engine.seed cfg))
         cfg p clock epochs st cb)
    = callback_all compute_energy_roi run_id (Engine.seed cfg) cb
        (run_metrics State simulate_epoch cfg p clock epochs st).
Proof.
  induction epochs as [|k rest IH]; intros st cb;
    cbn [Engine.run_epochs run_metrics callback_all]; [reflexivity|].
  destruct (Engine._run_epoch State simulate_epoch cfg p (Z.of_nat k) st (clock k))
    as [m st1].
  cbn [callback_all].
  destruct (epoch_callback compute_energy_roi run_id (Engine.seed cfg) cb m);
    [apply IH | reflexivity].
Qed.

Lemma run_metrics_ledger (cfg : Engine.SimulationConfig) (p : Engine.Protocol)
      (epochs : list nat) :
  forall st,
    Forall ledger_metrics
      (map (completed_metrics compute_energy_roi)
           (run_metrics State simulate_epoch cfg p clock epochs st)).
Proof.
  induction epochs as [|k rest IH]; intros st; cbn [run_metrics]; [constructor|].
  unfold Engine._run_epoch.
  pose proof (results_ledger cfg (Z.of_nat k) st) as Hr.
  destruct (simulate_epoch cfg (Z.of_nat k) st) as [r st1]. cbn [fst] in Hr.
  cbn [map]. constructor; [|apply IH].
  apply ledger_items_str_keyed, ledger_items_completed.
  now apply ledger_items_epoch_metrics.
Qed.

(** The callbacks of a run all succeed, and log the epochs of the loop. *)
Lemma run_callbacks_succeed (cfg : Engine.SimulationConfig) (p : Engine.Protocol)
      (run_id : Z) (epochs : list nat) :
  forall st cb,
    0 < DeliveryQueue.maxsize (queue cb) ->
    DeliveryQueue.qsize (queue cb) <= DeliveryQueue.maxsize (queue cb) ->
    exists cb' logs,
      callback_all compute_energy_roi run_id (Engine.seed cfg) cb
        (run_metrics State simulate_epoch cfg p clock epochs st) = Some cb'
      /\ epoch_logs cb' = (epoch_logs cb ++ logs)%list
      /\ map log_epoch logs = map Z.of_nat epochs.
Proof.
  induction epochs as [|k rest IH]; intros st cb Hpos Hle; cbn [run_metrics].
  - exists cb, []. cbn [callback_all map]. now rewrite app_nil_r.
  - unfold Engine._run_epoch.
    pose proof (results_ledger cfg (Z.of_nat k) st) as Hr.
    destruct (simulate_epoch cfg (Z.of_nat k) st) as [r st1]. cbn [fst] in Hr.
    cbn [callback_all].
    destruct (epoch_callback_succeeds run_id (Engine.seed cfg) cb
                (Engine.epoch_metrics p (Z.of_nat k) r (clock k)) (Z.of_nat k)
                (ledger_items_epoch_metrics p _ r _ Hr (clock_ledger k))
                (epoch_metrics_epoch p _ r _) Hpos Hle)
      as (cb1 & E1 & Hpos1 & Hle1).
    rewrite E1.
    destruct (epoch_callback_writes compute_energy_roi run_id (Engine.seed cfg) cb cb1 _ E1)
      as (log & older & Hlogs & _ & Hep & _).
    rewrite completed_metrics_other in Hep by discriminate.
    rewrite epoch_metrics_epoch in Hep. injection Hep as Hep.
    destruct (IH st1 cb1 Hpos1 Hle1) as (cb' & logs & Hall & Hl & Hmap).
    exists cb', (log :: logs). split; [exact Hall|]. split.
    + rewrite Hl, Hlogs. now rewrite <- app_assoc.
    + cbn [map]. now rewrite Hmap, <- Hep.
Qed.
End RunVerifies.

Section OrderByEpoch.
Import RunManager Runs.

Lemma order_by_epoch_sorted (logs : list EpochLog) :
  Sorted Z.le (map log_epoch logs) -> order_by_epoch logs = logs.
Proof.
  induction logs as [|l r IH]; intros H; [reflexivity|].
  cbn [map] in H. inversion H as [|? ? Hs Hhd]; subst.
  unfold order_by_epoch in *. cbn [fold_right]. rewrite (IH Hs).
  destruct r as [|x r']; [reflexivity|].
  cbn [map] in Hhd. inversion Hhd as [|? ? Hle]; subst.
  cbn [insert_by_epoch]. now rewrite (proj2 (Z.leb_le _ _) Hle).
Qed.

Lemma seq_sorted (n a : nat) : Sorted Z.le (map Z.of_nat (seq a n)).
Proof.
  revert a. induction n as [|n IH]; intros a; cbn [seq map]; [constructor|].
  constructor; [apply IH|].
  destruct n; cbn [seq map]; constructor. lia.
Qed.

Lemma chain_of_logs_records (run_id : Z) (logs : list EpochLog)
      (c : list HashChain.entry) :
  Forall2 (ChainLinks.same_record run_id) logs c ->
  chain_of_logs logs = c
  /\ filter (fun l => log_run_id l =? run_id) logs = logs.
Proof.
  induction 1 as [|log e logs c (Hid & Hep & Hh & Hp & Hj) _ [IH1 IH2]];
    [split; reflexivity|].
  cbn [chain_of_logs map filter]. fold (chain_of_logs logs).
  rewrite IH1, IH2, Hid, Z.eqb_refl, Hep, Hh, Hp, Hj.
  now destruct e.
Qed.
End OrderByEpoch.



(** ** The delivery queue under any number of pushes *)

Section QueueWindow.
Import DeliveryQueue.
Context {A : Type}.

Lemma push_all_window (xs : list A) :
  forall q : Queue A,
    0 < maxsize q -> qsize q <= maxsize q ->
    push_all q xs
    = Some (mkQueue (maxsize q)
              (skipn (length (items q ++ xs) - Z.to_nat (maxsize q)) (items q ++ xs))).
Proof.
  induction xs as [|x xs IH]; intros q Hpos Hle; cbn [push_all].
  - rewrite app_nil_r.
    replace (length (items q) - Z.to_nat (maxsize q))%nat with 0%nat
      by (unfold qsize in Hle; lia).
    cbn [skipn]. now destruct q.
  - destruct (Z.eq_dec (qsize q) (maxsize q)) as [E|E].
    + rewrite push_full by assumption.
      rewrite IH; cbn [maxsize items]; unfold qsize in *; cbn [items].
      * destruct (items q) as [|y t] eqn:Ei; cbn [length] in E; [lia|].
        cbn [tl app]. rewrite <- app_assoc. cbn [app].
        replace (length (y :: t ++ x :: xs) - Z.to_nat (maxsize q))%nat
          with (S (length (t ++ x :: xs) - Z.to_nat (maxsize q)))
          by (cbn [length]; rewrite !length_app; cbn [length]; lia).
        reflexivity.
      * exact Hpos.
      * rewrite length_app. cbn [length].
        destruct (items q); cbn [tl length] in *; lia.
    + rewrite push_room by lia.
      rewrite IH; cbn [maxsize items]; unfold qsize in *; cbn [items].
      * now rewrite <- app_assoc.
      * exact Hpos.
      * rewrite length_app. cbn [length]. lia.
Qed.
End QueueWindow.

(** X8.  Pushes through the callback's try/except, with no consumer, never
    raise on a bounded queue that is within its capacity, and leave in it
    the most recent [maxsize] of the items it held and the items pushed, in
    their order: the oldest ones are the ones dropped. *)
Theorem push_all_keeps_the_most_recent :
  forall (A : Type) (q : DeliveryQueue.Queue A) (xs : list A),
    0 < DeliveryQueue.maxsize q ->
    DeliveryQueue.qsize q <= DeliveryQueue.maxsize q ->
    DeliveryQueue.push_all q xs
    = Some (DeliveryQueue.mkQueue (DeliveryQueue.maxsize q)
              (skipn (length (DeliveryQueue.items q ++ xs)
                      - Z.to_nat (DeliveryQueue.maxsize q))
                     (DeliveryQueue.items q ++ xs))).
Proof. intros A q xs. apply push_all_window. Qed.

(** Seven epochs pushed on a queue of capacity 3 that already holds one. *)
Lemma push_all_keeps_the_most_recent_witness :
  DeliveryQueue.push_all (DeliveryQueue.mkQueue 3 [10]) [11; 12; 13; 14; 15; 16; 17]
  = Some (DeliveryQueue.mkQueue 3 [15; 16; 17]).
Proof.
  exact (push_all_keeps_the_most_recent Z (DeliveryQueue.mkQueue 3 [10])
           [11; 12; 13; 14; 15; 16; 17] eq_refl ltac:(discriminate)).
Defined.

(** ** The communication buffer: history and reset *)

Section BufferHistory.
Import CommBuffer BufferTrace.
Variable T : Type.
Variable zero : T.

Local Abbreviation buffer := (CommBuffer T).

Lemma Forall2_snoc {X Y} (R : X -> Y -> Prop) (l : list X) (l' : list Y) (x : X) (y : Y) :
  Forall2 R l l' -> R x y -> Forall2 R (l ++ [x]) (l' ++ [y]).
Proof. intros H Hxy. apply Forall2_app; [exact H | now constructor]. Qed.

Lemma keys_set_incl {V W} (d : list (string * V)) (d' : list (string * W))
      (k : string) (v : V) (w : W) :
  incl (PyDict.keys d) (PyDict.keys d') ->
  incl (PyDict.keys (PyDict.set String.eqb d k v))
       (PyDict.keys (PyDict.set String.eqb d' k w)).
Proof.
  intros H x Hx.
  rewrite (keys_set String.eqb string_eqb_spec) in Hx.
  assert (Hx' : In x (PyDict.keys d) \/ x = k).
  { destruct (existsb _ _); [now left|].
    apply in_app_or in Hx. destruct Hx as [Hx|[<-|[]]]; [now left | now right]. }
  rewrite (keys_set String.eqb string_eqb_spec).
  destruct (existsb (fun k' => String.eqb k k') (PyDict.keys d')) eqn:E.
  - destruct Hx' as [Hx'| ->]; [now apply H|].
    apply existsb_exists in E. destruct E as (k' & Hk' & E).
    apply String.eqb_eq in E. now subst k'.
  - apply in_or_app. destruct Hx' as [Hx'| ->]; [left; now apply H | right; now left].
Qed.

Lemma keys_set_eq {V W} (d : list (string * V)) (d' : list (string * W))
      (k : string) (v : V) (w : W) :
  PyDict.keys d = PyDict.keys d' ->
  PyDict.keys (PyDict.set String.eqb d k v)
  = PyDict.keys (PyDict.set String.eqb d' k w).
Proof.
  intros H. rewrite !(keys_set String.eqb string_eqb_spec). now rewrite H.
Qed.

Lemma do_call_lined_up (strict : bool) (b : buffer) (c : call T) :
  lined_up strict b ->
  lined_up (strict && negb (is_clear c)) (do_call T b c).
Proof.
  intros (Hb & Hh & Hs).
  destruct c as [a s ty| | | | |]; cbn [do_call send record_history kill restore clear
    reset snapshot is_clear negb]; rewrite ?andb_true_r, ?andb_false_r;
    unfold lined_up; cbn [_buffer _type_buffer _history _type_history].
  - split; [now apply keys_set_incl|]. split; [exact Hh|].
    intros Hst. destruct (Hs Hst) as [Hk Hf]. split; [now apply keys_set_eq | exact Hf].
  - split; [exact Hb|]. split; [now apply Forall2_snoc|].
    intros Hst. destruct (Hs Hst) as [Hk Hf]. split; [exact Hk | now apply Forall2_snoc].
  - repeat split; try assumption; now apply Hs.
  - repeat split; try assumption; now apply Hs.
  - split; [intros x []|]. split; [exact Hh|]. discriminate.
  - split; [intros x []|]. split; [constructor|]. intros _. split; [reflexivity | constructor].
Qed.

Lemma fold_do_call_lined_up (cs : list (call T)) :
  forall (strict : bool) (b : buffer),
    lined_up strict b ->
    lined_up (strict && negb (existsb is_clear cs)) (fold_left (do_call T) cs b).
Proof.
  induction cs as [|c cs IH]; intros strict b H; cbn [fold_left existsb].
  - now rewrite andb_true_r.
  - apply (do_call_lined_up strict b c) in H. apply IH in H.
    now rewrite negb_orb, andb_assoc.
Qed.

Lemma fold_do_call_config (cs : list (call T)) (b : buffer) :
  config T (fold_left (do_call T) cs b) = config T b.
Proof.
  revert b. induction cs as [|c cs IH]; intros b; cbn [fold_left]; [reflexivity|].
  rewrite IH. now destruct c.
Qed.
End BufferHistory.

(** X9.  After any sequence of calls on a fresh buffer, [history] and
    [type_history] have one entry per [record_history()] since the last
    [reset()], entry by entry: every agent with a signal in a snapshot has a
    type in the matching type entry.  If [clear()] was never called, the
    agents of the signal buffer are those of the type buffer, and every
    snapshot lists the same agents, in the same order, as its type entry.
    ([clear()] empties the signal buffer and keeps the type buffer.) *)
Theorem history_lines_up_with_type_history :
  forall (T : Type) (cfg : CommBuffer.CommBufferConfig) (cs : list (CommBuffer.call T)),
    let b := CommBuffer.run T cfg cs in
    Forall2 (fun s t => incl (PyDict.keys s) (PyDict.keys t))
            (CommBuffer._history T b) (CommBuffer._type_history T b)
    /\ incl (PyDict.keys (CommBuffer._buffer T b))
            (PyDict.keys (CommBuffer._type_buffer T b))
    /\ (existsb BufferTrace.is_clear cs = false ->
        PyDict.keys (CommBuffer._buffer T b)
        = PyDict.keys (CommBuffer._type_buffer T b)
        /\ Forall2 (fun s t => PyDict.keys s = PyDict.keys t)
                   (CommBuffer._history T b) (CommBuffer._type_history T b)).
Proof.
  intros T cfg cs b.
  assert (H0 : BufferTrace.lined_up true (CommBuffer.new T cfg)).
  { unfold BufferTrace.lined_up. cbn. repeat split; try constructor; intros x []. }
  pose proof (fold_do_call_lined_up T cs true _ H0) as (Hb & Hh & Hs).
  fold (CommBuffer.run T cfg cs) in Hb, Hh, Hs. fold b in Hb, Hh, Hs.
  split; [exact Hh|]. split; [exact Hb|].
  intros Hc. apply Hs. now rewrite Hc.
Qed.

(** Two steps of an episode with the agents B and A, a kill in between. *)
Lemma history_lines_up_with_type_history_witness :
  let cs := [ CommBuffer.Send "B"%string [1; 2] 1; CommBuffer.Send "A"%string [3; 4] 0;
              CommBuffer.RecordHistory; CommBuffer.Kill;
              CommBuffer.Send "A"%string [5; 6] 2; CommBuffer.RecordHistory ] in
  let b := CommBuffer.run Z CommBuffer.default_config cs in
  PyDict.keys (CommBuffer._buffer Z b) = PyDict.keys (CommBuffer._type_buffer Z b)
  /\ Forall2 (fun s t => PyDict.keys s = PyDict.keys t)
             (CommBuffer._history Z b) (CommBuffer._type_history Z b).
Proof.
  cbv zeta.
  apply (proj2 (proj2 (history_lines_up_with_type_history Z CommBuffer.default_config
           [ CommBuffer.Send "B"%string [1; 2] 1; CommBuffer.Send "A"%string [3; 4] 0;
             CommBuffer.RecordHistory; CommBuffer.Kill;
             CommBuffer.Send "A"%string [5; 6] 2; CommBuffer.RecordHistory ]))).
  reflexivity.
Defined.

(** X10.  [reset()] forgets everything that came before it: the calls made
    after a [reset()] leave the buffer in the state they would leave a fresh
    buffer in.  In particular a [kill()] does not outlast the next
    [reset()], which the engine issues at the end of every epoch. *)
Theorem reset_forgets_the_past :
  forall (T : Type) (cfg : CommBuffer.CommBufferConfig)
         (before after : list (CommBuffer.call T)),
    CommBuffer.run T cfg (before ++ CommBuffer.Reset :: after)
    = CommBuffer.run T cfg after
    /\ CommBuffer.is_killed T (CommBuffer.run T cfg (before ++ [CommBuffer.Reset]))
       = false.
Proof.
  intros T cfg before after.
  assert (H : forall l, CommBuffer.run T cfg (before ++ CommBuffer.Reset :: l)
                        = CommBuffer.run T cfg l).
  { intros l. unfold CommBuffer.run. rewrite fold_left_app. cbn [fold_left].
    f_equal. cbn [CommBuffer.do_call]. unfold CommBuffer.reset, CommBuffer.new.
    now rewrite fold_do_call_config. }
  split; [apply H|]. now rewrite H.
Qed.

(** ** Rewards: the two protocols side by side *)

Section RewardShape.
Local Open Scope R_scope.

Lemma abs_sum_nonneg (signal : list R) : 0 <= Reward.abs_sum signal.
Proof.
  induction signal as [|x r IH]; cbn [Reward.abs_sum fold_right]; [lra|].
  fold (Reward.abs_sum r). pose proof (Rabs_pos x). lra.
Qed.

Lemma energy_fraction_None (energy_remaining energy_budget : R) :
  Reward.energy_fraction energy_remaining energy_budget = None <-> energy_budget = 0.
Proof.
  unfold Reward.energy_fraction.
  destruct (Req_dec_T energy_budget 0) as [E|E]; split; intros H;
    try reflexivity; try assumption; try discriminate; contradiction.
Qed.

(** With a positive budget and remaining energy within it, the fraction is
    the plain quotient, between 0 and 1. *)
Lemma energy_fraction_within (energy_remaining energy_budget : R) :
  0 < energy_budget -> 0 <= energy_remaining <= energy_budget ->
  exists f, Reward.energy_fraction energy_remaining energy_budget = Some f
            /\ 0 <= f <= 1.
Proof.
  intros Hb [H0 H1]. unfold Reward.energy_fraction.
  destruct (Req_dec_T energy_budget 0) as [E|_]; [lra|].
  eexists. split; [reflexivity|].
  assert (Hi : 0 < / energy_budget) by now apply Rinv_0_lt_compat.
  assert (Hq : 0 <= energy_remaining / energy_budget <= 1).
  { unfold Rdiv. split; [nra|].
    replace 1 with (energy_budget * / energy_budget) by (field; lra). nra. }
  rewrite Rmax_left by lra. exact Hq.
Qed.
End RewardShape.

(** X11.  With [declare_cost = 1.0] (the default) a signal whose type is
    neither QUERY nor RESPOND earns under protocol 1 exactly the reward of
    protocol 0, whose flat tax ignores the type: the backward compatibility
    the code announces for DECLARE signals, and also what an unknown type
    gets. *)
Theorem protocol1_declare_is_protocol0 :
  forall (query_cost respond_cost env_reward : R) (signal_sent : list R)
         (energy_remaining energy_budget communication_tax_rate survival_bonus : R)
         (signal_type any_type : Z),
    signal_type <> InquiryMetrics.INTERROGATIVE ->
    signal_type <> InquiryMetrics.RESPONSE ->
    Protocols.Protocol1_compute_reward 1 query_cost respond_cost env_reward signal_sent
      energy_remaining energy_budget communication_tax_rate survival_bonus signal_type
    = Protocols.Protocol0_compute_reward env_reward signal_sent
        energy_remaining energy_budget communication_tax_rate survival_bonus any_type.
Proof.
  intros qc rc env sig er eb tax sb ty ty0 H1 H2.
  unfold Protocols.Protocol1_compute_reward, Protocols.Protocol0_compute_reward,
    Reward.compute_reward, Reward.type_multiplier.
  unfold InquiryMetrics.INTERROGATIVE, InquiryMetrics.RESPONSE in *.
  replace (ty =? 1)%Z with false by (symmetry; now apply Z.eqb_neq).
  replace (ty =? 2)%Z with false by (symmetry; now apply Z.eqb_neq).
  assert (Hm : (if (ty =? 0)%Z then 1 else 1)%R = 1%R) by now destruct (ty =? 0)%Z.
  rewrite Hm.
  destruct (Reward.energy_fraction er eb); [|reflexivity].
  f_equal. ring.
Qed.

(** A DECLARE signal [0.5, -0.25] and the unknown type 7. *)
Lemma protocol1_declare_is_protocol0_witness :
  Protocols.Protocol1_compute_reward 1 (3/2) (4/5) 1 [1/2; -1/4]%R 50 100 (1/100) (1/10) 7
  = Protocols.Protocol0_compute_reward 1 [1/2; -1/4]%R 50 100 (1/100) (1/10) 0.
Proof.
  apply (protocol1_declare_is_protocol0 (3/2) (4/5) 1 [1/2; -1/4]%R 50 100 (1/100) (1/10)
           7 0)%R; discriminate.
Defined.

(** X12.  The cost asymmetry of protocol 1: for the same step, a signal
    sent as QUERY earns the reward of the same signal sent as DECLARE less
    [tax * (query_cost - declare_cost) * sum |signal|], and sent as RESPOND
    less [tax * (respond_cost - declare_cost) * sum |signal|] (a gain when
    responding is cheaper); the three raise together, on a zero budget. *)
Theorem reward_type_premium :
  forall (declare_cost query_cost respond_cost env_reward : R) (signal_sent : list R)
         (energy_remaining energy_budget communication_tax_rate survival_bonus : R),
    let reward ty :=
      Protocols.Protocol1_compute_reward declare_cost query_cost respond_cost env_reward
        signal_sent energy_remaining energy_budget communication_tax_rate
        survival_bonus ty in
    reward InquiryMetrics.INTERROGATIVE
    = option_map (fun r => r - communication_tax_rate * (query_cost - declare_cost)
                               * Reward.abs_sum signal_sent)%R
                 (reward InquiryMetrics.DECLARATIVE)
    /\ reward InquiryMetrics.RESPONSE
       = option_map (fun r => r - communication_tax_rate * (respond_cost - declare_cost)
                                  * Reward.abs_sum signal_sent)%R
                    (reward InquiryMetrics.DECLARATIVE).
Proof.
  intros dc qc rc env sig er eb tax sb. cbv zeta.
  unfold Protocols.Protocol1_compute_reward, Reward.compute_reward, Reward.type_multiplier.
  cbn [InquiryMetrics.INTERROGATIVE InquiryMetrics.RESPONSE InquiryMetrics.DECLARATIVE
       Z.eqb Pos.eqb].
  destruct (Reward.energy_fraction er eb); cbn [option_map];
    split; try reflexivity; f_equal; ring.
Qed.


(** X14.  With a positive budget, remaining energy between 0 and the
    budget and a non-negative bonus, tax rate and type multiplier, the
    reward does not raise; it lies between the environment reward less the
    communication tax and that value plus the survival bonus, and it is at
    most the environment reward plus the bonus. *)
Theorem reward_within_the_survival_bonus :
  forall (declare_cost query_cost respond_cost env_reward : R) (signal_sent : list R)
         (energy_remaining energy_budget communication_tax_rate survival_bonus : R)
         (signal_type : Z),
    (0 < energy_budget)%R ->
    (0 <= energy_remaining <= energy_budget)%R ->
    (0 <= survival_bonus)%R ->
    (0 <= communication_tax_rate)%R ->
    (0 <= Reward.type_multiplier declare_cost query_cost respond_cost signal_type)%R ->
    exists r,
      Reward.compute_reward env_reward signal_sent energy_remaining energy_budget
        communication_tax_rate survival_bonus signal_type
        declare_cost query_cost respond_cost = Some r
      /\ (env_reward
          - Reward.signal_cost communication_tax_rate signal_type
              declare_cost query_cost respond_cost signal_sent
          <= r
          <= env_reward
             - Reward.signal_cost communication_tax_rate signal_type
                 declare_cost query_cost respond_cost signal_sent
             + survival_bonus)%R
      /\ (r <= env_reward + survival_bonus)%R.
Proof.
  intros dc qc rc env sig er eb tax sb ty Hb He Hsb Htax Hm.
  destruct (energy_fraction_within er eb Hb He) as (f & Hf & Hf0 & Hf1).
  unfold Reward.compute_reward, Reward.signal_cost. rewrite Hf.
  eexists. split; [reflexivity|].
  pose proof (abs_sum_nonneg sig) as Ha.
  assert (Hc : (0 <= tax * Reward.type_multiplier dc qc rc ty * Reward.abs_sum sig)%R).
  { apply Rmult_le_pos; [apply Rmult_le_pos|]; assumption. }
  split; [split|]; nra.
Qed.

(** Half the budget left, the default costs, a QUERY signal. *)
Lemma reward_within_the_survival_bonus_witness :
  exists r,
    Reward.compute_reward 1 [1/2; -1/4]%R 50 100 (1/100) (1/10) 1 1 (3/2) (4/5) = Some r
    /\ (1 - Reward.signal_cost (1/100) 1 1 (3/2) (4/5) [1/2; -1/4] <= r
        <= 1 - Reward.signal_cost (1/100) 1 1 (3/2) (4/5) [1/2; -1/4] + 1/10)%R
    /\ (r <= 1 + 1/10)%R.
Proof.
  apply (reward_within_the_survival_bonus 1 (3/2) (4/5) 1 [1/2; -1/4]%R 50 100
           (1/100) (1/10) 1)%R; try lra.
  cbn. lra.
Defined.

(** ** The temperature schedule in general *)

Section TauShape.
Local Open Scope R_scope.

Lemma exp_le_compat (x y : R) : x <= y -> exp x <= exp y.
Proof.
  intros [H| ->]; [left; now apply exp_increasing | right; reflexivity].
Qed.

Lemma progress_range (epoch warmup_epochs decay_epochs : Z) :
  (warmup_epochs <= epoch)%Z -> (0 < decay_epochs)%Z ->
  0 <= Rmin (IZR (epoch - warmup_epochs) / IZR decay_epochs) 1 <= 1.
Proof.
  intros He Hd.
  assert (0 <= IZR (epoch - warmup_epochs)) by (apply IZR_le; lia).
  assert (0 < IZR decay_epochs) by (apply IZR_lt; lia).
  assert (0 < / IZR decay_epochs) by now apply Rinv_0_lt_compat.
  assert (0 <= IZR (epoch - warmup_epochs) / IZR decay_epochs) by (unfold Rdiv; nra).
  unfold Rmin. destruct (Rle_dec _ 1); lra.
Qed.

Lemma progress_mono (e1 e2 warmup_epochs decay_epochs : Z) :
  (e1 <= e2)%Z -> (0 < decay_epochs)%Z ->
  Rmin (IZR (e1 - warmup_epochs) / IZR decay_epochs) 1
  <= Rmin (IZR (e2 - warmup_epochs) / IZR decay_epochs) 1.
Proof.
  intros He Hd.
  assert (IZR (e1 - warmup_epochs) <= IZR (e2 - warmup_epochs)) by (apply IZR_le; lia).
  assert (0 < IZR decay_epochs) by (apply IZR_lt; lia).
  assert (0 < / IZR decay_epochs) by now apply Rinv_0_lt_compat.
  assert (IZR (e1 - warmup_epochs) / IZR decay_epochs
          <= IZR (e2 - warmup_epochs) / IZR decay_epochs) by (unfold Rdiv; nra).
  unfold Rmin. destruct (Rle_dec _ 1), (Rle_dec _ 1); lra.
Qed.

Lemma get_tau_warmup (epoch : Z) (tau_max tau_min : R) (warmup_epochs decay_epochs : Z) :
  (epoch < warmup_epochs)%Z ->
  Temperature.get_tau epoch tau_max tau_min warmup_epochs decay_epochs = Some tau_max.
Proof.
  intros H. unfold Temperature.get_tau.
  now replace (epoch <? warmup_epochs)%Z with true by (symmetry; now apply Z.ltb_lt).
Qed.

Lemma get_tau_decay (epoch : Z) (tau_max tau_min : R) (warmup_epochs decay_epochs : Z) :
  (warmup_epochs <= epoch)%Z -> (0 < decay_epochs)%Z -> tau_min <= tau_max ->
  Temperature.get_tau epoch tau_max tau_min warmup_epochs decay_epochs
  = Some (tau_min + (tau_max - tau_min)
                    * exp (-3 * Rmin (IZR (epoch - warmup_epochs) / IZR decay_epochs) 1)).
Proof.
  intros He Hd Ht. unfold Temperature.get_tau.
  replace (epoch <? warmup_epochs)%Z with false by (symmetry; apply Z.ltb_ge; lia).
  replace (decay_epochs =? 0)%Z with false by (symmetry; apply Z.eqb_neq; lia).
  f_equal. apply Rmax_left.
  pose proof (exp_pos (-3 * Rmin (IZR (epoch - warmup_epochs) / IZR decay_epochs) 1)).
  nra.
Qed.

(** The value of the schedule lies between its value after the decay and
    [tau_max]. *)
Lemma get_tau_range (epoch : Z) (tau_max tau_min : R) (warmup_epochs decay_epochs : Z) :
  (0 < decay_epochs)%Z -> tau_min <= tau_max ->
  exists t,
    Temperature.get_tau epoch tau_max tau_min warmup_epochs decay_epochs = Some t
    /\ tau_min + (tau_max - tau_min) * exp (-3) <= t <= tau_max.
Proof.
  intros Hd Ht. pose proof (exp_pos (-3)) as H3.
  assert (H31 : exp (-3) <= 1).
  { rewrite <- exp_0. apply exp_le_compat. lra. }
  destruct (Z.lt_ge_cases epoch warmup_epochs) as [Hw|Hw].
  - rewrite get_tau_warmup by exact Hw. eexists. split; [reflexivity|]. nra.
  - rewrite get_tau_decay by assumption. eexists. split; [reflexivity|].
    destruct (progress_range epoch warmup_epochs decay_epochs Hw Hd) as [Hp0 Hp1].
    set (p := Rmin _ 1) in *.
    assert (Hlo : exp (-3) <= exp (-3 * p)) by (apply exp_le_compat; lra).
    assert (Hhi : exp (-3 * p) <= 1) by (rewrite <- exp_0; apply exp_le_compat; lra).
    nra.
Qed.

Lemma get_tau_mono (e1 e2 : Z) (tau_max tau_min : R) (warmup_epochs decay_epochs : Z)
      (t1 t2 : R) :
  (0 < decay_epochs)%Z -> tau_min <= tau_max -> (e1 <= e2)%Z ->
  Temperature.get_tau e1 tau_max tau_min warmup_epochs decay_epochs = Some t1 ->
  Temperature.get_tau e2 tau_max tau_min warmup_epochs decay_epochs = Some t2 ->
  t2 <= t1.
Proof.
  intros Hd Ht He H1 H2.
  destruct (Z.lt_ge_cases e1 warmup_epochs) as [Hw|Hw].
  - rewrite get_tau_warmup in H1 by exact Hw. injection H1 as <-.
    destruct (get_tau_range e2 tau_max tau_min warmup_epochs decay_epochs Hd Ht)
      as (t & Ht2 & _ & Hle).
    congruence.
  - rewrite get_tau_decay in H1 by assumption.
    rewrite get_tau_decay in H2 by (try assumption; lia).
    injection H1 as <-. injection H2 as <-.
    pose proof (progress_mono e1 e2 warmup_epochs decay_epochs He Hd) as Hp.
    assert (exp (-3 * Rmin (IZR (e2 - warmup_epochs) / IZR decay_epochs) 1)
            <= exp (-3 * Rmin (IZR (e1 - warmup_epochs) / IZR decay_epochs) 1))
      by (apply exp_le_compat; lra).
    nra.
Qed.

Lemma get_tau_after_decay (epoch : Z) (tau_max tau_min : R)
      (warmup_epochs decay_epochs : Z) :
  (0 < decay_epochs)%Z -> tau_min <= tau_max ->
  (warmup_epochs + decay_epochs <= epoch)%Z ->
  Temperature.get_tau epoch tau_max tau_min warmup_epochs decay_epochs
  = Some (tau_min + (tau_max - tau_min) * exp (-3)).
Proof.
  intros Hd Ht He. rewrite get_tau_decay by (try assumption; lia).
  assert (Hp : 1 <= IZR (epoch - warmup_epochs) / IZR decay_epochs).
  { assert (IZR decay_epochs <= IZR (epoch - warmup_epochs)) by (apply IZR_le; lia).
    assert (0 < IZR decay_epochs) by (apply IZR_lt; lia).
    assert (0 < / IZR decay_epochs) by now apply Rinv_0_lt_compat.
    replace 1 with (IZR decay_epochs * / IZR decay_epochs) by (field; lra).
    unfold Rdiv. nra. }
  rewrite Rmin_right by exact Hp. now replace (-3 * 1) with (-3) by lra.
Qed.
End TauShape.

(** X15.  The shape of the temperature schedule, for a positive
    [decay_epochs] and [tau_min <= tau_max]: it never raises; it is
    [tau_max] during the warm-up; it never increases from one epoch to a
    later one; from epoch [warmup_epochs + decay_epochs] on it is constant
    at [tau_min + (tau_max - tau_min) * e^-3]; and at every epoch it lies
    between that value and [tau_max], so that it stays above [tau_min]
    whenever [tau_min < tau_max]. *)
Theorem tau_schedule_shape :
  forall (tau_max tau_min : R) (warmup_epochs decay_epochs : Z),
    (0 < decay_epochs)%Z -> (tau_min <= tau_max)%R ->
    let tau epoch :=
      Temperature.get_tau epoch tau_max tau_min warmup_epochs decay_epochs in
    (forall epoch, (epoch < warmup_epochs)%Z -> tau epoch = Some tau_max)
    /\ (forall e1 e2, (e1 <= e2)%Z ->
          match tau e1, tau e2 with
          | Some t1, Some t2 => (t2 <= t1)%R
          | _, _ => False
          end)
    /\ (forall epoch, (warmup_epochs + decay_epochs <= epoch)%Z ->
          tau epoch = Some (tau_min + (tau_max - tau_min) * exp (-3))%R)
    /\ (forall epoch, exists t,
          tau epoch = Some t
          /\ (tau_min + (tau_max - tau_min) * exp (-3) <= t <= tau_max)%R
          /\ ((tau_min < tau_max)%R -> (tau_min < t)%R)).
Proof.
  intros tau_max tau_min w d Hd Ht. cbv zeta.
  split; [intros e He; now apply get_tau_warmup|].
  split; [|split; [intros e He; now apply get_tau_after_decay|]].
  - intros e1 e2 He.
    destruct (get_tau_range e1 tau_max tau_min w d Hd Ht) as (t1 & H1 & _).
    destruct (get_tau_range e2 tau_max tau_min w d Hd Ht) as (t2 & H2 & _).
    rewrite H1, H2. exact (get_tau_mono e1 e2 tau_max tau_min w d t1 t2 Hd Ht He H1 H2).
  - intros e.
    destruct (get_tau_range e tau_max tau_min w d Hd Ht) as (t & H & Hr).
    exists t. split; [exact H|]. split; [exact Hr|].
    intros Hlt. pose proof (exp_pos (-3)). nra.
Qed.

(** The defaults of the signature: 1.0, 0.1, 20, 60. *)
Lemma tau_schedule_shape_witness :
  (forall epoch, (epoch < 20)%Z -> Temperature.get_tau epoch 1 (1/10) 20 60 = Some 1%R)
  /\ (forall e1 e2, (e1 <= e2)%Z ->
        match Temperature.get_tau e1 1 (1/10) 20 60,
              Temperature.get_tau e2 1 (1/10) 20 60 with
        | Some t1, Some t2 => (t2 <= t1)%R
        | _, _ => False
        end)
  /\ (forall epoch, (20 + 60 <= epoch)%Z ->
        Temperature.get_tau epoch 1 (1/10) 20 60
        = Some (1/10 + (1 - 1/10) * exp (-3))%R)
  /\ (forall epoch, exists t,
        Temperature.get_tau epoch 1 (1/10) 20 60 = Some t
        /\ (1/10 + (1 - 1/10) * exp (-3) <= t <= 1)%R
        /\ ((1/10 < 1)%R -> (1/10 < t)%R)).
Proof.
  apply (tau_schedule_shape 1 (1/10) 20 60); [reflexivity | lra].
Defined.


(** ** Query/response coupling is a fraction *)

Section CouplingRange.
Import InquiryMetrics.

Lemma count_true_le {A} (f : A -> bool) (l : list A) :
  (count_true f l <= length l)%nat.
Proof.
  unfold count_true. induction l as [|x r IH]; cbn [filter length]; [lia|].
  destruct (f x); cbn [length]; lia.
Qed.
End CouplingRange.

(** X17.  [_compute_qr_coupling] returns a value between 0 and 1, for
    every type history; it is 1 exactly when every step with a query is
    followed by a step with a response (and there is such a step). *)
Theorem qr_coupling_is_a_fraction :
  forall h : list InquiryMetrics.step,
    (0 <= InquiryMetrics._compute_qr_coupling h)%Q
    /\ (InquiryMetrics._compute_qr_coupling h <= 1)%Q
    /\ (InquiryMetrics._compute_qr_coupling h == 1
        <-> InquiryMetrics.query_steps h <> []
            /\ forall i, In i (InquiryMetrics.query_steps h) ->
                         InquiryMetrics.followed h i = true)%Q.
Proof.
  intros h. unfold InquiryMetrics._compute_qr_coupling.
  destruct (InquiryMetrics.query_steps h) as [|i qs] eqn:E.
  - split; [discriminate|]. split; [discriminate|].
    split; [discriminate | intros [H _]; contradiction].
  - set (l := i :: qs).
    pose proof (count_true_le (InquiryMetrics.followed h) l) as Hle.
    assert (Hpos : Z.pos (Pos.of_nat (length l)) = Z.of_nat (length l)).
    { subst l. cbn [length]. lia. }
    unfold Qle, Qeq. cbn [Qnum Qden]. rewrite Hpos.
    split; [lia|]. split; [lia|].
    split.
    + intros H. split; [discriminate|].
      assert (Hc : InquiryMetrics.count_true (InquiryMetrics.followed h) l = length l)
        by lia.
      unfold InquiryMetrics.count_true in Hc.
      intros j Hj.
      assert (Hall : forallb (InquiryMetrics.followed h) l = true).
      { clear -Hc. induction l as [|x r IH]; [reflexivity|].
        cbn [filter forallb length] in *.
        destruct (InquiryMetrics.followed h x) eqn:Ex; cbn [length andb] in *.
        - apply IH. lia.
        - pose proof (count_true_le (InquiryMetrics.followed h) r) as Hr.
          unfold InquiryMetrics.count_true in Hr. lia. }
      exact (proj1 (forallb_forall _ _) Hall j Hj).
    + intros [_ Hall].
      assert (Hc : InquiryMetrics.count_true (InquiryMetrics.followed h) l = length l).
      { unfold InquiryMetrics.count_true. clear -Hall.
        induction l as [|x r IH]; [reflexivity|].
        cbn [filter]. rewrite (Hall x (or_introl eq_refl)). cbn [length].
        f_equal. apply IH. intros j Hj. apply Hall. now right. }
      lia.
Qed.

(** ** The crystallization detectors *)

Section StreakFacts.
Import Manifest Streaks.
Local Open Scope string_scope.
Local Open Scope list_scope.

Lemma starts_streak_cons_true (l : list bool) :
  starts_streak l = true -> starts_streak (true :: l) = true.
Proof.
  destruct l as [|[] [|[] [|[] [|[] [|[] ?]]]]]; cbn; try discriminate; reflexivity.
Qed.

Lemma first_streak_zero (l : list bool) :
  first_streak l = Some 0%nat -> starts_streak l = true.
Proof.
  destruct l as [|b r]; cbn [first_streak]; [discriminate|].
  destruct (starts_streak (b :: r)); [reflexivity|].
  destruct (first_streak r); discriminate.
Qed.

(** After [c] low epochs a streak starts at once or after them. *)
Lemma first_streak_repeat (c : nat) (l : list bool) (i : nat) :
  first_streak (repeat true c ++ l) = Some i -> i = 0%nat \/ (c < i)%nat.
Proof.
  revert i. induction c as [|c IH]; intros i H.
  - destruct i; [now left | right; lia].
  - cbn [repeat app first_streak] in H.
    destruct (starts_streak (true :: repeat true c ++ l)) eqn:Es.
    + injection H as <-. now left.
    + destruct (first_streak (repeat true c ++ l)) as [i'|] eqn:E'; [|discriminate].
      cbn [option_map] in H. injection H as <-.
      destruct (IH i' eq_refl) as [-> | Hlt]; [|right; lia].
      apply first_streak_zero, starts_streak_cons_true in E'. congruence.
Qed.

(** An epoch that is not low ends the streak before it. *)
Lemma first_streak_blocked (c : nat) (l : list bool) :
  (c < 5)%nat ->
  first_streak (repeat true c ++ false :: l)
  = option_map (fun i => (c + 1 + i)%nat) (first_streak l).
Proof.
  intros Hc. destruct c as [|[|[|[|[|c]]]]]; try lia;
    cbn; destruct (first_streak l); reflexivity.
Qed.

Lemma first_streak_short (c : nat) : (c < 5)%nat -> first_streak (repeat true c) = None.
Proof.
  intros Hc. destruct c as [|[|[|[|[|c]]]]]; try lia; reflexivity.
Qed.

Lemma repeat_app_cons {A} (x : A) (n : nat) (l : list A) :
  repeat x n ++ x :: l = repeat x (S n) ++ l.
Proof.
  induction n as [|n IH]; [reflexivity|]. cbn [repeat app] in *. now rewrite IH.
Qed.

Lemma epoch_at_cons (m : epoch_dict) (r : list epoch_dict) (i : nat) :
  epoch_at (m :: r) (S i) = epoch_at r i.
Proof. reflexivity. Qed.

(** The loop resumed after an epoch that is not low. *)
Lemma streak_after_reset (m : epoch_dict) (r : list epoch_dict) (s : mval) (c : nat) :
  (c < 5)%nat ->
  Some (match first_streak (repeat true 0 ++ map low r) with
        | Some i => if (i <? 0)%nat then MNone else epoch_at r (i - 0)
        | None => MNone
        end)
  = Some (match first_streak (repeat true c ++ false :: map low r) with
          | Some i => if (i <? c)%nat then s else epoch_at (m :: r) (i - c)
          | None => MNone
          end).
Proof.
  intros Hc. rewrite first_streak_blocked by exact Hc. cbn [repeat app].
  destruct (first_streak (map low r)) as [i|]; cbn [option_map]; [|reflexivity].
  replace (c + 1 + i <? c)%nat with false by (symmetry; apply Nat.ltb_ge; lia).
  replace (c + 1 + i - c)%nat with (S i) by lia.
  now rewrite Nat.sub_0_r.
Qed.

(** The streak counter finds the first streak of five low epochs, counting
    the [c] low epochs it has just seen. *)
Lemma streak_loop_spec (ms : list epoch_dict) :
  forall (s : mval) (c : nat),
    (c < 5)%nat -> Forall detectable ms ->
    streak_loop ms s c
    = Some (match first_streak (repeat true c ++ map low ms) with
            | Some i => if (i <? c)%nat then s else epoch_at ms (i - c)
            | None => MNone
            end).
Proof.
  induction ms as [|m r IH]; intros s c Hc Hd.
  - cbn [streak_loop map]. rewrite app_nil_r. now rewrite first_streak_short.
  - inversion Hd as [|? ? [Hep Hte] Hd']; subst.
    cbn [streak_loop map]. unfold low at 1.
    destruct (get_or m "inquiry" (MDict [])) as [|q|inq] eqn:Ei.
    + rewrite (IH MNone 0%nat) by (try assumption; lia).
      now apply streak_after_reset.
    + rewrite (IH MNone 0%nat) by (try assumption; lia).
      now apply streak_after_reset.
    + specialize (Hte inq eq_refl).
      destruct (below_threshold (get_or inq "type_entropy" MNone)) as [[|]|];
        [| |contradiction].
      * destruct (PyDict.get String.eqb m "epoch") as [e|] eqn:Ee; [|contradiction].
        destruct c as [|c].
        -- cbn [Nat.eqb Nat.leb]. rewrite (IH e 1%nat) by (try assumption; lia).
           cbn [repeat app]. f_equal.
           destruct (first_streak (true :: map low r)) as [[|i]|]; try reflexivity.
           ++ cbn [Nat.ltb Nat.leb]. unfold epoch_at, get_or. cbn [nth_error Nat.sub].
              now rewrite Ee.
           ++ cbn [Nat.ltb Nat.leb].
              replace (S i - 1)%nat with i by lia.
              now replace (S i - 0)%nat with (S i) by lia.
        -- cbn [Nat.eqb]. rewrite repeat_app_cons.
           destruct (Nat.leb_spec 5 (S (S c))) as [H5|H5].
           ++ assert (c = 3%nat) by lia. subst c. reflexivity.
           ++ rewrite (IH s (S (S c))) by (try assumption; lia). f_equal.
              destruct (first_streak (repeat true (S (S c)) ++ map low r)) as [i|] eqn:Ef;
                [|reflexivity].
              destruct (first_streak_repeat _ _ _ Ef) as [-> | Hlt]; [reflexivity|].
              replace (i <? S (S c))%nat with false by (symmetry; apply Nat.ltb_ge; lia).
              replace (i <? S c)%nat with false by (symmetry; apply Nat.ltb_ge; lia).
              replace (i - S c)%nat with (S (i - S (S c))) by lia.
              now rewrite epoch_at_cons.
      * rewrite (IH MNone 0%nat) by (try assumption; lia).
        now apply streak_after_reset.
Qed.
End StreakFacts.

(** X18.  [_find_crystallization_epoch] returns what its docstring says: on
    epoch dictionaries that have an epoch and whose type entropy is a number
    or [None], under protocol 1 it returns the epoch stored at the first
    position where five consecutive epochs with a type entropy below 0.95
    start, and [None] if there is no such position; under any other protocol
    it returns [None]. *)
Theorem crystallization_epoch_is_the_first_streak :
  forall (protocol : Z) (ms : list Manifest.epoch_dict),
    Forall Streaks.detectable ms ->
    Manifest._find_crystallization_epoch protocol ms
    = Some (if (protocol =? 1)%Z
            then match Streaks.first_streak (map Streaks.low ms) with
                 | Some i => Streaks.epoch_at ms i
                 | None => Manifest.MNone
                 end
            else Manifest.MNone).
Proof.
  intros protocol ms Hd. unfold Manifest._find_crystallization_epoch.
  destruct (protocol =? 1)%Z; cbn [negb]; [|reflexivity].
  rewrite (streak_loop_spec ms Manifest.MNone 0%nat) by (try assumption; lia).
  cbn [repeat app]. f_equal.
  destruct (Streaks.first_streak (map Streaks.low ms)) as [i|]; [|reflexivity].
  cbn [Nat.ltb Nat.leb]. now rewrite Nat.sub_0_r.
Qed.

(** Seven epochs of protocol 1; the type entropy is below 0.95 from epoch 1
    to epoch 5. *)
Lemma crystallization_epoch_is_the_first_streak_witness :
  let ep (e : Z) (te : Q) : Manifest.epoch_dict :=
    [ ("epoch", Manifest.MNum (inject_Z e));
      ("inquiry", Manifest.MDict [("type_entropy", Manifest.MNum te)]) ]%string in
  Manifest._find_crystallization_epoch 1
    [ ep 0 (99 # 100)%Q; ep 1 (9 # 10)%Q; ep 2 (1 # 2)%Q; ep 3 (94 # 100)%Q;
      ep 4 (9 # 10)%Q; ep 5 (9 # 10)%Q; ep 6 1%Q ]
  = Some (Manifest.MNum (inject_Z 1)).
Proof.
  cbv zeta.
  refine (crystallization_epoch_is_the_first_streak 1 _ _).
  repeat (apply Forall_cons;
          [split;
           [intros H; vm_compute in H; discriminate H
           |intros inq H; vm_compute in H; injection H as <-;
            intros H; vm_compute in H; discriminate H]|]).
  apply Forall_nil.
Defined.

Section DetectorCopies.
Import Manifest Streaks.
Local Open Scope string_scope.
Local Open Scope list_scope.

Lemma int_inject_Z (e : Z) : Control.int (MNum (inject_Z e)) = Some e.
Proof.
  unfold Control.int. rewrite Qround.Qfloor_Z, Qround.Qceiling_Z.
  now destruct (Qle_bool 0 (inject_Z e)).
Qed.

Lemma below_sf (te : mval) :
  below_threshold te <> None ->
  below_threshold (Control._sf te) = below_threshold te.
Proof. destruct te; cbn; congruence. Qed.

(** The inquiry metrics of an epoch as the three detectors read them. *)
Lemma shaped_inquiry (m : epoch_dict) :
  engine_shaped m ->
  exists (e : Z) (inq : epoch_dict),
    PyDict.get String.eqb m "epoch" = Some (MNum (inject_Z e))
    /\ get_or m "inquiry" (MDict []) = MDict inq
    /\ Control.or_empty (get_or m "inquiry" MNone) = Some inq
    /\ below_threshold (get_or inq "type_entropy" MNone) <> None
    /\ Control.or_empty (get_or inq "type_distribution" MNone) <> None
    /\ (PyDict.get String.eqb m "inquiry" = None -> inq = []).
Proof.
  intros [[e He] Hi]. exists e. unfold get_or.
  destruct (PyDict.get String.eqb m "inquiry") as [[|q|inq]|]; try contradiction.
  - destruct Hi as [H1 H2]. exists inq. repeat split; try assumption; discriminate.
  - exists []. repeat split; try assumption; discriminate.
Qed.

Lemma make_loom_view (m : epoch_dict) (protocol : Z) :
  engine_shaped m ->
  exists (ep inq : epoch_dict),
    get_or m "inquiry" (MDict []) = MDict inq
    /\ below_threshold (get_or inq "type_entropy" MNone) <> None
    /\ Control._make_loom_epoch m protocol = Some ep
    /\ PyDict.get String.eqb ep "epoch" = PyDict.get String.eqb m "epoch"
    /\ get_or ep "type_entropy" MNone
       = if (protocol =? 1)%Z then Control._sf (get_or inq "type_entropy" MNone)
         else MNone.
Proof.
  intros Hm. destruct (shaped_inquiry m Hm) as (e & inq & He & Hi & Ho & Hb & Htd & _).
  assert (Hepoch : get_or m "epoch" (MNum 0) = MNum (inject_Z e))
    by (unfold get_or; now rewrite He).
  unfold Control._make_loom_epoch. rewrite Ho, Hepoch, int_inject_Z.
  destruct (Control.or_empty (get_or inq "type_distribution" MNone)) as [td|];
    [|contradiction].
  destruct (protocol =? 1)%Z; eexists; exists inq;
    (split; [exact Hi|]); (split; [exact Hb|]); (split; [reflexivity|]);
    (split; [now rewrite He | reflexivity]).
Qed.

Lemma loom_view (e : Z) (m : epoch_dict) :
  engine_shaped m ->
  exists (ep inq : epoch_dict),
    get_or m "inquiry" (MDict []) = MDict inq
    /\ below_threshold (get_or inq "type_entropy" MNone) <> None
    /\ Loom.loom_epoch e m = Some ep
    /\ PyDict.get String.eqb ep "epoch" = Some (MNum (inject_Z e))
    /\ get_or ep "type_entropy" MNone = get_or inq "type_entropy" MNone.
Proof.
  intros Hm. destruct (shaped_inquiry m Hm) as (e' & inq & He & Hi & Ho & Hb & Htd & _).
  unfold Loom.loom_epoch. rewrite Ho.
  destruct (Control.or_empty (get_or inq "type_distribution" MNone)) as [td|];
    [|contradiction].
  eexists. exists inq. repeat split; try assumption; reflexivity.
Qed.

Lemma live_epochs_total (protocol : Z) (ms : list epoch_dict) :
  Forall engine_shaped ms -> exists eps, Control.live_epochs ms protocol = Some eps.
Proof.
  induction 1 as [|m r Hm _ [eps IH]]; cbn [Control.live_epochs]; [eauto|].
  destruct (make_loom_view m protocol Hm) as (ep & inq & _ & _ & -> & _).
  rewrite IH. eauto.
Qed.

(** Under protocol 1 the control deck's loop on the live epochs goes
    through the states of the engine's loop on the metrics. *)
Lemma detect_loop_live (ms : list epoch_dict) :
  forall (eps : list epoch_dict) (s : mval) (c : nat),
    Forall engine_shaped ms ->
    Control.live_epochs ms 1 = Some eps ->
    Control.detect_loop eps s c = streak_loop ms s c.
Proof.
  induction ms as [|m r IH]; intros eps s c Hs Hl; cbn [Control.live_epochs] in Hl.
  - injection Hl as <-. reflexivity.
  - inversion Hs as [|? ? Hm Hr]; subst.
    destruct (make_loom_view m 1 Hm) as (ep & inq & Hi & Hb & Hmk & Hep & Hte).
    rewrite Hmk in Hl.
    destruct (Control.live_epochs r 1) as [eps'|] eqn:El; [|discriminate].
    injection Hl as <-. cbn [Control.detect_loop streak_loop].
    rewrite Hi, Hte, Hep. cbn [Z.eqb Pos.eqb]. rewrite (below_sf _ Hb).
    destruct (below_threshold (get_or inq "type_entropy" MNone)) as [[|]|];
      [| |contradiction].
    + destruct (if (c =? 0)%nat then PyDict.get String.eqb m "epoch" else Some s);
        [|reflexivity].
      destruct (5 <=? S c)%nat; [reflexivity | now apply IH].
    + now apply IH.
Qed.

(** Under another protocol the live epochs carry no type entropy. *)
Lemma detect_loop_blind (protocol : Z) (ms : list epoch_dict) :
  protocol <> 1%Z ->
  forall (eps : list epoch_dict) (s : mval) (c : nat),
    Forall engine_shaped ms ->
    Control.live_epochs ms protocol = Some eps ->
    Control.detect_loop eps s c = Some MNone.
Proof.
  intros Hp. apply Z.eqb_neq in Hp.
  induction ms as [|m r IH]; intros eps s c Hs Hl; cbn [Control.live_epochs] in Hl.
  - injection Hl as <-. reflexivity.
  - inversion Hs as [|? ? Hm Hr]; subst.
    destruct (make_loom_view m protocol Hm) as (ep & inq & Hi & Hb & Hmk & Hep & Hte).
    rewrite Hmk in Hl.
    destruct (Control.live_epochs r protocol) as [eps'|] eqn:El; [|discriminate].
    injection Hl as <-. cbn [Control.detect_loop].
    rewrite Hte, Hp. cbn [below_threshold]. now apply IH.
Qed.

(** The loop of [loom.py] on the rows of a run goes through the states of
    the engine's loop on the metrics. *)
Lemma loom_loop_rows (rows : list (Z * epoch_dict)) :
  forall (eps : list epoch_dict) (s : mval) (c : nat),
    Forall engine_shaped (map snd rows) ->
    Forall (fun row => PyDict.get String.eqb (snd row) "epoch"
                       = Some (MNum (inject_Z (fst row)))) rows ->
    Loom.loom_epochs rows = Some eps ->
    Loom.streak_loop eps s c = streak_loop (map snd rows) s c.
Proof.
  induction rows as [|[e m] r IH]; intros eps s c Hs He Hl; cbn [Loom.loom_epochs] in Hl.
  - injection Hl as <-. reflexivity.
  - cbn [map snd] in Hs. inversion Hs as [|? ? Hm Hr]; subst.
    inversion He as [|? ? Hem Her]; subst. cbn [fst snd] in Hem.
    destruct (loom_view e m Hm) as (ep & inq & Hi & Hb & Hmk & Hep & Hte).
    rewrite Hmk in Hl.
    destruct (Loom.loom_epochs r) as [eps'|] eqn:El; [|discriminate].
    injection Hl as <-. cbn [map snd Loom.streak_loop streak_loop].
    rewrite Hi, Hte, Hep, Hem.
    destruct (below_threshold (get_or inq "type_entropy" MNone)) as [[|]|];
      [| |contradiction].
    + destruct (c =? 0)%nat;
        (destruct (5 <=? S c)%nat; [reflexivity | now apply IH]).
    + now apply IH.
Qed.

Lemma loom_epochs_total (rows : list (Z * epoch_dict)) :
  Forall engine_shaped (map snd rows) -> exists eps, Loom.loom_epochs rows = Some eps.
Proof.
  induction rows as [|[e m] r IH]; intros Hs; cbn [Loom.loom_epochs]; [eauto|].
  cbn [map snd] in Hs. inversion Hs as [|? ? Hm Hr]; subst.
  destruct (loom_view e m Hm) as (ep & inq & _ & _ & -> & _).
  destruct (IH Hr) as [eps ->]. eauto.
Qed.

(** Without inquiry metrics the engine's loop finds nothing. *)
Lemma streak_loop_no_inquiry (ms : list epoch_dict) :
  Forall (fun m => PyDict.get String.eqb m "inquiry" = None) ms ->
  forall (s : mval) (c : nat), streak_loop ms s c = Some MNone.
Proof.
  induction 1 as [|m r Hm _ IH]; intros s c; cbn [streak_loop]; [reflexivity|].
  unfold get_or at 1. rewrite Hm. cbn. apply IH.
Qed.
End DetectorCopies.



(** ** Cumulative energy ROI *)

Section EnergyRoiFacts.
Import EnergyRoi MetricSpec.
Local Open Scope string_scope.
Local Open Scope list_scope.
Local Open Scope R_scope.

Lemma roi_guard (s e : R) :
  (if Rlt_dec 0 e then s / e else 0) = compute_energy_roi s e.
Proof.
  unfold compute_energy_roi. destruct (Rlt_dec 0 e), (Rle_dec e 0); try reflexivity; lra.
Qed.

Lemma cumulative_loop_spec (ems : list (list (string * R))) :
  forall (cs ce : R) (rois : list R),
    cumulative_loop ems cs ce rois
    = rois ++ map (fun k =>
                     compute_energy_roi
                       (cs + total_of "target_reached_rate" (firstn (S k) ems))
                       (ce + total_of "avg_energy_spent" (firstn (S k) ems)))
                  (seq 0 (length ems)).
Proof.
  induction ems as [|m r IH]; intros cs ce rois; cbn [cumulative_loop].
  - cbn [length seq map]. now rewrite app_nil_r.
  - rewrite IH, <- app_assoc. f_equal. cbn [length seq map app]. f_equal.
    + rewrite roi_guard. cbn [firstn total_of fold_right]. f_equal; lra.
    + rewrite <- seq_shift, map_map. apply map_ext. intros k.
      cbn [firstn total_of fold_right]. f_equal; lra.
Qed.
End EnergyRoiFacts.

(** X20.  [compute_cumulative_roi] returns one value per epoch, and the
    value for epoch [k] is [compute_energy_roi] of the totals up to and
    including epoch [k]: the sum of the target rates over the sum of the
    energies spent, and 0 while no energy has been spent (a missing key
    counts as 0). *)
Theorem cumulative_roi_is_the_roi_of_the_totals :
  forall epoch_metrics : list (list (string * R)),
    EnergyRoi.compute_cumulative_roi epoch_metrics
    = map (fun k =>
             EnergyRoi.compute_energy_roi
               (MetricSpec.total_of "target_reached_rate" (firstn (S k) epoch_metrics))
               (MetricSpec.total_of "avg_energy_spent" (firstn (S k) epoch_metrics)))
          (seq 0 (length epoch_metrics)).
Proof.
  intros ems. unfold EnergyRoi.compute_cumulative_roi.
  rewrite cumulative_loop_spec. cbn [app]. apply map_ext. intros k.
  f_equal; lra.
Qed.

(** ** Discounted returns *)

Section ReturnsFacts.
Import Reinforce MetricSpec.
Local Open Scope R_scope.

Lemma sum_scale (c : R) (f : nat -> R) (l : list nat) :
  fold_right Rplus 0 (map (fun k => c * f k) l) = c * fold_right Rplus 0 (map f l).
Proof.
  induction l as [|k l IH]; cbn [map fold_right]; [lra|]. rewrite IH. lra.
Qed.

Lemma power_sum_cons (gamma r : R) (l : list R) :
  power_sum gamma (r :: l) = r + gamma * power_sum gamma l.
Proof.
  unfold power_sum. cbn [length seq map fold_right nth pow].
  rewrite <- seq_shift, map_map. rewrite <- sum_scale.
  f_equal; [lra|]. f_equal. apply map_ext. intros k. cbn [nth pow]. lra.
Qed.

(** The returns of a list of rewards. *)
Lemma returns_cons (gamma r : R) (l : list R) :
  map (fun i => power_sum gamma (skipn i (r :: l))) (seq 0 (length (r :: l)))
  = power_sum gamma (r :: l)
    :: map (fun i => power_sum gamma (skipn i l)) (seq 0 (length l)).
Proof.
  cbn [length seq map skipn]. f_equal. rewrite <- seq_shift, map_map. reflexivity.
Qed.

Lemma returns_loop_rev (gamma : R) (l : list R) :
  forall rest : list R,
    returns_loop (rev l ++ rest) gamma 0 []
    = returns_loop rest gamma (power_sum gamma l)
        (map (fun i => power_sum gamma (skipn i l)) (seq 0 (length l))).
Proof.
  induction l as [|r l IH]; intros rest.
  - reflexivity.
  - cbn [rev]. rewrite <- app_assoc. cbn [app]. rewrite IH.
    cbn [returns_loop]. rewrite returns_cons, power_sum_cons. reflexivity.
Qed.
End ReturnsFacts.

(** X21.  The returns computed by [compute_reinforce_loss] are the
    discounted sums of the rewards: there is one return per reward, and the
    return at step [i] is [rewards[i] + gamma * rewards[i+1] + gamma^2 *
    rewards[i+2] + ...] up to the last reward. *)
Theorem returns_are_discounted_sums :
  forall (rewards : list R) (gamma : R),
    Reinforce.discounted_returns rewards gamma
    = map (fun i => MetricSpec.power_sum gamma (skipn i rewards))
          (seq 0 (length rewards)).
Proof.
  intros rewards gamma. unfold Reinforce.discounted_returns.
  rewrite <- (app_nil_r (rev rewards)). now rewrite returns_loop_rev.
Qed.

(** ** Type counts of the inquiry metrics *)

Section TypeCountFacts.
Import InquiryMetrics InquiryCounts MetricSpec.
Local Open Scope string_scope.
Local Open Scope list_scope.
Local Open Scope Z_scope.

Lemma counts_as_spec (ty : Z) (agent : string) (stype : Z) :
  counts_as ty (agent, stype)
  = ((String.eqb "A" agent || String.eqb "B" agent || String.eqb "C" agent)
     && (stype =? ty)).
Proof.
  unfold counts_as, agents. cbn [existsb fst snd].
  rewrite (String.eqb_sym agent "A"), (String.eqb_sym agent "B"),
    (String.eqb_sym agent "C").
  now rewrite orb_false_r, orb_assoc.
Qed.

(** One counted item raises one entry of the table by one. *)
Lemma count_item_table (a0 a1 a2 b0 b1 b2 c0 c1 c2 : Z) (item : string * Z) :
  exists a0' a1' a2' b0' b1' b2' c0' c1' c2',
    count_item (table a0 a1 a2 b0 b1 b2 c0 c1 c2) item
    = table a0' a1' a2' b0' b1' b2' c0' c1' c2'
    /\ a0' + b0' + c0' = a0 + b0 + c0 + (if counts_as 0 item then 1 else 0)
    /\ a1' + b1' + c1' = a1 + b1 + c1 + (if counts_as 1 item then 1 else 0)
    /\ a2' + b2' + c2' = a2 + b2 + c2 + (if counts_as 2 item then 1 else 0).
Proof.
  destruct item as [agent stype]. rewrite !counts_as_spec.
  unfold count_item, table. cbn [PyDict.get].
  destruct (String.eqb "A" agent) eqn:EA;
    [|destruct (String.eqb "B" agent) eqn:EB;
      [|destruct (String.eqb "C" agent) eqn:EC]];
    cbn [PyDict.get orb andb];
    try (destruct (Z.eqb_spec 0 stype) as [<-|H0];
         [|destruct (Z.eqb_spec 1 stype) as [<-|H1];
           [|destruct (Z.eqb_spec 2 stype) as [<-|H2]]];
         cbn [PyDict.set Z.eqb Pos.eqb]; rewrite ?EA, ?EB, ?EC;
         cbn [PyDict.set Z.eqb Pos.eqb];
         repeat match goal with
                | H : ?x <> stype |- context [(stype =? ?x)] =>
                    replace (stype =? x) with false
                      by (symmetry; apply Z.eqb_neq; congruence)
                | H : ?x <> stype |- context [(?x =? stype)] =>
                    replace (x =? stype) with false
                      by (symmetry; apply Z.eqb_neq; congruence)
                end);
    do 9 eexists; (split; [reflexivity|]); repeat split; lia.
Qed.

Lemma count_items_table (items : list (string * Z)) :
  forall a0 a1 a2 b0 b1 b2 c0 c1 c2 : Z,
  exists a0' a1' a2' b0' b1' b2' c0' c1' c2',
    fold_left count_item items (table a0 a1 a2 b0 b1 b2 c0 c1 c2)
    = table a0' a1' a2' b0' b1' b2' c0' c1' c2'
    /\ a0' + b0' + c0' = a0 + b0 + c0 + Z.of_nat (length (filter (counts_as 0) items))
    /\ a1' + b1' + c1' = a1 + b1 + c1 + Z.of_nat (length (filter (counts_as 1) items))
    /\ a2' + b2' + c2' = a2 + b2 + c2 + Z.of_nat (length (filter (counts_as 2) items)).
Proof.
  induction items as [|item r IH]; intros a0 a1 a2 b0 b1 b2 c0 c1 c2.
  - exists a0, a1, a2, b0, b1, b2, c0, c1, c2. cbn. repeat split; lia.
  - cbn [fold_left].
    destruct (count_item_table a0 a1 a2 b0 b1 b2 c0 c1 c2 item)
      as (x0 & x1 & x2 & y0 & y1 & y2 & z0 & z1 & z2 & -> & E0 & E1 & E2).
    destruct (IH x0 x1 x2 y0 y1 y2 z0 z1 z2)
      as (a0' & a1' & a2' & b0' & b1' & b2' & c0' & c1' & c2' & -> & F0 & F1 & F2).
    exists a0', a1', a2', b0', b1', b2', c0', c1', c2'.
    split; [reflexivity|]. cbn [filter].
    destruct (counts_as 0 item), (counts_as 1 item), (counts_as 2 item);
      cbn [length]; repeat split; lia.
Qed.

Lemma fold_left_steps (h : list step) (tc : counts) :
  fold_left (fun tc (s : step) => fold_left count_item s tc) h tc
  = fold_left count_item (concat h) tc.
Proof.
  revert tc. induction h as [|s h IH]; intros tc; cbn [fold_left concat]; [reflexivity|].
  now rewrite fold_left_app, IH.
Qed.
End TypeCountFacts.

(** X22.  The counts [compute_inquiry_metrics] returns are the numbers of
    signals sent: [query_count] is the number of items of the type
    history that belong to agent A, B or C and have the type QUERY,
    [response_count] the number of those with the type RESPOND, and
    likewise for DECLARE; no key is ever missing.  Items of other agents or
    of other types are not counted.  [total] is the sum of the three
    counts, or 1 when nothing was counted, so that the three type fractions
    add up to 1 as soon as one signal was counted, and are all 0 before. *)
Theorem type_counts_count_the_signals :
  forall h : list InquiryMetrics.step,
    let n0 := Z.of_nat (length (MetricSpec.counted 0 h)) in
    let n1 := Z.of_nat (length (MetricSpec.counted 1 h)) in
    let n2 := Z.of_nat (length (MetricSpec.counted 2 h)) in
    let t := Z.to_pos (InquiryCounts.total h) in
    InquiryCounts.sum_type (InquiryCounts.count_types h) InquiryMetrics.DECLARATIVE
    = Some n0
    /\ InquiryCounts.query_count h = Some n1
    /\ InquiryCounts.response_count h = Some n2
    /\ InquiryCounts.total h = Z.max (n0 + n1 + n2) 1
    /\ (InquiryCounts.type_frac h 0 = Some (n0 # t)%Q
        /\ InquiryCounts.type_frac h 1 = Some (n1 # t)%Q
        /\ InquiryCounts.type_frac h 2 = Some (n2 # t)%Q)
    /\ ((n0 # t) + (n1 # t) + (n2 # t)
        == if 0 <? n0 + n1 + n2 then 1%Q else 0%Q)%Q.
Proof.
  intros h. cbv zeta.
  unfold InquiryCounts.query_count, InquiryCounts.response_count,
    InquiryCounts.type_frac, InquiryCounts.total, InquiryCounts.count_types.
  rewrite fold_left_steps.
  destruct (count_items_table (concat h) 0 0 0 0 0 0 0 0 0)
    as (a0 & a1 & a2 & b0 & b1 & b2 & c0 & c1 & c2 & Ht & E0 & E1 & E2).
  change InquiryCounts.zero_counts with (MetricSpec.table 0 0 0 0 0 0 0 0 0).
  rewrite Ht. unfold MetricSpec.counted.
  fold (MetricSpec.counts_as 0) (MetricSpec.counts_as 1) (MetricSpec.counts_as 2).
  change (fun item : string * Z =>
            existsb (String.eqb (fst item)) InquiryCounts.agents && (snd item =? 0))
    with (MetricSpec.counts_as 0).
  change (fun item : string * Z =>
            existsb (String.eqb (fst item)) InquiryCounts.agents && (snd item =? 1))
    with (MetricSpec.counts_as 1).
  change (fun item : string * Z =>
            existsb (String.eqb (fst item)) InquiryCounts.agents && (snd item =? 2))
    with (MetricSpec.counts_as 2).
  set (n0 := Z.of_nat (length (filter (MetricSpec.counts_as 0) (concat h)))) in *.
  set (n1 := Z.of_nat (length (filter (MetricSpec.counts_as 1) (concat h)))) in *.
  set (n2 := Z.of_nat (length (filter (MetricSpec.counts_as 2) (concat h)))) in *.
  assert (H0 : 0 <= n0) by (subst n0; lia).
  assert (H1 : 0 <= n1) by (subst n1; lia).
  assert (H2 : 0 <= n2) by (subst n2; lia).
  unfold MetricSpec.table.
  cbn [InquiryCounts.sum_type PyDict.get Z.eqb Pos.eqb InquiryMetrics.DECLARATIVE
       InquiryMetrics.INTERROGATIVE InquiryMetrics.RESPONSE fold_right PyDict.values
       map snd].
  assert (Ht' : Z.max (a0 + (a1 + (a2 + 0)) + (b0 + (b1 + (b2 + 0))
                       + (c0 + (c1 + (c2 + 0)) + 0))) 1
                = Z.max (n0 + n1 + n2) 1) by (f_equal; lia).
  rewrite Ht'.
  split; [f_equal; lia|]. split; [f_equal; lia|]. split; [f_equal; lia|].
  split; [reflexivity|].
  split; [repeat split; do 2 f_equal; lia|].
  destruct (Z.ltb_spec 0 (n0 + n1 + n2)) as [Hpos|Hzero].
  - rewrite Z.max_l by lia. unfold Qeq, Qplus. cbn [Qnum Qden].
    rewrite !Pos2Z.inj_mul, !Z2Pos.id by lia. nia.
  - assert (n0 = 0 /\ n1 = 0 /\ n2 = 0) as (-> & -> & ->) by lia.
    reflexivity.
Qed.

(** ** The grid world *)

Section StringDictFacts.
Context {V : Type}.

Lemma In_set_str (d : list (string * V)) (k : string) (v : V) (kv : string * V) :
  In kv (PyDict.set String.eqb d k v) -> In kv d \/ kv = (k, v).
Proof.
  induction d as [|[k' v'] r IH]; cbn [PyDict.set In].
  - intros [<-|[]]. now right.
  - destruct (String.eqb k' k) eqn:E; cbn [In].
    + apply String.eqb_eq in E. subst k'. intros [<-|H]; [now right | left; now right].
    + intros [<-|H]; [left; now left|].
      destruct (IH H) as [H'|H']; [left; now right | now right].
Qed.

Lemma get_In_str (d : list (string * V)) (k : string) (v : V) :
  PyDict.get String.eqb d k = Some v -> In (k, v) d.
Proof.
  induction d as [|[k' v'] r IH]; cbn [PyDict.get In]; [discriminate|].
  destruct (String.eqb k' k) eqn:E.
  - apply String.eqb_eq in E. subst k'. intros [= <-]. now left.
  - intros H. right. now apply IH.
Qed.

Lemma keys_set_present (d : list (string * V)) (k : string) (v v0 : V) :
  PyDict.get String.eqb d k = Some v0 ->
  PyDict.keys (PyDict.set String.eqb d k v) = PyDict.keys d.
Proof.
  induction d as [|[k' v'] r IH]; cbn [PyDict.get PyDict.set]; [discriminate|].
  destruct (String.eqb k' k) eqn:E; [reflexivity|].
  intros H. cbn [PyDict.keys map fst]. f_equal. now apply IH.
Qed.

Lemma In_get_str (d : list (string * V)) (k : string) (v : V) :
  NoDup (PyDict.keys d) -> In (k, v) d -> PyDict.get String.eqb d k = Some v.
Proof.
  induction d as [|[k' v'] r IH]; cbn [PyDict.keys map fst PyDict.get In]; [intros _ []|].
  intros Hnd [H|H]; inversion Hnd as [|? ? Hnin Hnd']; subst.
  - injection H as -> ->. now rewrite String.eqb_refl.
  - destruct (String.eqb k' k) eqn:E.
    + apply String.eqb_eq in E. subst k'. exfalso. apply Hnin.
      change k with (fst (k, v)). now apply in_map.
    + now apply IH.
Qed.
End StringDictFacts.

Section StepFacts.
Import Environment GridSpec.
Local Open Scope string_scope.
Local Open Scope Z_scope.

Variable cfg : EnvironmentConfig.
Variable target : pos.
Variable obs : list pos.

Lemma fold_move_None (actions : list (string * Z)) :
  fold_left (move cfg target obs) actions None = None.
Proof. induction actions as [|a r IH]; [reflexivity | exact IH]. Qed.

(** A turn of the loop that raises nothing, spelled out. *)
Lemma move_Some (st st' : moves) (name : string) (action : Z) :
  move cfg target obs (Some st) (name, action) = Some st' ->
  exists (p : pos) (e : R),
    PyDict.get String.eqb (m_pos st) name = Some p
    /\ PyDict.get String.eqb (m_energy st) name = Some e
    /\ let hit := hit_obstacle obs (attempted cfg p action) in
       let new_pos := if hit then p else attempted cfg p action in
       st' = mkMoves
               (PyDict.set String.eqb (m_pos st) name new_pos)
               (PyDict.set String.eqb (m_energy st) name
                  (if hit then (e - collision_penalty cfg)%R else (e - move_cost cfg)%R))
               (PyDict.set String.eqb (m_rewards st) name (cell_reward cfg target new_pos))
               (if hit then PyDict.set String.eqb (m_collisions st) name true
                else m_collisions st)
               (PyDict.set String.eqb (m_reached st) name (pos_eqb new_pos target)).
Proof.
  cbn [move].
  destruct (PyDict.get String.eqb (m_pos st) name) as [p|]; [|discriminate].
  destruct (PyDict.get String.eqb (m_energy st) name) as [e|]; [|discriminate].
  intros [= <-]. exists p, e. repeat split.
Qed.

Lemma clip_in_grid (x : Z) : 1 <= grid_size cfg -> 0 <= clip x 0 (grid_size cfg - 1) < grid_size cfg.
Proof. unfold clip. lia. Qed.

Lemma attempted_in_grid (p : pos) (action : Z) :
  1 <= grid_size cfg -> in_grid cfg (attempted cfg p action).
Proof.
  intros Hg. unfold attempted. destruct (deltas action) as [dx dy].
  split; cbn [fst snd]; now apply clip_in_grid.
Qed.

Local Abbreviation placed := (GridSpec.placed cfg obs).

Lemma move_placed (st st' : moves) (item : string * Z) :
  1 <= grid_size cfg -> placed st ->
  move cfg target obs (Some st) item = Some st' -> placed st'.
Proof.
  intros Hg Hp Hm. destruct item as [name action].
  destruct (move_Some st st' name action Hm) as (p & e & Hpos & _ & ->).
  unfold GridSpec.placed in *. cbn [m_pos]. apply Forall_forall. intros np Hin.
  apply In_set_str in Hin. destruct Hin as [Hin| ->].
  - exact (proj1 (Forall_forall _ _) Hp np Hin).
  - cbn [snd].
    destruct (hit_obstacle obs (attempted cfg p action)) eqn:Eh.
    + exact (proj1 (Forall_forall _ _) Hp (name, p) (get_In_str _ _ _ Hpos)).
    + split; [now apply attempted_in_grid | exact Eh].
Qed.

Lemma move_keys (st st' : moves) (item : string * Z) :
  move cfg target obs (Some st) item = Some st' ->
  PyDict.keys (m_pos st') = PyDict.keys (m_pos st)
  /\ PyDict.keys (m_energy st') = PyDict.keys (m_energy st).
Proof.
  intros Hm. destruct item as [name action].
  destruct (move_Some st st' name action Hm) as (p & e & Hpos & He & ->).
  cbn [m_pos m_energy]. split; eapply keys_set_present; eassumption.
Qed.

Lemma fold_move_placed (actions : list (string * Z)) :
  forall st st',
    1 <= grid_size cfg -> placed st ->
    fold_left (move cfg target obs) actions (Some st) = Some st' ->
    placed st'
    /\ PyDict.keys (m_pos st') = PyDict.keys (m_pos st)
    /\ PyDict.keys (m_energy st') = PyDict.keys (m_energy st).
Proof.
  induction actions as [|a r IH]; intros st st' Hg Hp Hf; cbn [fold_left] in Hf.
  - injection Hf as <-. repeat split. exact Hp.
  - destruct (move cfg target obs (Some st) a) as [st1|] eqn:E1;
      [|now rewrite fold_move_None in Hf].
    destruct (IH st1 st' Hg (move_placed st st1 a Hg Hp E1) Hf) as (H1 & H2 & H3).
    destruct (move_keys st st1 a E1) as [K1 K2].
    repeat split; [exact H1 | congruence | congruence].
Qed.

(** The turns of the other agents leave an agent's entries alone. *)
Lemma fold_move_untouched (name : string) (actions : list (string * Z)) :
  forall st st',
    fold_left (move cfg target obs) actions (Some st) = Some st' ->
    ~ In name (PyDict.keys actions) ->
    PyDict.get String.eqb (m_pos st') name = PyDict.get String.eqb (m_pos st) name
    /\ PyDict.get String.eqb (m_energy st') name
       = PyDict.get String.eqb (m_energy st) name
    /\ PyDict.get String.eqb (m_rewards st') name
       = PyDict.get String.eqb (m_rewards st) name
    /\ PyDict.get String.eqb (m_reached st') name
       = PyDict.get String.eqb (m_reached st) name
    /\ PyDict.get String.eqb (m_collisions st') name
       = PyDict.get String.eqb (m_collisions st) name.
Proof.
  induction actions as [|[n a] r IH]; intros st st' Hf Hnin; cbn [fold_left] in Hf.
  - injection Hf as <-. repeat split.
  - destruct (move cfg target obs (Some st) (n, a)) as [st1|] eqn:E1;
      [|now rewrite fold_move_None in Hf].
    cbn [PyDict.keys map fst In] in Hnin.
    assert (Hne : n <> name) by tauto.
    destruct (IH st1 st' Hf ltac:(unfold PyDict.keys; tauto)) as (H1 & H2 & H3 & H4 & H5).
    destruct (move_Some st st1 n a E1) as (p & e & _ & _ & ->).
    cbn [m_pos m_energy m_rewards m_reached m_collisions] in *.
    rewrite H1, H2, H3, H4, H5.
    rewrite !(get_set_other String.eqb string_eqb_spec) by exact Hne.
    repeat split.
    destruct (hit_obstacle obs (attempted cfg p a)); [|reflexivity].
    now rewrite (get_set_other String.eqb string_eqb_spec) by exact Hne.
Qed.

(** What the loop does to the agent [name], whose action is [action]. *)
Lemma fold_move_outcome (name : string) (action : Z) (actions : list (string * Z)) :
  forall st st',
    fold_left (move cfg target obs) actions (Some st) = Some st' ->
    NoDup (PyDict.keys actions) ->
    PyDict.get String.eqb actions name = Some action ->
    exists (p : pos) (e : R),
      PyDict.get String.eqb (m_pos st) name = Some p
      /\ PyDict.get String.eqb (m_energy st) name = Some e
      /\ let hit := hit_obstacle obs (attempted cfg p action) in
         let new_pos := if hit then p else attempted cfg p action in
         PyDict.get String.eqb (m_pos st') name = Some new_pos
         /\ PyDict.get String.eqb (m_energy st') name
            = Some (if hit then (e - collision_penalty cfg)%R else (e - move_cost cfg)%R)
         /\ PyDict.get String.eqb (m_rewards st') name
            = Some (cell_reward cfg target new_pos)
         /\ PyDict.get String.eqb (m_reached st') name = Some (pos_eqb new_pos target)
         /\ PyDict.get String.eqb (m_collisions st') name
            = if hit then Some true else PyDict.get String.eqb (m_collisions st) name.
Proof.
  induction actions as [|[n a] r IH]; intros st st' Hf Hnd Hget;
    cbn [fold_left PyDict.get] in *; [discriminate|].
  destruct (move cfg target obs (Some st) (n, a)) as [st1|] eqn:E1;
    [|now rewrite fold_move_None in Hf].
  cbn [PyDict.keys map fst] in Hnd. inversion Hnd as [|? ? Hnin Hnd']; subst.
  destruct (move_Some st st1 n a E1) as (p & e & Hp & He & Hst1).
  destruct (String.eqb n name) eqn:En.
  - apply String.eqb_eq in En. subst n. injection Hget as <-.
    destruct (fold_move_untouched name r st1 st' Hf Hnin) as (H1 & H2 & H3 & H4 & H5).
    exists p, e. split; [exact Hp|]. split; [exact He|]. cbv zeta in *.
    rewrite H1, H2, H3, H4, H5. subst st1.
    cbn [m_pos m_energy m_rewards m_reached m_collisions].
    rewrite !(get_set_same String.eqb string_eqb_spec).
    repeat split.
    destruct (hit_obstacle obs (attempted cfg p a)); [|reflexivity].
    now rewrite (get_set_same String.eqb string_eqb_spec).
  - apply String.eqb_neq in En.
    destruct (IH st1 st' Hf Hnd' Hget) as (p' & e' & Hp' & He' & Hout).
    exists p', e'. cbv zeta in *. subst st1.
    cbn [m_pos m_energy m_rewards m_reached m_collisions] in *.
    rewrite (get_set_other String.eqb string_eqb_spec) in Hp' by exact En.
    rewrite (get_set_other String.eqb string_eqb_spec) in He' by exact En.
    split; [exact Hp'|]. split; [exact He'|].
    destruct Hout as (O1 & O2 & O3 & O4 & O5).
    repeat split; try assumption.
    rewrite O5. destruct (hit_obstacle obs (attempted cfg p' action)); [reflexivity|].
    destruct (hit_obstacle obs (attempted cfg p a)); [|reflexivity].
    now rewrite (get_set_other String.eqb string_eqb_spec) by exact En.
Qed.
End StepFacts.

Section StepResult.
Import Environment GridSpec.
Local Open Scope string_scope.
Local Open Scope Z_scope.

(** A call of [step] that raises nothing, spelled out. *)
Lemma step_Some (env env' : Environment) (actions : list (string * Z))
      (rewards : list (string * R)) (done : bool) (info : Info) :
  step env actions = Some (env', (rewards, done, info)) ->
  exists st,
    fold_left (move (config env) (target_pos env) (obstacles env)) actions
      (Some (mkMoves (agents_pos env) (energy env) [] [] [])) = Some st
    /\ observable (config env) (target_pos env) (obstacles env) (m_pos st) = true
    /\ env' = mkEnvironment (config env) (step_count env + 1) (m_pos st)
                (target_pos env) (obstacles env) (m_energy st)
    /\ rewards = m_rewards st
    /\ collisions info = m_collisions st
    /\ reached_target info = m_reached st
    /\ info_energy info = m_energy st
    /\ info_step info = step_count env + 1
    /\ done = (existsb (fun b : bool => b) (PyDict.values (m_reached st))
               || forallb (fun e => if Rle_dec e 0 then true else false)
                          (PyDict.values (m_energy st))
               || (max_steps (config env) <=? step_count env + 1))
    /\ done = negb (String.eqb (done_reason info) "running").
Proof.
  unfold step.
  destruct (fold_left _ actions _) as [st|]; [|discriminate].
  destruct (observable _ _ _ (m_pos st)) eqn:Eo; [|discriminate].
  intros [= <- <- <- <-]. exists st. cbn [collisions reached_target info_energy
    info_step done_reason].
  repeat split; try reflexivity; try assumption.
  destruct (existsb (fun b : bool => b) (PyDict.values (m_reached st))); [reflexivity|].
  destruct (forallb (fun e => if Rle_dec e 0 then true else false)
                    (PyDict.values (m_energy st))); [reflexivity|].
  now destruct (max_steps (config env) <=? step_count env + 1).
Qed.

Lemma observable_grid_size (cfg : EnvironmentConfig) (target : pos) (obs : list pos)
      (ps : list (string * pos)) :
  observable cfg target obs ps = true -> 1 <= grid_size cfg.
Proof.
  unfold observable, index_ok. intros H.
  repeat (apply andb_prop in H; destruct H as [H ?]).
  repeat match goal with
         | H : _ && _ = true |- _ => apply andb_prop in H; destruct H
         end.
  lia.
Qed.
End StepResult.

(** X23.  [step] keeps the agents on the grid and off the obstacles: if
    every agent stands on a cell of the grid that holds no obstacle, then
    after a step that raises nothing every agent still does.  The step
    changes neither the set of agents, nor the target, the obstacles or the
    configuration. *)
Theorem step_keeps_agents_on_free_cells :
  forall (env env' : Environment.Environment) (actions : list (string * Z))
         (result : list (string * R) * bool * Environment.Info),
    Environment.step env actions = Some (env', result) ->
    GridSpec.well_placed env ->
    GridSpec.well_placed env'
    /\ PyDict.keys (Environment.agents_pos env') = PyDict.keys (Environment.agents_pos env)
    /\ PyDict.keys (Environment.energy env') = PyDict.keys (Environment.energy env)
    /\ Environment.target_pos env' = Environment.target_pos env
    /\ Environment.obstacles env' = Environment.obstacles env
    /\ Environment.config env' = Environment.config env.
Proof.
  intros env env' actions [[rewards done] info] Hs Hw.
  destruct (step_Some env env' actions rewards done info Hs)
    as (st & Hf & Ho & -> & _).
  pose proof (observable_grid_size _ _ _ _ Ho) as Hg.
  destruct (fold_move_placed (Environment.config env) (Environment.target_pos env)
              (Environment.obstacles env) actions
              (Environment.mkMoves (Environment.agents_pos env) (Environment.energy env)
                 [] [] [])
              st Hg Hw Hf) as (H1 & H2 & H3).
  unfold GridSpec.well_placed.
  cbn [Environment.agents_pos Environment.config Environment.obstacles
       Environment.energy Environment.target_pos Environment.m_pos Environment.m_energy]
    in *.
  repeat split; assumption.
Qed.

(** A grid of 5 x 5 with an obstacle right of agent A: A runs into it, B
    stays, C moves down. *)
Lemma step_keeps_agents_on_free_cells_witness :
  let env :=
    Environment.mkEnvironment
      (Environment.mkEnvironmentConfig 5 1 8 100 100 1 5) 0
      [("A"%string, (0, 0)); ("B"%string, (1, 1)); ("C"%string, (2, 2))]
      (4, 4) [(0, 1)]
      [("A"%string, 100%R); ("B"%string, 100%R); ("C"%string, 100%R)] in
  let actions := [("A"%string, 3); ("B"%string, 4); ("C"%string, 1)] in
  match Environment.step env actions with
  | Some (env', _) =>
      GridSpec.well_placed env'
      /\ PyDict.keys (Environment.agents_pos env') = PyDict.keys (Environment.agents_pos env)
      /\ PyDict.keys (Environment.energy env') = PyDict.keys (Environment.energy env)
      /\ Environment.target_pos env' = Environment.target_pos env
      /\ Environment.obstacles env' = Environment.obstacles env
      /\ Environment.config env' = Environment.config env
  | None => False
  end.
Proof.
  cbv zeta.
  match goal with
  | |- match Environment.step ?env ?actions with _ => _ end =>
      destruct (Environment.step env actions) as [[env' result]|] eqn:E;
      [ refine (step_keeps_agents_on_free_cells env env' actions result E _)
      | revert E;
        cbv -[IZR sqrt Rdiv Rminus Rplus Rmult Rle_dec Ropp Rinv]; discriminate ]
  end.
  repeat constructor; cbn; lia.
Defined.

(** X24.  In a step every agent moves on its own.  An agent with an action
    ends on the cell it tried to enter (its cell shifted by the action and
    clipped to the grid) or, when that cell holds an obstacle, where it
    was; it pays [collision_penalty] in the second case and [move_cost] in
    the first, also for staying; its reward and its [reached_target] flag
    are those of the cell it ends on; it is listed under [collisions]
    exactly when it ran into an obstacle.  None of this depends on the
    other agents: two agents may end on the same cell.  An agent without
    an action keeps its position and its energy and gets no reward. *)
Theorem step_moves_each_agent_on_its_own :
  forall (env env' : Environment.Environment) (actions : list (string * Z))
         (rewards : list (string * R)) (done : bool) (info : Environment.Info),
    Environment.step env actions = Some (env', (rewards, done, info)) ->
    NoDup (PyDict.keys actions) ->
    (forall (name : string) (action : Z),
        PyDict.get String.eqb actions name = Some action ->
        exists (p : Environment.pos) (e : R),
          PyDict.get String.eqb (Environment.agents_pos env) name = Some p
          /\ PyDict.get String.eqb (Environment.energy env) name = Some e
          /\ PyDict.get String.eqb (Environment.agents_pos env') name
             = Some (GridSpec.landing env p action)
          /\ PyDict.get String.eqb (Environment.energy env') name
             = Some (e - GridSpec.charge env p action)%R
          /\ PyDict.get String.eqb rewards name
             = Some (Environment.cell_reward (Environment.config env)
                       (Environment.target_pos env) (GridSpec.landing env p action))
          /\ PyDict.get String.eqb (Environment.reached_target info) name
             = Some (Environment.pos_eqb (GridSpec.landing env p action)
                       (Environment.target_pos env))
          /\ PyDict.get String.eqb (Environment.collisions info) name
             = if Environment.hit_obstacle (Environment.obstacles env)
                    (Environment.attempted (Environment.config env) p action)
               then Some true else None)
    /\ (forall name : string,
          PyDict.get String.eqb actions name = None ->
          PyDict.get String.eqb (Environment.agents_pos env') name
          = PyDict.get String.eqb (Environment.agents_pos env) name
          /\ PyDict.get String.eqb (Environment.energy env') name
             = PyDict.get String.eqb (Environment.energy env) name
          /\ PyDict.get String.eqb rewards name = None).
Proof.
  intros env env' actions rewards done info Hs Hnd.
  destruct (step_Some env env' actions rewards done info Hs)
    as (st & Hf & _ & -> & -> & Hc & Hr & _).
  rewrite Hc, Hr. cbn [Environment.agents_pos Environment.energy]. split.
  - intros name action Hget.
    destruct (fold_move_outcome _ _ _ name action actions _ st Hf Hnd Hget)
      as (p & e & Hp & He & O1 & O2 & O3 & O4 & O5).
    cbn [Environment.m_pos Environment.m_energy Environment.m_collisions] in Hp, He, O5.
    exists p, e. unfold GridSpec.landing, GridSpec.charge.
    split; [exact Hp|]. split; [exact He|]. split; [exact O1|].
    split; [|split; [exact O3|split; [exact O4|]]].
    + rewrite O2.
      now destruct (Environment.hit_obstacle (Environment.obstacles env)
                      (Environment.attempted (Environment.config env) p action)).
    + rewrite O5.
      now destruct (Environment.hit_obstacle (Environment.obstacles env)
                      (Environment.attempted (Environment.config env) p action)).
  - intros name Hget.
    apply (get_None_not_in String.eqb string_eqb_spec) in Hget.
    destruct (fold_move_untouched _ _ _ name actions _ st Hf Hget)
      as (H1 & H2 & H3 & _).
    cbn [Environment.m_pos Environment.m_energy Environment.m_rewards] in H1, H2, H3.
    repeat split; assumption.
Qed.

(** The step of the grid above: C, at (2, 2) with energy 100, moves down. *)
Lemma step_moves_each_agent_on_its_own_witness :
  let env :=
    Environment.mkEnvironment
      (Environment.mkEnvironmentConfig 5 1 8 100 100 1 5) 0
      [("A"%string, (0, 0)); ("B"%string, (1, 1)); ("C"%string, (2, 2))]
      (4, 4) [(0, 1)]
      [("A"%string, 100%R); ("B"%string, 100%R); ("C"%string, 100%R)] in
  let actions := [("A"%string, 3); ("B"%string, 4); ("C"%string, 1)] in
  match Environment.step env actions with
  | Some (env', (rewards, done, info)) =>
      PyDict.get String.eqb (Environment.agents_pos env') "C"%string = Some (3, 2)
      /\ PyDict.get String.eqb (Environment.energy env') "C"%string = Some (100 - 1)%R
      /\ PyDict.get String.eqb (Environment.agents_pos env') "A"%string = Some (0, 0)
      /\ PyDict.get String.eqb (Environment.energy env') "A"%string = Some (100 - 5)%R
      /\ PyDict.get String.eqb (Environment.collisions info) "A"%string = Some true
  | None => False
  end.
Proof.
  cbv zeta.
  match goal with
  | |- match Environment.step ?env ?actions with _ => _ end =>
      destruct (Environment.step env actions) as [[env' [[rewards done] info]]|] eqn:E;
      [ pose proof (step_moves_each_agent_on_its_own env env' actions rewards done info E)
          as H
      | revert E;
        cbv -[IZR sqrt Rdiv Rminus Rplus Rmult Rle_dec Ropp Rinv]; discriminate ]
  end.
  assert (Hnd : NoDup (PyDict.keys [("A"%string, 3); ("B"%string, 4); ("C"%string, 1)])).
  { repeat constructor; cbn; intuition discriminate. }
  destruct (H Hnd) as [Hact _].
  destruct (Hact "C"%string 1 eq_refl) as (p & e & Hp & He & H1 & H2 & _).
  destruct (Hact "A"%string 3 eq_refl) as (p' & e' & Hp' & He' & H1' & H2' & _ & _ & H5').
  cbn in Hp, He, Hp', He'.
  injection Hp as <-. injection He as <-. injection Hp' as <-. injection He' as <-.
  repeat split; assumption.
Defined.

Section EpisodeFacts.
Import Environment EpisodeSpec.
Local Open Scope Z_scope.

Lemma step_counts (env env' : Environment) (actions : list (string * Z))
      (rewards : list (string * R)) (done : bool) (info : Info) :
  step env actions = Some (env', (rewards, done, info)) ->
  step_count env' = step_count env + 1
  /\ config env' = config env
  /\ info_step info = step_count env'
  /\ (max_steps (config env) <= step_count env + 1 -> done = true)
  /\ done = negb (String.eqb (done_reason info) "running").
Proof.
  intros Hs.
  destruct (step_Some env env' actions rewards done info Hs)
    as (st & _ & _ & -> & _ & _ & _ & _ & Hstep & Hdone & Hreason).
  cbn [step_count config]. repeat split; try assumption.
  intros Hmax. rewrite Hdone.
  replace (max_steps (config env) <=? step_count env + 1) with true
    by (symmetry; now apply Z.leb_le).
  now rewrite orb_true_r.
Qed.

(** The loop ends by [done] before the step counter passes [max_steps]. *)
Lemma episode_bound (plan : list (list (string * Z))) :
  forall (env env' : Environment) (ended : bool),
    episode env plan = Some (env', ended) ->
    config env' = config env
    /\ (if ended
        then step_count env < step_count env'
             /\ step_count env' <= Z.max (max_steps (config env)) (step_count env + 1)
        else step_count env' = step_count env + Z.of_nat (length plan)
             /\ (plan <> [] -> step_count env' < max_steps (config env))).
Proof.
  induction plan as [|actions rest IH]; intros env env' ended H; cbn [episode] in H.
  - injection H as <- <-. cbn [length]. split; [reflexivity|].
    split; [lia | intros Hn; now contradiction Hn].
  - destruct (step env actions) as [[env1 [[rewards done] info]]|] eqn:Es; [|discriminate].
    destruct (step_counts env env1 actions rewards done info Es)
      as (Hc & Hcfg & _ & Hmax & _).
    destruct done.
    + injection H as <- <-. split; [exact Hcfg|]. lia.
    + destruct (IH env1 env' ended H) as [Hcfg' Hb]. rewrite Hcfg in Hcfg', Hb.
      split; [exact Hcfg'|].
      assert (Hlt : step_count env + 1 < max_steps (config env)).
      { destruct (Z.lt_ge_cases (step_count env + 1) (max_steps (config env)));
          [assumption|]. discriminate Hmax. lia. }
      destruct ended.
      * lia.
      * destruct Hb as [Hb1 Hb2]. cbn [length]. split; [lia|]. intros _.
        destruct rest as [|a r]; [cbn [length] in Hb1; lia|].
        apply Hb2. discriminate.
Qed.
End EpisodeFacts.

(** X25.  An episode ends.  Each step raises the step counter by one and
    reports [done] as soon as the counter has reached [max_steps]; [done]
    is true exactly when [done_reason] is not ["running"].  So the loop
    [while not done] of the engine, run on a plan of actions long enough
    to reach [max_steps], ends by [done], after at least one and at most
    [max_steps] steps (one step if the counter is already there). *)
Theorem episode_ends_by_max_steps :
  forall (plan : list (list (string * Z))) (env env' : Environment.Environment)
         (ended : bool),
    EpisodeSpec.episode env plan = Some (env', ended) ->
    plan <> [] ->
    Environment.max_steps (Environment.config env)
    <= Environment.step_count env + Z.of_nat (length plan) ->
    ended = true
    /\ Environment.step_count env < Environment.step_count env'
    /\ Environment.step_count env'
       <= Z.max (Environment.max_steps (Environment.config env))
                (Environment.step_count env + 1).
Proof.
  intros plan env env' ended H Hne Hlen.
  destruct (episode_bound plan env env' ended H) as [_ Hb].
  destruct ended; [split; [reflexivity | exact Hb]|].
  destruct Hb as [Hb1 Hb2]. specialize (Hb2 Hne). lia.
Qed.

(** The grid above with [max_steps = 1]: the agents stay put. *)
Lemma episode_ends_by_max_steps_witness :
  let env :=
    Environment.mkEnvironment
      (Environment.mkEnvironmentConfig 5 1 8 1 100 1 5) 0
      [("A"%string, (0, 0)); ("B"%string, (1, 1)); ("C"%string, (2, 2))]
      (4, 4) [(0, 1)]
      [("A"%string, 100%R); ("B"%string, 100%R); ("C"%string, 100%R)] in
  let stay := [("A"%string, 4); ("B"%string, 4); ("C"%string, 4)] in
  match EpisodeSpec.episode env [stay; stay] with
  | Some (env', ended) =>
      ended = true
      /\ 0 < Environment.step_count env'
      /\ Environment.step_count env' <= 1
  | None => False
  end.
Proof.
  cbv zeta.
  match goal with
  | |- match EpisodeSpec.episode ?env ?plan with _ => _ end =>
      destruct (EpisodeSpec.episode env plan) as [[env' ended]|] eqn:E;
      [ refine (episode_ends_by_max_steps plan env env' ended E _ _);
        [discriminate | cbn; lia]
      | cbn [EpisodeSpec.episode] in E ]
  end.
  match type of E with
  | match Environment.step ?env ?actions with _ => _ end = None =>
      destruct (Environment.step env actions) as [[env1 [[rewards done] info]]|] eqn:Es;
      [ pose proof (step_counts _ _ _ _ _ _ Es) as (_ & _ & _ & Hd & _);
        rewrite Hd in E by (cbn; lia); discriminate E
      | revert Es;
        cbv -[IZR sqrt Rdiv Rminus Rplus Rmult Rle_dec Ropp Rinv]; discriminate ]
  end.
Defined.

(** ** What the history records, step by step *)

Section UpdateFacts.
Context {V : Type}.

Local Abbreviation upd := (PyDict.update (V := V) String.eqb).

(** Assigning fresh keys in turn appends them. *)
Lemma update_fresh (e d : list (string * V)) :
  NoDup (PyDict.keys (d ++ e)) -> upd d e = d ++ e.
Proof.
  revert d. induction e as [|[k v] r IH]; intros d Hnd; unfold PyDict.update in *;
    cbn [fold_left fst snd].
  - now rewrite app_nil_r.
  - assert (Hnin : ~ In k (PyDict.keys d)).
    { unfold PyDict.keys in *. rewrite map_app in Hnd. cbn [map fst] in Hnd.
      apply NoDup_remove_2 in Hnd. intros H. apply Hnd. apply in_or_app. now left. }
    rewrite (set_new String.eqb string_eqb_spec) by exact Hnin.
    rewrite IH; rewrite <- app_assoc; [reflexivity | exact Hnd].
Qed.

Lemma get_update (e d : list (string * V)) (k : string) :
  NoDup (PyDict.keys e) ->
  PyDict.get String.eqb (upd d e) k
  = match PyDict.get String.eqb e k with
    | Some v => Some v
    | None => PyDict.get String.eqb d k
    end.
Proof.
  revert d. induction e as [|[k0 v0] r IH]; intros d Hnd; unfold PyDict.update in *;
    cbn [fold_left fst snd PyDict.get]; [reflexivity|].
  cbn [PyDict.keys map fst] in Hnd. inversion Hnd as [|? ? Hnin Hnd']; subst.
  rewrite (IH _ Hnd'). destruct (String.eqb k0 k) eqn:E.
  - apply String.eqb_eq in E. subst k0.
    rewrite (proj2 (get_None_not_in String.eqb string_eqb_spec r k) Hnin).
    apply (get_set_same String.eqb string_eqb_spec).
  - apply String.eqb_neq in E.
    now rewrite (get_set_other String.eqb string_eqb_spec) by exact E.
Qed.

Lemma keys_update_present (e d : list (string * V)) :
  incl (PyDict.keys e) (PyDict.keys d) -> PyDict.keys (upd d e) = PyDict.keys d.
Proof.
  revert d. induction e as [|[k0 v0] r IH]; intros d Hin; unfold PyDict.update in *;
    cbn [fold_left fst snd]; [reflexivity|].
  assert (Hk : PyDict.keys (PyDict.set String.eqb d k0 v0) = PyDict.keys d).
  { rewrite (keys_set String.eqb string_eqb_spec).
    assert (H : existsb (fun k' => String.eqb k0 k') (PyDict.keys d) = true).
    { apply existsb_exists. exists k0. split; [apply Hin; now left | apply String.eqb_refl]. }
    now rewrite H. }
  rewrite IH; [exact Hk|]. rewrite Hk. intros x Hx. apply Hin. now right.
Qed.

(** Two dictionaries with the same keys and the same values are equal. *)
Lemma dict_ext (d1 d2 : list (string * V)) :
  PyDict.keys d1 = PyDict.keys d2 -> NoDup (PyDict.keys d1) ->
  (forall k, PyDict.get String.eqb d1 k = PyDict.get String.eqb d2 k) ->
  d1 = d2.
Proof.
  revert d2. induction d1 as [|[k v] r IH]; intros [|[k' v'] r'] Hk Hnd Hg;
    try discriminate; [reflexivity|].
  cbn [PyDict.keys map fst] in Hk, Hnd. injection Hk as <- Hk.
  inversion Hnd as [|? ? Hnin Hnd']; subst.
  pose proof (Hg k) as Hgk. cbn [PyDict.get] in Hgk. rewrite String.eqb_refl in Hgk.
  injection Hgk as <-. f_equal. apply IH; [exact Hk | exact Hnd'|].
  intros k0. specialize (Hg k0). cbn [PyDict.get] in Hg.
  destruct (String.eqb k k0) eqn:E; [|exact Hg].
  apply String.eqb_eq in E. subst k0.
  rewrite (proj2 (get_None_not_in String.eqb string_eqb_spec r k) Hnin).
  symmetry. apply (get_None_not_in String.eqb string_eqb_spec).
  unfold PyDict.keys in *. now rewrite <- Hk.
Qed.

(** Overwriting every key of a dictionary, or filling an empty one. *)
Lemma update_same_keys (d e : list (string * V)) :
  NoDup (PyDict.keys e) -> d = [] \/ PyDict.keys d = PyDict.keys e -> upd d e = e.
Proof.
  intros Hnd [-> | Hk].
  - now apply (update_fresh e []).
  - apply dict_ext.
    + rewrite keys_update_present; [exact Hk|]. rewrite Hk. apply incl_refl.
    + rewrite keys_update_present; [now rewrite Hk|]. rewrite Hk. apply incl_refl.
    + intros k. rewrite get_update by exact Hnd.
      destruct (PyDict.get String.eqb e k) eqn:E; [reflexivity|].
      apply (get_None_not_in String.eqb string_eqb_spec).
      apply (get_None_not_in String.eqb string_eqb_spec) in E.
      unfold PyDict.keys in *. now rewrite Hk.
Qed.
End UpdateFacts.

Section StepHistory.
Import CommBuffer BufferTrace HistorySpec.
Variable T : Type.

Local Abbreviation buffer := (CommBuffer T).

(** The sends of a step assign the signals and the types in turn. *)
Lemma sends_update (sends : list (string * (list T * Z))) :
  forall b : buffer,
    fold_left (do_call T)
      (map (fun s => Send (fst s) (fst (snd s)) (snd (snd s))) sends) b
    = mkBuffer T (config T b)
        (PyDict.update String.eqb (_buffer T b) (signals_of sends))
        (_history T b) (_killed T b)
        (PyDict.update String.eqb (_type_buffer T b) (types_of sends))
        (_type_history T b).
Proof.
  induction sends as [|[name [sig ty]] r IH]; intros b.
  - now destruct b.
  - cbn [map fold_left fst snd]. rewrite IH. reflexivity.
Qed.

Lemma keys_signals_of (sends : list (string * (list T * Z))) :
  PyDict.keys (signals_of sends) = map fst sends.
Proof. unfold PyDict.keys, signals_of. rewrite map_map. reflexivity. Qed.

Lemma keys_types_of (sends : list (string * (list T * Z))) :
  PyDict.keys (types_of sends) = map fst sends.
Proof. unfold PyDict.keys, types_of. rewrite map_map. reflexivity. Qed.

Lemma step_fold (sends : list (string * (list T * Z))) (b : buffer) :
  fold_left (do_call T) (step_calls sends) b
  = record_history T
      (mkBuffer T (config T b)
         (PyDict.update String.eqb (_buffer T b) (signals_of sends))
         (_history T b) (_killed T b)
         (PyDict.update String.eqb (_type_buffer T b) (types_of sends))
         (_type_history T b)).
Proof. unfold step_calls. rewrite fold_left_app, sends_update. reflexivity. Qed.

(** Steps that all send for the same agents, from a buffer that is empty or
    holds these agents. *)
Lemma steps_history (ks : list string) (steps : list (list (string * (list T * Z)))) :
  NoDup ks -> Forall (fun s => map fst s = ks) steps ->
  forall b : buffer,
    _buffer T b = [] \/ PyDict.keys (_buffer T b) = ks ->
    _type_buffer T b = [] \/ PyDict.keys (_type_buffer T b) = ks ->
    let b' := fold_left (do_call T) (concat (map step_calls steps)) b in
    _history T b' = _history T b ++ map signals_of steps
    /\ _type_history T b' = _type_history T b ++ map types_of steps.
Proof.
  intros Hnd Hsteps. induction Hsteps as [|s r Hs _ IH]; intros b Hb Ht; cbv zeta.
  - cbn [map concat fold_left]. now rewrite !app_nil_r.
  - cbn [map concat]. rewrite fold_left_app, step_fold.
    cbn [record_history snapshot _buffer _type_buffer _history _type_history config
         _killed].
    rewrite (update_same_keys (_buffer T b) (signals_of s));
      [|rewrite keys_signals_of, Hs; exact Hnd
       |rewrite keys_signals_of, Hs; exact Hb].
    rewrite (update_same_keys (_type_buffer T b) (types_of s));
      [|rewrite keys_types_of, Hs; exact Hnd
       |rewrite keys_types_of, Hs; exact Ht].
    match goal with
    | |- context [fold_left (do_call T) _ ?b1] => specialize (IH b1)
    end.
    cbv zeta in IH.
    cbn [record_history snapshot _buffer _type_buffer _history _type_history] in IH.
    destruct IH as [IH1 IH2].
    + right. now rewrite keys_signals_of.
    + right. now rewrite keys_types_of.
    + rewrite IH1, IH2, <- !app_assoc. split; reflexivity.
Qed.
End StepHistory.

(** X26.  The history records every step as it was sent.  When each step
    of an epoch consists of one [send] per agent, for the same agents in
    every step, followed by [record_history()] (the pattern of the
    engine's episode loop), then after any number of steps on a fresh
    buffer [history] holds, step by step, exactly the signals sent in that
    step, and [type_history] exactly their types, in the order of the
    sends. *)
Theorem history_records_each_step :
  forall (T : Type) (cfg : CommBuffer.CommBufferConfig) (ks : list string)
         (steps : list (list (string * (list T * Z)))),
    NoDup ks ->
    Forall (fun s => map fst s = ks) steps ->
    let b := CommBuffer.run T cfg (concat (map BufferTrace.step_calls steps)) in
    CommBuffer._history T b = map HistorySpec.signals_of steps
    /\ CommBuffer._type_history T b = map HistorySpec.types_of steps.
Proof.
  intros T cfg ks steps Hnd Hs.
  exact (steps_history T ks steps Hnd Hs (CommBuffer.new T cfg)
           (or_introl eq_refl) (or_introl eq_refl)).
Qed.

(** Two steps of the agents A, B and C. *)
Lemma history_records_each_step_witness :
  let steps :=
    [ [("A"%string, ([1; 2], 0)); ("B"%string, ([3; 4], 1)); ("C"%string, ([5; 6], 2))];
      [("A"%string, ([7; 8], 2)); ("B"%string, ([9; 0], 0)); ("C"%string, ([1; 1], 1))] ] in
  let b := CommBuffer.run Z CommBuffer.default_config
             (concat (map BufferTrace.step_calls steps)) in
  CommBuffer._history Z b = map HistorySpec.signals_of steps
  /\ CommBuffer._type_history Z b = map HistorySpec.types_of steps.
Proof.
  cbv zeta.
  apply (history_records_each_step Z CommBuffer.default_config
           ["A"; "B"; "C"]%string).
  - repeat constructor; cbn; intuition discriminate.
  - repeat constructor.
Defined.

(** ** Stop is final *)

Section ControlFacts.
Import EngineControl RunControl ControlSpec.

Lemma handle_addressee (es : engines) (r : request) (f : flags) :
  PyDict.get Z.eqb es (addressee r) = Some f ->
  handle es r
  = (PyDict.set Z.eqb es (addressee r)
       (match r with
        | StopRun _ => stop f
        | PauseRun _ => pause f
        | ResumeRun _ => resume f
        end), true).
Proof.
  destruct r; cbn [handle addressee]; unfold stop_run, pause_run, resume_run;
    now intros ->.
Qed.

Lemma handle_unknown (es : engines) (r : request) :
  PyDict.get Z.eqb es (addressee r) = None -> handle es r = (es, false).
Proof.
  destruct r; cbn [handle addressee]; unfold stop_run, pause_run, resume_run;
    now intros ->.
Qed.

(** The flags of a registered run after a sequence of requests. *)
Lemma handle_all_flags (rs : list request) :
  forall (es : engines) (run_id : Z) (f : flags),
    PyDict.get Z.eqb es run_id = Some f ->
    PyDict.get Z.eqb (fst (handle_all es rs)) run_id
    = Some (mkFlags (paused_after run_id rs (_paused f))
                    (_stopped f || stop_requested run_id rs)).
Proof.
  induction rs as [|r rest IH]; intros es run_id f Hf; cbn [handle_all].
  - cbn [fst paused_after stop_requested existsb]. rewrite orb_false_r. now destruct f.
  - destruct (handle es r) as [es1 reply] eqn:Eh.
    destruct (handle_all es1 rest) as [es2 replies] eqn:Ea. cbn [fst].
    assert (Hes2 : es2 = fst (handle_all es1 rest)) by now rewrite Ea.
    subst es2. cbn [paused_after stop_requested existsb].
    destruct (PyDict.get Z.eqb es (addressee r)) as [g|] eqn:Eg.
    + rewrite (handle_addressee es r g Eg) in Eh. injection Eh as <- <-.
      destruct (Z.eqb_spec (addressee r) run_id) as [Heq|Hne].
      * assert (g = f) by congruence. subst g.
        rewrite (IH _ run_id _ (eq_trans (f_equal _ (eq_sym Heq))
                   (get_set_same Z.eqb Z.eqb_eq es (addressee r) _))).
        destruct r as [i|i|i]; cbn [addressee] in Heq; subst i;
          cbn [stop pause resume _paused _stopped]; rewrite ?Z.eqb_refl;
          cbn [orb]; now rewrite ?orb_true_r, ?orb_false_r.
      * rewrite (IH _ run_id f).
        -- destruct r as [i|i|i]; cbn [addressee] in *;
             replace (i =? run_id) with false by (symmetry; now apply Z.eqb_neq);
             reflexivity.
        -- now rewrite (get_set_other Z.eqb Z.eqb_eq) by exact Hne.
    + rewrite (handle_unknown es r Eg) in Eh. injection Eh as <- <-.
      assert (Hne : addressee r <> run_id) by congruence.
      rewrite (IH _ run_id f Hf).
      destruct r as [i|i|i]; cbn [addressee] in *;
        replace (i =? run_id) with false by (symmetry; now apply Z.eqb_neq);
        reflexivity.
Qed.

Lemma handle_all_unknown (rs : list request) :
  forall (es : engines) (run_id : Z),
    PyDict.get Z.eqb es run_id = None ->
    PyDict.get Z.eqb (fst (handle_all es rs)) run_id = None.
Proof.
  induction rs as [|r rest IH]; intros es run_id Hf; cbn [handle_all]; [exact Hf|].
  destruct (handle es r) as [es1 reply] eqn:Eh.
  destruct (handle_all es1 rest) as [es2 replies] eqn:Ea. cbn [fst].
  assert (Hes2 : es2 = fst (handle_all es1 rest)) by now rewrite Ea.
  subst es2. apply IH.
  destruct (PyDict.get Z.eqb es (addressee r)) as [g|] eqn:Eg.
  - rewrite (handle_addressee es r g Eg) in Eh. injection Eh as <- <-.
    assert (Hne : addressee r <> run_id) by congruence.
    now rewrite (get_set_other Z.eqb Z.eqb_eq) by exact Hne.
  - rewrite (handle_unknown es r Eg) in Eh. now injection Eh as <- <-.
Qed.
End ControlFacts.

(** X27.  Stop is final, and the runs do not interfere.  After any
    sequence of [stop_run], [pause_run] and [resume_run] requests, an
    engine registered at the start has [_stopped] set exactly when it had
    it before or a stop was addressed to it: no [resume_run] undoes a
    stop.  It is paused exactly as the last request addressed to it says
    (a stop lifts the pause); requests addressed to other runs change
    nothing.  [is_running] is true only if no stop ever came.  A run that
    is not registered stays unregistered. *)
Theorem stop_is_final :
  forall (es : RunControl.engines) (rs : list RunControl.request) (run_id : Z),
    match PyDict.get Z.eqb es run_id with
    | Some f =>
        exists f',
          PyDict.get Z.eqb (fst (RunControl.handle_all es rs)) run_id = Some f'
          /\ EngineControl._stopped f'
             = (EngineControl._stopped f || ControlSpec.stop_requested run_id rs)
          /\ EngineControl._paused f'
             = ControlSpec.paused_after run_id rs (EngineControl._paused f)
          /\ (EngineControl.is_running f' = true ->
              ControlSpec.stop_requested run_id rs = false)
    | None =>
        PyDict.get Z.eqb (fst (RunControl.handle_all es rs)) run_id = None
    end.
Proof.
  intros es rs run_id.
  destruct (PyDict.get Z.eqb es run_id) as [f|] eqn:E.
  - eexists. split; [exact (handle_all_flags rs es run_id f E)|].
    cbn [EngineControl._stopped EngineControl._paused]. split; [reflexivity|].
    split; [reflexivity|].
    unfold EngineControl.is_running. cbn [EngineControl._stopped].
    destruct (ControlSpec.stop_requested run_id rs); [|reflexivity].
    rewrite orb_true_r. discriminate.
  - exact (handle_all_unknown rs es run_id E).
Qed.

(** ** The format of a hash *)

Section HashFormatFacts.
Import Sha256 HashFormat.
Local Open Scope Z_scope.

Lemma hex_digit_is_hex (x : Z) : 0 <= x < 16 -> is_lower_hex (hex_digit x) = true.
Proof.
  intros H.
  assert (x = 0 \/ x = 1 \/ x = 2 \/ x = 3 \/ x = 4 \/ x = 5 \/ x = 6 \/ x = 7
          \/ x = 8 \/ x = 9 \/ x = 10 \/ x = 11 \/ x = 12 \/ x = 13 \/ x = 14 \/ x = 15)
    as Hx by lia.
  repeat (destruct Hx as [-> | Hx]; [reflexivity|]). subst x. reflexivity.
Qed.

Lemma land_15_range (w : Z) : 0 <= Z.land w 15 < 16.
Proof.
  change 15 with (Z.ones 4). rewrite Z.land_ones by lia.
  apply Z.mod_pos_bound. reflexivity.
Qed.

Lemma length_string_of_list_ascii (l : list ascii) :
  String.length (string_of_list_ascii l) = length l.
Proof. induction l as [|c l IH]; cbn; [reflexivity | now rewrite IH]. Qed.

Lemma list_ascii_of_string_app (a b : string) :
  list_ascii_of_string (a ++ b) = (list_ascii_of_string a ++ list_ascii_of_string b)%list.
Proof. induction a as [|c a IH]; cbn; [reflexivity | now rewrite IH]. Qed.

Lemma hex_of_word_format (w : Z) :
  String.length (hex_of_word w) = 8%nat
  /\ Forall (fun c => is_lower_hex c = true) (list_ascii_of_string (hex_of_word w)).
Proof.
  unfold hex_of_word. split.
  - now rewrite length_string_of_list_ascii, length_map.
  - rewrite list_ascii_of_string_of_list_ascii. apply Forall_forall.
    intros c Hc. apply in_map_iff in Hc. destruct Hc as (i & <- & _).
    apply hex_digit_is_hex, land_15_range.
Qed.

Lemma sha256_hex_format (s : string) : is_digest_text (sha256_hex s).
Proof.
  unfold sha256_hex, digest_words, is_digest_text.
  set (r := fold_left compress _ init).
  cbn [map String.concat].
  pose proof (hex_of_word_format (ra r)) as [La Fa].
  pose proof (hex_of_word_format (rb r)) as [Lb Fb].
  pose proof (hex_of_word_format (rc r)) as [Lc Fc].
  pose proof (hex_of_word_format (rd r)) as [Ld Fd].
  pose proof (hex_of_word_format (re r)) as [Le Fe].
  pose proof (hex_of_word_format (rf r)) as [Lf Ff].
  pose proof (hex_of_word_format (rg r)) as [Lg Fg].
  pose proof (hex_of_word_format (rh r)) as [Lh Fh].
  cbn [String.append]. split.
  - rewrite !string_length_app. lia.
  - rewrite !list_ascii_of_string_app. repeat (apply Forall_app; split); assumption.
Qed.
End HashFormatFacts.

(** X28.  Every hash of the ledger is a text of 64 lower-case hexadecimal
    digits, as the genesis hash is a text of 64 zeros: whatever the
    previous hash, the metrics and the seed, a hash that [compute_hash]
    returns has this form, and so have the [hash] and the [prev_hash] of
    every entry that [build_chain] writes. *)
Theorem hashes_are_64_hex_digits :
  HashFormat.is_digest_text HashChain.GENESIS_HASH
  /\ (forall (prev : string) (metrics : Json.pyval) (seed : Z) (h : string),
         HashChain.compute_hash prev metrics seed = Some h ->
         HashFormat.is_digest_text h)
  /\ (forall (M : list HashChain.metrics) (seed : Z) (chain : list HashChain.entry)
             (e : HashChain.entry),
         HashChain.build_chain M seed = Some chain -> In e chain ->
         HashFormat.is_digest_text (HashChain.hash e)
         /\ HashFormat.is_digest_text (HashChain.prev_hash e)).
Proof.
  assert (Hg : HashFormat.is_digest_text HashChain.GENESIS_HASH).
  { split; [reflexivity|]. repeat constructor. }
  assert (Hc : forall prev metrics seed h,
             HashChain.compute_hash prev metrics seed = Some h ->
             HashFormat.is_digest_text h).
  { intros prev metrics seed h. unfold HashChain.compute_hash.
    destruct (HashChain.canonical_json metrics); [|discriminate].
    intros [= <-]. apply sha256_hex_format. }
  split; [exact Hg|]. split; [exact Hc|].
  intros M seed chain e Hb Hin. rewrite build_chain_entries in Hb.
  apply In_nth_error in Hin. destruct Hin as [k Hk].
  destruct (entries_from_links M seed _ _ _ Hb) as [_ Hnth].
  destruct (Hnth k e Hk) as (m & _ & _ & _ & Hh & Hp).
  split; [exact (Hc _ _ _ _ Hh)|].
  rewrite Hp. destruct k as [|k]; cbn [ChainLinks.prev_at]; [exact Hg|].
  destruct (nth_error chain k) as [e'|] eqn:Ek; [|exact Hg].
  destruct (Hnth k e' Ek) as (m' & _ & _ & _ & Hh' & _).
  exact (Hc _ _ _ _ Hh').
Qed.

